(** * x509-parser: the ASN.1 TLV decoder and the X.509 mapper, embedded in Rocq

    The development follows the TypeScript sources:
    - [asn1-parser.ts]: class [ASN1Parser] (cursor, tag/length/value decoding,
      primitive value decoders, [parse], [simplifyNode]);
    - [oid-map.ts]: [OID_MAP], [getOIDLabel], [KeyUsageLabels];
    - the X.509 mapper: [parseX509Certificate], the extension decoders and the
      name decoders, and the loaders [loadX509FromBufferSync] and
      [loadX509AllFromBufferSync] with the PEM armour they remove.

    JavaScript numbers that the code only ever uses as integers are [Z];
    the 32-bit wrap-around of the bit operators is written out ([JS.ToInt32]).
    A [Uint8Array]/[ArrayBuffer] is a [list byte].  Strings produced by the
    code itself from a fixed ASCII alphabet (hex, base64, type names) are
    [string]; text decoded from certificate bytes is a list of UTF-16 code
    units ([jsstring]). *)

From Stdlib Require Import ZArith List String Ascii Strings.Byte Bool Lia.
Import ListNotations.
Open Scope string_scope.
Open Scope Z_scope.

Set Warnings "-register-all".

(* ================================================================= *)
(** ** The JavaScript primitives the sources rely on *)

Module JS.

(** [ToInt32]: the conversion every bit operator applies to its operands and
    to its result. *)
Definition ToInt32 (z : Z) : Z := (z + 2 ^ 31) mod 2 ^ 32 - 2 ^ 31.

(** [a << k] *)
Definition shl (a k : Z) : Z := ToInt32 (Z.shiftl (ToInt32 a) (k mod 32)).

(** [a >> k] (sign-propagating) *)
Definition shr (a k : Z) : Z := Z.shiftr (ToInt32 a) (k mod 32).

(** [a | b] *)
Definition bor (a b : Z) : Z := Z.lor (ToInt32 a) (ToInt32 b).

(** [a & b] *)
Definition band (a b : Z) : Z := Z.land (ToInt32 a) (ToInt32 b).

(** A JavaScript string: its UTF-16 code units. *)
Definition jsstring := list Z.

Definition codeUnit (c : ascii) : Z := Z.of_N (N_of_ascii c).

(** An ASCII literal of the source as a JavaScript string. *)
Definition js (s : string) : jsstring := map codeUnit (list_ascii_of_string s).

Definition jsstring_eqb (a b : jsstring) : bool :=
  if list_eq_dec Z.eq_dec a b then true else false.

(** The numbers that [parseInt] and the arithmetic on its results can
    produce: integers, [NaN], and the infinities. *)
Inductive number :=
| NaN
| Num (z : Z)
| Infinity (negative : bool).

(** Rounding of an integer to the nearest IEEE-754 double (ties to even). *)
Definition roundDouble (z : Z) : number :=
  let a := Z.abs z in
  if a <? 2 ^ 53 then Num z
  else
    let e := Z.log2 a - 52 in
    let q := a / 2 ^ e in
    let r := a mod 2 ^ e in
    let half := 2 ^ (e - 1) in
    let q' := if (half <? r) || ((r =? half) && Z.odd q) then q + 1 else q in
    let m := q' * 2 ^ e in
    if 2 ^ 1024 <=? m then Infinity (z <? 0) else Num (Z.sgn z * m).

(** Digits: [0-9a-z] as [Number.prototype.toString(radix)] prints them. *)
Definition digitChar (d : Z) : ascii :=
  if d <? 10 then ascii_of_N (Z.to_N (48 + d)) else ascii_of_N (Z.to_N (87 + d)).

Fixpoint digitsOf (fuel : nat) (radix n : Z) (acc : string) : string :=
  match fuel with
  | O => acc
  | S fuel' =>
      let acc' := String (digitChar (n mod radix)) acc in
      if n / radix =? 0 then acc' else digitsOf fuel' radix (n / radix) acc'
  end.

(** [n.toString(radix)] for an integer [n]. *)
Definition intToString (radix n : Z) : string :=
  let a := Z.abs n in
  let ds := digitsOf (S (Z.to_nat (Z.log2 a))) radix a "" in
  if n <? 0 then String "-" ds else ds.

(** [x.toString(radix)] for any number. *)
Definition numberToString (radix : Z) (x : number) : string :=
  match x with
  | NaN => "NaN"
  | Num z => intToString radix z
  | Infinity false => "Infinity"
  | Infinity true => "-Infinity"
  end.

(** [s.padStart(n, '0')] *)
Definition padStart0 (n : Z) (s : string) : string :=
  let k := (Z.to_nat n - String.length s)%nat in
  string_of_list_ascii (repeat "0"%char k) ++ s.

(** Value of a character as a digit, for [parseInt]. *)
Definition digitValue (c : Z) : option Z :=
  if (48 <=? c) && (c <=? 57) then Some (c - 48)
  else if (97 <=? c) && (c <=? 122) then Some (c - 87)
  else if (65 <=? c) && (c <=? 90) then Some (c - 55)
  else None.

(** [StrWhiteSpaceChar]: white space and line terminators. *)
Definition isWhiteSpace (c : Z) : bool :=
  existsb (Z.eqb c)
    [9; 10; 11; 12; 13; 32; 160; 5760; 8232; 8233; 8239; 8287; 12288; 65279]
  || ((8192 <=? c) && (c <=? 8202)).

Fixpoint skipWhiteSpace (s : jsstring) : jsstring :=
  match s with
  | c :: rest => if isWhiteSpace c then skipWhiteSpace rest else s
  | [] => []
  end.

(** The longest prefix of digits of the radix, accumulated most significant
    digit first: [Some v] after at least one digit, [None] otherwise. *)
Fixpoint parseDigits (radix : Z) (acc : option Z) (s : jsstring) : option Z :=
  match s with
  | [] => acc
  | c :: rest =>
      match digitValue c with
      | Some d =>
          if d <? radix
          then parseDigits radix (Some (match acc with Some a => a * radix + d | None => d end)) rest
          else acc
      | None => acc
      end
  end.

(** [parseInt(s, radix)] for radix 10 or 16. *)
Definition parseInt (s : jsstring) (radix : Z) : number :=
  let s1 := skipWhiteSpace s in
  let '(neg, s2) :=
    match s1 with
    | 45 :: rest => (true, rest)
    | 43 :: rest => (false, rest)
    | _ => (false, s1)
    end in
  let s3 :=
    if radix =? 16 then
      match s2 with
      | 48 :: x :: rest => if (x =? 120) || (x =? 88) then rest else s2
      | _ => s2
      end
    else s2 in
  match parseDigits radix None s3 with
  | None => NaN
  | Some v => roundDouble (if neg then - v else v)
  end.

(** Arithmetic on numbers, as far as the sources use it (integer operands
    stay far below 2^53, so sums are exact). *)
Definition add (x y : number) : number :=
  match x, y with
  | Num a, Num b => Num (a + b)
  | NaN, _ | _, NaN => NaN
  | Infinity s, Num _ | Num _, Infinity s => Infinity s
  | Infinity s, Infinity t => if Bool.eqb s t then Infinity s else NaN
  end.

(** [x < y] *)
Definition lt (x y : number) : bool :=
  match x, y with
  | Num a, Num b => a <? b
  | Infinity true, Num _ => true
  | Num _, Infinity false => true
  | Infinity true, Infinity false => true
  | _, _ => false
  end.

(** *** [Date.UTC] and [new Date(ms)] (ECMA-262, 21.4.1) *)

Definition DayFromYear (y : Z) : Z :=
  365 * (y - 1970) + (y - 1969) / 4 - (y - 1901) / 100 + (y - 1601) / 400.

Definition InLeapYear (y : Z) : bool :=
  ((y mod 4 =? 0) && negb (y mod 100 =? 0)) || (y mod 400 =? 0).

(** Day within the year on which month [m] (0..11) starts. *)
Definition monthStart (leap : bool) (m : Z) : Z :=
  let l := if leap then 1 else 0 in
  nth (Z.to_nat m)
    [0; 31; 59 + l; 90 + l; 120 + l; 151 + l; 181 + l; 212 + l; 243 + l;
     273 + l; 304 + l; 334 + l] 0.

Definition MakeDay (year month date : Z) : Z :=
  let ym := year + month / 12 in
  let mn := month mod 12 in
  DayFromYear ym + monthStart (InLeapYear ym) mn + date - 1.

Definition MakeTime (hour min sec ms : Z) : Z :=
  hour * 3600000 + min * 60000 + sec * 1000 + ms.

Definition MakeDate (day time : Z) : Z := day * 86400000 + time.

(** A [Date] object: its time value, [None] for an invalid date. *)
Definition Date := option Z.

Definition TimeClip (t : Z) : Date :=
  if 8640000000000000 <? Z.abs t then None else Some t.

(** [new Date(Date.UTC(year, month, day, hour, minute, second))] *)
Definition Date_UTC (year month day hour minute second : number) : Date :=
  match year, month, day, hour, minute, second with
  | Num y, Num m, Num d, Num h, Num mi, Num s =>
      let yr := if (0 <=? y) && (y <=? 99) then 1900 + y else y in
      TimeClip (MakeDate (MakeDay yr m d) (MakeTime h mi s 0))
  | _, _, _, _, _, _ => None
  end.

End JS.

(* ================================================================= *)
(** ** Bytes, hex and text codecs *)

Definition u8 (b : byte) : Z := Z.of_N (Byte.to_N b).

(** [b.toString(16).padStart(2, '0')] *)
Definition hexByte (x : Z) : string := JS.padStart0 2 (JS.intToString 16 x).

(** [bytesToHex]: [Array.from(bytes).map(b => b.toString(16).padStart(2,'0')).join('')] *)
Definition bytesToHex (bytes : list byte) : string :=
  String.concat "" (map (fun b => hexByte (u8 b)) bytes).

(** [ArrayBuffer.prototype.slice(start, end)]: both ends are clamped to the
    buffer, negative ones counted from the end. *)
Definition clampIndex (len i : Z) : Z :=
  if i <? 0 then Z.max (len + i) 0 else Z.min i len.

Definition slice {A} (l : list A) (start stop : Z) : list A :=
  let len := Z.of_nat (List.length l) in
  let a := clampIndex len start in
  let b := clampIndex len stop in
  firstn (Z.to_nat (b - a)) (skipn (Z.to_nat a) l).

(** *** [TextDecoder("utf-8")] (WHATWG Encoding, UTF-8 decoder, replacement
    error mode, leading byte order mark removed) *)

Record Utf8State := mkUtf8 {
  codePoint : Z;
  bytesNeeded : Z;
  bytesSeen : Z;
  lowerBoundary : Z;
  upperBoundary : Z
}.

Inductive Utf8Step :=
| Emit (cp : Z)
| More (st : Utf8State).

(** A byte read while no sequence is open. *)
Definition utf8Lead (x : Z) : Utf8Step :=
  if x <=? 127 then Emit x
  else if (194 <=? x) && (x <=? 223) then More (mkUtf8 (Z.land x 31) 1 0 128 191)
  else if (224 <=? x) && (x <=? 239) then
    More (mkUtf8 (Z.land x 15) 2 0 (if x =? 224 then 160 else 128) (if x =? 237 then 159 else 191))
  else if (240 <=? x) && (x <=? 244) then
    More (mkUtf8 (Z.land x 7) 3 0 (if x =? 240 then 144 else 128) (if x =? 244 then 143 else 191))
  else Emit 65533.

Fixpoint utf8Decode (st : option Utf8State) (bytes : list byte) : list Z :=
  match bytes with
  | [] => match st with None => [] | Some _ => [65533] end
  | b :: rest =>
      let x := u8 b in
      match st with
      | None =>
          match utf8Lead x with
          | Emit cp => cp :: utf8Decode None rest
          | More st' => utf8Decode (Some st') rest
          end
      | Some s =>
          if (x <? lowerBoundary s) || (upperBoundary s <? x) then
            (* the sequence is broken: an error is emitted and the byte is
               read again as the start of a new one *)
            65533 ::
            match utf8Lead x with
            | Emit cp => cp :: utf8Decode None rest
            | More st' => utf8Decode (Some st') rest
            end
          else
            let cp := Z.lor (Z.shiftl (codePoint s) 6) (Z.land x 63) in
            if bytesSeen s + 1 =? bytesNeeded s
            then cp :: utf8Decode None rest
            else utf8Decode (Some (mkUtf8 cp (bytesNeeded s) (bytesSeen s + 1) 128 191)) rest
      end
  end.

(** Code points to UTF-16 code units. *)
Definition utf16 (cp : Z) : list Z :=
  if cp <? 65536 then [cp]
  else [55296 + Z.shiftr (cp - 65536) 10; 56320 + Z.land (cp - 65536) 1023].

Definition dropBOM (cps : list Z) : list Z :=
  match cps with
  | 65279 :: rest => rest
  | _ => cps
  end.

(** [new TextDecoder("utf-8").decode(bytes)] *)
Definition decodeUtf8 (bytes : list byte) : JS.jsstring :=
  flat_map utf16 (dropBOM (utf8Decode None bytes)).

(** *** [TextDecoder("ascii")]: the label selects windows-1252 *)

Definition windows1252 (x : Z) : Z :=
  if (128 <=? x) && (x <=? 159) then
    nth (Z.to_nat (x - 128))
      [8364; 129; 8218; 402; 8222; 8230; 8224; 8225; 710; 8240; 352; 8249; 338;
       141; 381; 143; 144; 8216; 8217; 8220; 8221; 8226; 8211; 8212; 732; 8482;
       353; 8250; 339; 157; 382; 376] x
  else x.

Definition decodeAscii (bytes : list byte) : JS.jsstring :=
  map (fun b => windows1252 (u8 b)) bytes.

(** *** [btoa(String.fromCharCode(...bytes))] *)

Definition base64Char (x : Z) : ascii :=
  nth (Z.to_nat x)
    (list_ascii_of_string
       "ABCDEFGHIJKLMNOPQRSTUVWXYZabcdefghijklmnopqrstuvwxyz0123456789+/")
    "="%char.

Fixpoint btoa (bytes : list byte) : string :=
  match bytes with
  | [] => ""
  | [a] =>
      let x := u8 a in
      String (base64Char (x / 4)) (String (base64Char (x mod 4 * 16)) "==")
  | [a; b] =>
      let x := u8 a in
      let y := u8 b in
      String (base64Char (x / 4))
        (String (base64Char (x mod 4 * 16 + y / 16))
           (String (base64Char (y mod 16 * 4)) "="))
  | a :: b :: c :: rest =>
      let x := u8 a in
      let y := u8 b in
      let z := u8 c in
      String (base64Char (x / 4))
        (String (base64Char (x mod 4 * 16 + y / 16))
           (String (base64Char (y mod 16 * 4 + z / 64))
              (String (base64Char (z mod 64)) (btoa rest))))
  end.

(* ================================================================= *)
(** ** asn1-parser.ts *)

Inductive ASN1TagClass := UNIVERSAL | APPLICATION | CONTEXT_SPECIFIC | PRIVATE.

(** The value [decodeReal] computes.  Its integer parts are computed as
    the source does; the final floating-point product
    [mantissa * Math.pow(base, exponent)] and [parseFloat] are kept
    symbolic. *)
Inductive RealValue :=
| RConst (x : JS.number)
| RNegZero
| RPow (mantissa base exponent : Z)
| RParseFloat (s : JS.jsstring).

(** What [value.decoded] can hold. *)
Inductive Decoded :=
| DBoolean (b : bool)
| DInteger (n : Z)
| DReal (r : RealValue)
| DBitString (unusedBits : Z) (dataHex : string)
| DString (s : JS.jsstring)
| DDate (d : JS.Date).

Module Tag.
Record t := mk {
  number : Z;
  hex : string;
  class : ASN1TagClass;
  constructed : bool;
  type : string
}.
End Tag.

Module Length.
Record t := mk {
  value : Z;
  encodedHex : string
}.
End Length.

Module Leaf.
Record t := mk {
  rawHex : string;
  base64 : option string;
  decoded : option Decoded
}.
End Leaf.

(** [ASN1StructuredNode]: [value] is either the array of children or the
    leaf object. *)
Inductive ASN1StructuredNode :=
| mkNode (tag : Tag.t) (length : Length.t) (value : NodeValue) (offset : Z)
    (fullHex : string)
with NodeValue :=
| Children (nodes : list ASN1StructuredNode)
| LeafValue (leaf : Leaf.t).

Module Node.
Definition tag (n : ASN1StructuredNode) : Tag.t :=
  match n with mkNode t _ _ _ _ => t end.
Definition length (n : ASN1StructuredNode) : Length.t :=
  match n with mkNode _ l _ _ _ => l end.
Definition value (n : ASN1StructuredNode) : NodeValue :=
  match n with mkNode _ _ v _ _ => v end.
Definition offset (n : ASN1StructuredNode) : Z :=
  match n with mkNode _ _ _ o _ => o end.
Definition fullHex (n : ASN1StructuredNode) : string :=
  match n with mkNode _ _ _ _ h => h end.
End Node.

(** [Array.isArray(node.value)] *)
Definition isArray (v : NodeValue) : bool :=
  match v with Children _ => true | LeafValue _ => false end.

(** Exceptions.  [Error message] is [new Error(message)] of the sources;
    [RangeError] is what [DataView.getUint8] and [new Uint8Array] throw out of
    range, [TypeError] what a property read on [undefined] throws (their
    messages are the engine's). *)
Inductive JSError :=
| Error (message : string)
| RangeError
| TypeError.

(** An entry of [this.errors]:
    [`Error parsing ASN.1 at offset ${this.offset}: ${e}`]. *)
Record ParseError := mkParseError {
  atOffset : Z;
  cause : JSError
}.

(** *** Primitive value decoders *)

Definition decodeString (bytes : list byte) : JS.jsstring := decodeUtf8 bytes.

Fixpoint decodeOIDArcs (bytes : list byte) (value : Z) : list Z :=
  match bytes with
  | [] => []
  | b :: rest =>
      let value' := JS.bor (JS.shl value 7) (JS.band (u8 b) 127) in
      if JS.band (u8 b) 128 =? 0
      then value' :: decodeOIDArcs rest 0
      else decodeOIDArcs rest value'
  end.

Definition decodeOID (bytes : list byte) : JS.jsstring :=
  match bytes with
  | [] => JS.js ""
  | firstByte :: rest =>
      let first := u8 firstByte / 40 in
      let second := u8 firstByte mod 40 in
      let parts := first :: second :: decodeOIDArcs rest 0 in
      JS.js (String.concat "." (map (JS.intToString 10) parts))
  end.

(** The loop [result = (result << 8) | bytes[i]]. *)
Definition accumulateBytes (bytes : list byte) : Z :=
  fold_left (fun result b => JS.bor (JS.shl result 8) (u8 b)) bytes 0.

Definition decodeInteger (bytes : list byte) : Z :=
  let result := accumulateBytes bytes in
  match bytes with
  | b0 :: _ =>
      if negb (JS.band (u8 b0) 128 =? 0)
      then result - JS.shl 1 (Z.of_nat (List.length bytes) * 8)
      else result
  | [] => result
  end.

Definition decodeBitString (bytes : list byte) : Decoded :=
  match bytes with
  | [] => DBitString 0 ""
  | unusedBits :: dataBytes => DBitString (u8 unusedBits) (bytesToHex dataBytes)
  end.

Definition decodeBoolean (bytes : list byte) : bool :=
  match bytes with
  | [b] => negb (u8 b =? 0)
  | _ => false
  end.

(** [bytes[i]] used as an operand of a bit operator: [undefined] counts as 0. *)
Definition byteOr0 (bytes : list byte) (i : nat) : Z :=
  match nth_error bytes i with Some b => u8 b | None => 0 end.

Definition decodeReal (bytes : list byte) : RealValue :=
  match bytes with
  | [] => RConst (JS.Num 0)
  | b0 :: _ =>
      let firstByte := u8 b0 in
      if firstByte =? 64 then RConst (JS.Infinity false)
      else if firstByte =? 65 then RConst (JS.Infinity true)
      else if firstByte =? 66 then RConst JS.NaN
      else if firstByte =? 67 then RNegZero
      else if JS.band firstByte 128 =? 128 then
        let baseIndicator := JS.band (JS.shr firstByte 4) 3 in
        let scaleFactor := JS.band (JS.shr firstByte 2) 3 in
        let exponentLength := JS.band firstByte 3 + 1 in
        let exponent0 :=
          fold_left (fun e i => JS.bor (JS.shl e 8) (byteOr0 bytes (1 + i)))
            (seq 0 (Z.to_nat exponentLength)) 0 in
        let exponent :=
          if negb (JS.band (byteOr0 bytes 1) 128 =? 0)
          then exponent0 - JS.shl 1 (8 * exponentLength)
          else exponent0 in
        let mantissaBytes := skipn (Z.to_nat (1 + exponentLength)) bytes in
        let mantissa0 := accumulateBytes mantissaBytes in
        let mantissa1 :=
          match mantissaBytes with
          | m0 :: _ =>
              if negb (JS.band (u8 m0) 128 =? 0)
              then mantissa0 - JS.shl 1 (8 * Z.of_nat (List.length mantissaBytes))
              else mantissa0
          | [] => mantissa0
          end in
        let mantissa := mantissa1 * 2 ^ (scaleFactor * 3) in
        let base :=
          if baseIndicator =? 2 then 16 else if baseIndicator =? 1 then 8 else 2 in
        RPow mantissa base exponent
      else RParseFloat (decodeString bytes)
  end.

Definition bytesToBase64 (bytes : list byte) : string := btoa bytes.

Definition isDigit (c : Z) : bool := (48 <=? c) && (c <=? 57).

(** [str.match(/^(\d{2})(\d{2})(\d{2})(\d{2})(\d{2})(\d{2})?Z$/)]: the groups
    1..6 ([None] when the optional group did not take part), or no match. *)
Definition matchTime (yearDigits : nat) (str : JS.jsstring)
  : option (list JS.jsstring * option JS.jsstring) :=
  let fixed := (yearDigits + 8)%nat in
  let groups (s : JS.jsstring) :=
    [firstn yearDigits s;
     firstn 2 (skipn yearDigits s);
     firstn 2 (skipn (yearDigits + 2) s);
     firstn 2 (skipn (yearDigits + 4) s);
     firstn 2 (skipn (yearDigits + 6) s)] in
  if forallb isDigit (firstn fixed str) && (fixed <=? List.length str)%nat then
    match skipn fixed str with
    | [z] => if z =? 90 then Some (groups str, None) else None
    | [s1; s2; z] =>
        if (z =? 90) && isDigit s1 && isDigit s2
        then Some (groups str, Some [s1; s2])
        else None
    | _ => None
    end
  else None.

Definition decodeDate (bytes : list byte) (tagNumber : Z) : Decoded :=
  let str := decodeString bytes in
  if tagNumber =? 23 then
    match matchTime 2 str with
    | Some ([m1; m2; m3; m4; m5], m6) =>
        let year := JS.parseInt m1 10 in
        let fullYear :=
          if JS.lt year (JS.Num 50) then JS.add (JS.Num 2000) year
          else JS.add (JS.Num 1900) year in
        let month := JS.add (JS.parseInt m2 10) (JS.Num (-1)) in
        let day := JS.parseInt m3 10 in
        let hour := JS.parseInt m4 10 in
        let minute := JS.parseInt m5 10 in
        let second := match m6 with Some s => JS.parseInt s 10 | None => JS.Num 0 end in
        DDate (JS.Date_UTC fullYear month day hour minute second)
    | _ => DString str
    end
  else if tagNumber =? 24 then
    match matchTime 4 str with
    | Some ([m1; m2; m3; m4; m5], m6) =>
        let year := JS.parseInt m1 10 in
        let month := JS.add (JS.parseInt m2 10) (JS.Num (-1)) in
        let day := JS.parseInt m3 10 in
        let hour := JS.parseInt m4 10 in
        let minute := JS.parseInt m5 10 in
        let second := match m6 with Some s => JS.parseInt s 10 | None => JS.Num 0 end in
        DDate (JS.Date_UTC year month day hour minute second)
    | _ => DString str
    end
  else DString str.

Definition getTagClass (tagByte : Z) : ASN1TagClass :=
  let cls := JS.shr (JS.band tagByte 192) 6 in
  if cls =? 0 then UNIVERSAL
  else if cls =? 1 then APPLICATION
  else if cls =? 2 then CONTEXT_SPECIFIC
  else if cls =? 3 then PRIVATE
  else UNIVERSAL.

Definition tagToType (tag : Z) : string :=
  if tag =? 1 then "BOOLEAN"
  else if tag =? 2 then "INTEGER"
  else if tag =? 3 then "BIT STRING"
  else if tag =? 4 then "OCTET STRING"
  else if tag =? 5 then "NULL"
  else if tag =? 6 then "OBJECT IDENTIFIER"
  else if tag =? 7 then "ObjectDescriptor"
  else if tag =? 8 then "EXTERNAL"
  else if tag =? 9 then "REAL"
  else if tag =? 10 then "ENUMERATED"
  else if tag =? 11 then "EMBEDDED PDV"
  else if tag =? 12 then "UTF8String"
  else if tag =? 13 then "RELATIVE-OID"
  else if tag =? 16 then "SEQUENCE"
  else if tag =? 17 then "SET"
  else if tag =? 18 then "NumericString"
  else if tag =? 19 then "PrintableString"
  else if tag =? 20 then "TeletexString"
  else if tag =? 21 then "VideotexString"
  else if tag =? 22 then "IA5String"
  else if tag =? 23 then "UTCTime"
  else if tag =? 24 then "GeneralizedTime"
  else if tag =? 25 then "GraphicString"
  else if tag =? 26 then "VisibleString"
  else if tag =? 27 then "GeneralString"
  else if tag =? 28 then "UniversalString"
  else if tag =? 29 then "CHARACTER STRING"
  else if tag =? 30 then "BMPString"
  else "Unknown (0x" ++ JS.intToString 16 tag ++ ")".

(** The leaf object [parseElement] builds for a primitive element
    ([valueObject] with its "décodages spéciaux"). *)
Definition decodeLeaf (tagNumber : Z) (valueBytes : list byte) : Leaf.t :=
  let valueHex := bytesToHex valueBytes in
  let base64 := if tagNumber =? 4 then Some (bytesToBase64 valueBytes) else None in
  let decoded :=
    if tagNumber =? 1 then Some (DBoolean (decodeBoolean valueBytes))
    else if tagNumber =? 2 then Some (DInteger (decodeInteger valueBytes))
    else if tagNumber =? 3 then Some (decodeBitString valueBytes)
    else if tagNumber =? 6 then Some (DString (decodeOID valueBytes))
    else if tagNumber =? 9 then Some (DReal (decodeReal valueBytes))
    else if tagNumber =? 10 then Some (DInteger (decodeInteger valueBytes))
    else if (tagNumber =? 12) || (tagNumber =? 19) then Some (DString (decodeString valueBytes))
    else if (tagNumber =? 23) || (tagNumber =? 24) then Some (decodeDate valueBytes tagNumber)
    else None in
  Leaf.mk valueHex base64 decoded.

(** *** The cursor: [this.offset] threaded through the reads

    A computation of the parser starts at an offset and either returns a
    value, or throws, in both cases leaving the cursor where it got to
    ([parse] reads it in its [catch]).  [OutOfFuel] is the artefact of the
    recursion bound of [parseElement]; [parseElement_fuel] shows that the
    bound [parse] uses is never reached. *)
Inductive outcome (A : Type) :=
| Ok (a : A) (offset : Z)
| Throw (e : JSError) (offset : Z)
| OutOfFuel.
Arguments Ok {A} a offset.
Arguments Throw {A} e offset.
Arguments OutOfFuel {A}.

Definition Cursor (A : Type) := Z -> outcome A.

Definition ret {A} (a : A) : Cursor A := fun off => Ok a off.

Definition bind {A B} (c : Cursor A) (k : A -> Cursor B) : Cursor B :=
  fun off =>
    match c off with
    | Ok a off' => k a off'
    | Throw e off' => Throw e off'
    | OutOfFuel => OutOfFuel
    end.

Definition throw {A} (e : JSError) : Cursor A := fun off => Throw e off.

(** [this.offset] *)
Definition position : Cursor Z := fun off => Ok off off.

Notation "x <- c ;; k" := (bind c (fun x => k))
  (at level 61, c at next level, right associativity).

(** How a call ends: it returns, it throws to its caller, or (an artefact of
    the model) its recursion bound is reached. *)
Inductive completion (A : Type) :=
| Return (a : A)
| Raise (e : JSError)
| Exhausted.
Arguments Return {A} a.
Arguments Raise {A} e.
Arguments Exhausted {A}.

Section Parser.

Variable buffer : list byte.

Definition byteLength : Z := Z.of_nat (List.length buffer).

(** [this.view.getUint8(this.offset)], then [this.offset += 1]. *)
Definition readByte : Cursor Z :=
  fun off =>
    if (0 <=? off) && (off <? byteLength) then
      match nth_error buffer (Z.to_nat off) with
      | Some b => Ok (u8 b) (off + 1)
      | None => Throw RangeError off
      end
    else Throw RangeError off.

(** [new Uint8Array(this.buffer, this.offset, length)], then
    [this.offset += length]. *)
Definition readBytes (length : Z) : Cursor (list byte) :=
  fun off =>
    if (length <? 0) || (off <? 0) || (byteLength <? off + length)
    then Throw RangeError off
    else Ok (firstn (Z.to_nat length) (skipn (Z.to_nat off) buffer)) (off + length).

(** The [for] loop of [readLength]. *)
Fixpoint readLengthBytes (numBytes : nat) (length : Z) : Cursor Z :=
  match numBytes with
  | O => ret length
  | S n =>
      b <- readByte ;;
      readLengthBytes n (JS.bor (JS.shl length 8) b)
  end.

Definition readLength : Cursor Z :=
  firstByte <- readByte ;;
  if JS.band firstByte 128 =? 0 then ret firstByte
  else
    let numBytes := JS.band firstByte 127 in
    off <- position ;;
    if (numBytes =? 0) || (4 <? numBytes) then
      throw (Error ("Invalid length encoding at offset " ++ JS.intToString 10 (off - 1)))
    else if byteLength <? off + numBytes then
      throw (Error ("Length extends beyond buffer at offset " ++ JS.intToString 10 off))
    else readLengthBytes (Z.to_nat numBytes) 0.

(** The [do ... while (byte & 0x80)] loop of a multi-byte tag number;
    [rest] is the buffer from the cursor on, so that running out of it is
    [readByte] throwing. *)
Fixpoint tagNumberLoop (rest : list byte) (tagNumber : Z) : Cursor Z :=
  fun off =>
    match rest with
    | [] => Throw RangeError off
    | b :: rest' =>
        let byte := u8 b in
        let tagNumber' := JS.bor (JS.shl tagNumber 7) (JS.band byte 127) in
        if JS.band byte 128 =? 0 then Ok tagNumber' (off + 1)
        else tagNumberLoop rest' tagNumber' (off + 1)
    end.

Definition readTagNumber (tagByte : Z) : Cursor Z :=
  let tagNumber := JS.band tagByte 31 in
  if tagNumber =? 31 then
    fun off => tagNumberLoop (skipn (Z.to_nat off) buffer) 0 off
  else ret tagNumber.

(** [while (this.offset < endOffset) value.push(this.parseElement())] *)
Fixpoint parseChildren (parseElement : Cursor ASN1StructuredNode) (fuel : nat)
    (endOffset : Z) (value : list ASN1StructuredNode)
  : Cursor (list ASN1StructuredNode) :=
  fun off =>
    if off <? endOffset then
      match fuel with
      | O => OutOfFuel
      | S fuel' =>
          (child <- parseElement ;;
           parseChildren parseElement fuel' endOffset (value ++ [child])%list) off
      end
    else Ok value off.

Definition declaredLengthError (startOffset : Z) : JSError :=
  Error ("Declared length extends beyond buffer at offset "
         ++ JS.intToString 10 startOffset).

(** The body of [parseElement]; [parseElement] stands for the recursive call
    [this.parseElement()] and [fuel] bounds the iterations of the [while]
    loop over the children. *)
Definition parseElementBody (parseElement : Cursor ASN1StructuredNode)
    (fuel : nat) : Cursor ASN1StructuredNode :=
  startOffset <- position ;;
  tagByte <- readByte ;;
  let tagHex := hexByte tagByte in
  let tagClass := getTagClass tagByte in
  let constructed := negb (JS.band tagByte 32 =? 0) in
  tagNumber <- readTagNumber tagByte ;;
  lengthStart <- position ;;
  lengthValue <- readLength ;;
  afterLength <- position ;;
  if byteLength <? afterLength + lengthValue then
    throw (declaredLengthError startOffset)
  else
    let lengthEncodedHex := bytesToHex (slice buffer lengthStart afterLength) in
    let typeName := tagToType tagNumber in
    if constructed then
      let endOffset := afterLength + lengthValue in
      value <- parseChildren parseElement fuel endOffset [] ;;
      let fullHex := bytesToHex (slice buffer startOffset endOffset) in
      ret (mkNode (Tag.mk tagNumber tagHex tagClass true typeName)
             (Length.mk lengthValue lengthEncodedHex)
             (Children value) startOffset fullHex)
    else
      valueBytes <- readBytes lengthValue ;;
      afterValue <- position ;;
      let fullHex := bytesToHex (slice buffer startOffset afterValue) in
      ret (mkNode (Tag.mk tagNumber tagHex tagClass false typeName)
             (Length.mk lengthValue lengthEncodedHex)
             (LeafValue (decodeLeaf tagNumber valueBytes)) startOffset fullHex).

(** [parseElement], with a bound on the nesting depth. *)
Fixpoint parseElement (fuel : nat) : Cursor ASN1StructuredNode :=
  match fuel with
  | O => fun _ => OutOfFuel
  | S fuel' => parseElementBody (parseElement fuel') fuel'
  end.

(** *** [parse] and [simplifyNode] *)

(** The options after the constructor merged them with the defaults. *)
Record Options := mkOptions {
  parseAll : bool;
  simplify : bool
}.

Inductive SimpleNode :=
| mkSimple (tag : string) (class : ASN1TagClass) (offset : Z) (value : SimpleValue)
with SimpleValue :=
| SimpleChildren (nodes : list SimpleNode)
| SimpleDecoded (d : Decoded)
| SimpleText (s : string).

Fixpoint simplifyNode (node : ASN1StructuredNode) : SimpleNode :=
  match node with
  | mkNode tag _ value offset _ =>
      mkSimple (Tag.type tag) (Tag.class tag) offset
        match value with
        | Children nodes => SimpleChildren (map simplifyNode nodes)
        | LeafValue leaf =>
            match Leaf.decoded leaf, Leaf.base64 leaf with
            | Some d, _ => SimpleDecoded d
            | None, Some b => SimpleText b
            | None, None => SimpleText (Leaf.rawHex leaf)
            end
        end
  end.

(** The [result] field of what [parse] returns, by the two options. *)
Inductive ParseResult :=
| Nodes (nodes : list ASN1StructuredNode)
| FirstNode (node : option ASN1StructuredNode)
| SimpleNodes (nodes : list SimpleNode)
| FirstSimple (node : SimpleNode).

Record Parsed := mkParsed {
  result : ParseResult;
  errors : list ParseError
}.

Variable options : Options.

(** The [while (this.offset < this.buffer.byteLength)] loop of [parse]:
    the nodes, the error list, and [None] when the bound is reached. *)
Fixpoint parseLoop (fuel : nat) (nodes : list ASN1StructuredNode) (off : Z)
  : option (list ASN1StructuredNode * list ParseError) :=
  if off <? byteLength then
    match fuel with
    | O => None
    | S fuel' =>
        match parseElement (S (List.length buffer)) off with
        | Ok node off' =>
            if negb (parseAll options) then Some ((nodes ++ [node])%list, [])
            else parseLoop fuel' (nodes ++ [node])%list off'
        | Throw e off' => Some (nodes, [mkParseError off' e])
        | OutOfFuel => None
        end
    end
  else Some (nodes, []).

Definition parse : completion Parsed :=
  match parseLoop (S (List.length buffer)) [] 0 with
  | None => Exhausted
  | Some (nodes, errors) =>
      if simplify options then
        if parseAll options
        then Return (mkParsed (SimpleNodes (map simplifyNode nodes)) errors)
        else
          match nodes with
          | node :: _ => Return (mkParsed (FirstSimple (simplifyNode node)) errors)
          | [] => Raise TypeError
          end
      else
        if parseAll options
        then Return (mkParsed (Nodes nodes) errors)
        else Return (mkParsed (FirstNode (hd_error nodes)) errors)
  end.

End Parser.

(** [parseASN1(buffer, options)]; absent options take the defaults
    [parseAll: true], [simplify: false]. *)
Definition parseASN1 (buffer : list byte) (parseAll simplify : option bool)
  : completion Parsed :=
  parse buffer
    (mkOptions (match parseAll with Some b => b | None => true end)
               (match simplify with Some b => b | None => false end)).


(* ================================================================= *)
(** ** oid-map.ts *)

Definition OID_MAP : list (string * string) :=
  [ ("2.5.4.3", "commonName");
    ("2.5.4.4", "surname");
    ("2.5.4.5", "serialNumber");
    ("2.5.4.6", "countryName");
    ("2.5.4.7", "localityName");
    ("2.5.4.8", "stateOrProvinceName");
    ("2.5.4.9", "streetAddress");
    ("2.5.4.10", "organizationName");
    ("2.5.4.11", "organizationalUnitName");
    ("2.5.4.12", "title");
    ("2.5.4.42", "givenName");
    ("2.5.4.97", "organizationIdentifier");
    ("1.2.840.113549.1.9.1", "emailAddress");
    ("1.2.840.113549.1.1.1", "rsaEncryption");
    ("1.2.840.113549.1.1.5", "sha1WithRSAEncryption");
    ("1.2.840.113549.1.1.11", "sha256WithRSAEncryption");
    ("1.2.840.113549.1.1.12", "sha384WithRSAEncryption");
    ("1.2.840.113549.1.1.13", "sha512WithRSAEncryption");
    ("1.2.840.10045.2.1", "ecPublicKey");
    ("1.2.840.10045.4.3.2", "ecdsaWithSHA256");
    ("1.2.840.10045.4.3.3", "ecdsaWithSHA384");
    ("1.2.840.10045.4.3.4", "ecdsaWithSHA512");
    ("1.3.101.110", "X25519");
    ("1.3.101.111", "X448");
    ("1.3.101.112", "Ed25519");
    ("1.3.101.113", "Ed448");
    ("2.5.29.14", "subjectKeyIdentifier");
    ("2.5.29.15", "keyUsage");
    ("2.5.29.17", "subjectAltName");
    ("2.5.29.19", "basicConstraints");
    ("2.5.29.31", "cRLDistributionPoints");
    ("2.5.29.32", "certificatePolicies");
    ("2.5.29.35", "authorityKeyIdentifier");
    ("2.5.29.37", "extendedKeyUsage");
    ("2.5.29.30", "nameConstraints");
    ("2.5.29.36", "policyConstraints");
    ("2.5.29.54", "inhibitAnyPolicy");
    ("1.3.6.1.5.5.7.3.1", "serverAuth");
    ("1.3.6.1.5.5.7.3.2", "clientAuth");
    ("1.3.6.1.5.5.7.3.3", "codeSigning");
    ("1.3.6.1.5.5.7.3.4", "emailProtection");
    ("1.3.6.1.5.5.7.3.8", "timeStamping");
    ("1.3.6.1.5.5.7.3.9", "OCSPSigning");
    ("1.3.6.1.5.5.7.1.1", "authorityInfoAccess");
    ("1.3.6.1.5.5.7.1.3", "qcStatements");
    ("1.3.6.1.5.5.7.48.1", "ocsp");
    ("1.3.6.1.5.5.7.48.2", "caIssuers");
    ("1.3.6.1.5.5.7.48.3", "timeStampingAuthority");
    ("2.23.140.1.1", "CA/Browser Forum Baseline Requirements Compliance");
    ("2.23.140.1.2.1", "DV SSL/TLS Certificate (Domain Validation)");
    ("2.23.140.1.2.2", "OV SSL/TLS Certificate (Organization Validation)");
    ("2.23.140.1.2.3", "EV SSL/TLS Certificate (Extended Validation)");
    ("2.23.140.1.3", "EV S/MIME Certificate");
    ("2.23.140.1.4.1", "OV S/MIME Certificate");
    ("2.23.140.1.4.2", "DV S/MIME Certificate");
    ("2.23.140.1.5.1.1", "EV Code Signing Certificate");
    ("2.23.140.1.5.3.1", "EV TLS Web Server Authentication");
    ("0.4.0.1862.1.1", "id-etsi-qcs-QcCompliance");
    ("0.4.0.1862.1.4", "id-etsi-qcs-QcSSCD");
    ("0.4.0.1862.1.5", "id-etsi-qcs-QcPDS");
    ("0.4.0.1862.1.6", "id-etsi-qcs-QcType");
    ("0.4.0.1862.1.6.1", "qct-esign");
    ("0.4.0.1862.1.6.2", "qct-eseal");
    ("0.4.0.1862.1.6.3", "qct-web");
    ("1.2.250.1.177.1.1.1", "RGS Signature (personne physique)");
    ("1.2.250.1.177.1.1.2", "RGS Cachet serveur");
    ("1.2.250.1.177.1.1.3", "RGS Authentification personne physique");
    ("1.2.250.1.177.1.1.4", "RGS Chiffrement personne physique");
    ("1.2.250.1.177.1.1.5", "RGS Authentification serveur");
    ("1.2.250.1.177.2.1.1.1", "RGS Niveau faible");
    ("1.2.250.1.177.2.1.1.2", "RGS Niveau substantiel");
    ("1.2.250.1.177.2.1.1.3", "RGS Niveau élevé");
    ("1.2.250.1.177.2.4.1.1.1", "RGS Authentification personne physique (v2)");
    ("1.2.250.1.177.2.4.1.1.2", "RGS Authentification personne morale (v2)");
    ("1.2.250.1.177.2.4.2.1.1", "RGS Signature personne physique (v2)");
    ("1.2.250.1.177.2.4.2.1.2", "RGS Signature personne morale (v2)");
    ("1.2.250.1.177.2.4.3.1.1", "RGS Chiffrement personne physique (v2)");
    ("1.2.250.1.177.2.4.3.1.2", "RGS Chiffrement personne morale (v2)");
    ("1.2.840.113583.1.1.5", "Adobe Authentic Documents Trust");
    ("1.2.840.113583.1.1.7", "Adobe Document Signing");
    ("1.2.840.113583.1.1.9", "Adobe PDF Signing");
    ("1.2.840.113583.1.1.8", "Adobe Certified Document Services (CDS)");
    ("1.3.6.1.4.1.11129.2.4.2", "certificateTransparency");
    ("1.3.6.1.5.5.7.2.1", "cpsUri");
    ("1.3.6.1.5.5.7.2.2", "userNotice") ].

(** The label of an OID: a string of the table (or a literal of the
    sources), the template [`Unknown OID (${oid})`] kept with the value it
    prints, or, for a key that [OID_MAP] inherits from [Object.prototype],
    that inherited property. *)
Inductive Label :=
| LabelText (s : string)
| UnknownOID (oid : Decoded)
| InheritedProperty (key : string).

Definition objectPrototypeKeys : list string :=
  [ "constructor"; "__defineGetter__"; "__defineSetter__"; "hasOwnProperty";
    "__lookupGetter__"; "__lookupSetter__"; "isPrototypeOf";
    "propertyIsEnumerable"; "toString"; "valueOf"; "__proto__";
    "toLocaleString" ].

Fixpoint lookup (key : JS.jsstring) (table : list (string * string)) : option string :=
  match table with
  | [] => None
  | (k, v) :: rest => if JS.jsstring_eqb key (JS.js k) then Some v else lookup key rest
  end.

(** [getOIDLabel(oid)]: [OID_MAP[oid] ?? `Unknown OID (${oid})`].  The
    argument is whatever [getDecoded] returned; only a string can be a key of
    the table. *)
Definition getOIDLabel (oid : Decoded) : Label :=
  match oid with
  | DString s =>
      match lookup s OID_MAP with
      | Some label => LabelText label
      | None =>
          match find (fun k => JS.jsstring_eqb s (JS.js k)) objectPrototypeKeys with
          | Some k => InheritedProperty k
          | None => UnknownOID oid
          end
      end
  | _ => UnknownOID oid
  end.

Definition KeyUsageLabels : list (Z * string) :=
  [ (0, "digitalSignature");
    (1, "nonRepudiation");
    (2, "keyEncipherment");
    (3, "dataEncipherment");
    (4, "keyAgreement");
    (5, "keyCertSign");
    (6, "cRLSign");
    (7, "encipherOnly");
    (8, "decipherOnly") ].

(* ================================================================= *)
(** ** The X.509 mapper *)

(** Sequencing of calls that may throw. *)
Definition andThen {A B} (c : completion A) (k : A -> completion B) : completion B :=
  match c with
  | Return a => k a
  | Raise e => Raise e
  | Exhausted => Exhausted
  end.

Notation "x <-- c ;; k" := (andThen c (fun x => k))
  (at level 61, c at next level, right associativity).

(** [array.map(f)] for an [f] that may throw. *)
Fixpoint mapM {A B} (f : A -> completion B) (l : list A) : completion (list B) :=
  match l with
  | [] => Return []
  | a :: rest =>
      b <-- f a ;;
      bs <-- mapM f rest ;;
      Return (b :: bs)
  end.

(** *** Strings of the sources *)

(** [s.slice(start, end)] on a string of hex digits. *)
Definition sliceString (s : string) (start stop : Z) : string :=
  string_of_list_ascii (slice (list_ascii_of_string s) start stop).

Definition stringLength (s : string) : Z := Z.of_nat (String.length s).

(** [s.toUpperCase()] on ASCII. *)
Definition toUpperCase (s : string) : string :=
  string_of_list_ascii
    (map (fun c =>
            let n := N_of_ascii c in
            if ((97 <=? n) && (n <=? 122))%N then ascii_of_N (n - 32) else c)
         (list_ascii_of_string s)).

(** The value [ToUint8] stores into a [Uint8Array]. *)
Definition toUint8 (x : JS.number) : byte :=
  match x with
  | JS.Num z =>
      match Byte.of_N (Z.to_N (z mod 256)) with
      | Some b => b
      | None => x00
      end
  | _ => x00
  end.

(** The loop [bytes[i] = parseInt(hex.substr(i * 2, 2), 16)] over the
    [hex.length / 2] pairs. *)
Fixpoint hexPairs (hex : list ascii) : list byte :=
  match hex with
  | c1 :: c2 :: rest =>
      toUint8 (JS.parseInt [JS.codeUnit c1; JS.codeUnit c2] 16) :: hexPairs rest
  | _ => []
  end.

Definition hexToArrayBuffer (hex : string) : completion (list byte) :=
  if Nat.even (String.length hex)
  then Return (hexPairs (list_ascii_of_string hex))
  else Raise (Error "Invalid hex string").

(** The loop of [hexToAsciiSafe]: [None] when a pair is not a number. *)
Fixpoint asciiPairs (hex : list ascii) : option JS.jsstring :=
  match hex with
  | c1 :: c2 :: rest =>
      match JS.parseInt [JS.codeUnit c1; JS.codeUnit c2] 16 with
      | JS.Num byte =>
          match asciiPairs rest with
          | Some s => Some (byte mod 65536 :: s)
          | None => None
          end
      | _ => None
      end
  | _ => Some []
  end.

Definition hexToAsciiSafe (hex : string) : JS.jsstring :=
  if Nat.even (String.length hex) then
    match asciiPairs (list_ascii_of_string hex) with
    | Some s => s
    | None => []
    end
  else [].

(** *** Truthiness of decoded values *)

Fixpoint takeDigits (s : JS.jsstring) : JS.jsstring * JS.jsstring :=
  match s with
  | c :: rest =>
      if isDigit c then let '(ds, r) := takeDigits rest in (c :: ds, r) else ([], s)
  | [] => ([], [])
  end.

Definition digitsValue (ds : JS.jsstring) : Z :=
  fold_left (fun acc c => acc * 10 + (c - 48)) ds 0.

Fixpoint startsWith (prefix s : JS.jsstring) : bool :=
  match prefix, s with
  | [], _ => true
  | p :: ps, c :: cs => (p =? c) && startsWith ps cs
  | _ :: _, [] => false
  end.

(** Whether [parseFloat(s)] is neither [NaN] nor zero: the longest prefix
    that is a decimal literal has a digit other than 0 and does not round to
    zero (it exceeds 2^-1075). *)
Definition parseFloatTruthy (s : JS.jsstring) : bool :=
  let s1 := JS.skipWhiteSpace s in
  let s2 := match s1 with
            | 45 :: rest => rest
            | 43 :: rest => rest
            | _ => s1
            end in
  if startsWith (JS.js "Infinity") s2 then true
  else
    let '(intDigits, r1) := takeDigits s2 in
    let '(fracDigits, r2) :=
      match r1 with
      | 46 :: r => takeDigits r
      | _ => ([], r1)
      end in
    match (intDigits ++ fracDigits)%list with
    | [] => false
    | ds =>
        let exponent :=
          match r2 with
          | e :: r =>
              if (e =? 101) || (e =? 69) then
                let '(neg, r') := match r with
                                  | 45 :: t => (true, t)
                                  | 43 :: t => (false, t)
                                  | _ => (false, r)
                                  end in
                match takeDigits r' with
                | ([], _) => 0
                | (es, _) => if neg then - digitsValue es else digitsValue es
                end
              else 0
          | [] => 0
          end in
        let d := digitsValue ds in
        let e10 := exponent - Z.of_nat (List.length fracDigits) in
        if d =? 0 then false
        else if 0 <=? e10 then true
        else 10 ^ (- e10) <? d * 2 ^ 1075
    end.

(** Whether the double a [RealValue] stands for is neither [NaN] nor zero.
    [Math.pow(base, exponent)] is an exact power of two; it is zero below
    2^-1074, and [0 * Infinity] is [NaN]. *)
Definition realTruthy (r : RealValue) : bool :=
  match r with
  | RConst (JS.Num z) => negb (z =? 0)
  | RConst JS.NaN => false
  | RConst (JS.Infinity _) => true
  | RNegZero => false
  | RPow mantissa base exponent =>
      negb (mantissa =? 0) && (-1074 <=? exponent * Z.log2 base)
  | RParseFloat s => parseFloatTruthy s
  end.

(** [!!value] *)
Definition truthy (d : Decoded) : bool :=
  match d with
  | DBoolean b => b
  | DInteger n => negb (n =? 0)
  | DReal r => realTruthy r
  | DBitString _ _ => true
  | DString s => match s with [] => false | _ => true end
  | DDate _ => true
  end.

(** *** Generic helpers *)

Module Field.
Record t (T : Type) := mk {
  value : T;
  offset : Z;
  fullHex : string;
  tag : Tag.t
}.
Arguments mk {T} value offset fullHex tag.
Arguments value {T} t.
Arguments offset {T} t.
Arguments fullHex {T} t.
Arguments tag {T} t.
End Field.

Abbreviation X509Field := Field.t.

(** A node that may be [undefined]. *)
Abbreviation maybeNode := (option ASN1StructuredNode).

(** [array[i]] *)
Definition at_ (nodes : list ASN1StructuredNode) (i : nat) : maybeNode :=
  nth_error nodes i.

(** [(node.value as ASN1StructuredNode[])[i]] and the like: the elements of
    [node.value] when it is the array of children; a leaf object has no
    element at any index. *)
Definition elements (node : ASN1StructuredNode) : list ASN1StructuredNode :=
  match Node.value node with
  | Children nodes => nodes
  | LeafValue _ => []
  end.

Definition parseASN1Date (str : JS.jsstring) : Decoded :=
  let n := Z.of_nat (List.length str) in
  let endsWithZ := match rev str with z :: _ => z =? 90 | [] => false end in
  let field (a b : Z) := JS.parseInt (slice str a b) 10 in
  if (n =? 13) && endsWithZ then
    let year := field 0 2 in
    let fullYear :=
      if JS.lt year (JS.Num 50) then JS.add (JS.Num 2000) year
      else JS.add (JS.Num 1900) year in
    let month := JS.add (field 2 4) (JS.Num (-1)) in
    DDate (JS.Date_UTC fullYear month (field 4 6) (field 6 8) (field 8 10) (field 10 12))
  else if (15 <=? n) && endsWithZ then
    let year := field 0 4 in
    let month := JS.add (field 4 6) (JS.Num (-1)) in
    DDate (JS.Date_UTC year month (field 6 8) (field 8 10) (field 10 12) (field 12 14))
  else DString str.

Definition isTimeType (node : ASN1StructuredNode) : bool :=
  String.eqb (Tag.type (Node.tag node)) "UTCTime"
  || String.eqb (Tag.type (Node.tag node)) "GeneralizedTime".

(** The last step of [getDecoded] and [getDecodedOrForceString]. *)
Definition reparseTime (node : ASN1StructuredNode) (decoded : option Decoded)
  : option Decoded :=
  match decoded with
  | Some (DString s) => if isTimeType node then Some (parseASN1Date s) else decoded
  | _ => decoded
  end.

(** [getDecoded(node)]: [None] is [null]. *)
Definition getDecoded (node : maybeNode) : option Decoded :=
  match node with
  | None => None
  | Some n =>
      match Node.value n with
      | Children _ => None
      | LeafValue leaf => reparseTime n (Leaf.decoded leaf)
      end
  end.

Definition decodeIA5String (node : ASN1StructuredNode) : JS.jsstring :=
  match Node.value node with
  | Children _ => []
  | LeafValue leaf =>
      decodeAscii (hexPairs (list_ascii_of_string (Leaf.rawHex leaf)))
  end.

Definition getDecodedOrForceString (node : maybeNode) : option Decoded :=
  match node with
  | None => None
  | Some n =>
      match Node.value n with
      | Children _ => None
      | LeafValue leaf =>
          let decoded :=
            match Leaf.decoded leaf with
            | None =>
                if (0 <? stringLength (Leaf.rawHex leaf))
                then Some (DString (decodeIA5String n))
                else None
            | Some d => Some d
            end in
          reparseTime n decoded
      end
  end.

(** [getRawHex(node)]: [None] is [null]. *)
Definition getRawHex (node : maybeNode) : option string :=
  match node with
  | None => None
  | Some n =>
      match Node.value n with
      | Children _ => None
      | LeafValue leaf => Some (Leaf.rawHex leaf)
      end
  end.

(** [getRawHex(node) ?? ''] *)
Definition rawHexOrEmpty (node : maybeNode) : string :=
  match getRawHex node with Some h => h | None => "" end.

(** [makeField(value, node)]: reading [node.offset] of [undefined] throws. *)
Definition makeField {T} (value : T) (node : maybeNode) : completion (X509Field T) :=
  match node with
  | Some n => Return (Field.mk value (Node.offset n) (Node.fullHex n) (Node.tag n))
  | None => Raise TypeError
  end.

(** [getDecoded(node) ?? 'Unknown'] *)
Definition orUnknown (d : option Decoded) : Decoded :=
  match d with Some d => d | None => DString (JS.js "Unknown") end.

Record OidLabel := mkOidLabel {
  oid : Decoded;
  label : Label
}.

Definition oidLabel (oid : Decoded) : OidLabel := mkOidLabel oid (getOIDLabel oid).

(** [node.value] of a node that may be [undefined] *)
Definition valueOf (node : maybeNode) : completion NodeValue :=
  match node with
  | Some n => Return (Node.value n)
  | None => Raise TypeError
  end.

Definition extractOIDField (node : maybeNode) : completion (X509Field OidLabel) :=
  v <-- valueOf node ;;
  let oidNode := match v with Children seq => at_ seq 0 | LeafValue _ => None end in
  let oid := orUnknown (getDecoded oidNode) in
  makeField (oidLabel oid) oidNode.

(** [const [a, b] = value]: a leaf object is not iterable. *)
Definition destructure (v : NodeValue) : completion (list ASN1StructuredNode) :=
  match v with
  | Children nodes => Return nodes
  | LeafValue _ => Raise TypeError
  end.

Record NameField := mkNameField {
  name_oid : Decoded;
  name_label : Label;
  name_value : Decoded
}.

(** The [formatted] string of a name: the literal ['Invalid Name'], or the
    parts [`${label}=${value}`] that [join(', ')] assembles, kept as the
    values they print. *)
Inductive NameText :=
| InvalidName
| JoinedParts (parts : list (Label * Decoded)).

Record Name := mkName {
  formatted : X509Field NameText;
  fields : X509Field (list NameField)
}.

Definition extractRDN (rdn : ASN1StructuredNode) : completion NameField :=
  attrSeq <-- valueOf (at_ (elements rdn) 0) ;;
  items <-- destructure attrSeq ;;
  let typeNode := at_ items 0 in
  let valueNode := at_ items 1 in
  let oid := orUnknown (getDecoded typeNode) in
  let value := orUnknown (getDecodedOrForceString valueNode) in
  Return (mkNameField oid (getOIDLabel oid) value).

Definition extractName (seqNode : maybeNode) : completion Name :=
  v <-- valueOf seqNode ;;
  match v with
  | LeafValue _ =>
      f1 <-- makeField InvalidName seqNode ;;
      f2 <-- makeField [] seqNode ;;
      Return (mkName f1 f2)
  | Children rdns =>
      fields <-- mapM extractRDN rdns ;;
      let parts := map (fun f => (name_label f, name_value f)) fields in
      f1 <-- makeField (JoinedParts parts) seqNode ;;
      f2 <-- makeField fields seqNode ;;
      Return (mkName f1 f2)
  end.

(** *** Extension decoders *)

(** [parseASN1(buffer, { parseAll: true })], then [parsed.result], which in
    that mode is the array of nodes. *)
Definition parseAllNodes (buffer : list byte) : completion (list ASN1StructuredNode) :=
  parsed <-- parseASN1 buffer (Some true) None ;;
  match result parsed with
  | Nodes nodes => Return nodes
  | _ => Return []
  end.

(** [result.find(n => n.tag.type === "SEQUENCE")] *)
Definition findSequence (nodes : list ASN1StructuredNode) : maybeNode :=
  find (fun n => String.eqb (Tag.type (Node.tag n)) "SEQUENCE") nodes.

(** The common opening of the decoders that re-decode the value: the
    children of the first top-level SEQUENCE found in the raw hex of the
    node, [None] where the source returns its empty result. *)
Definition topSequence (node : maybeNode)
  : completion (option (list ASN1StructuredNode)) :=
  match getRawHex node with
  | None => Return None
  | Some "" => Return None
  | Some rawHex =>
      buffer <-- hexToArrayBuffer rawHex ;;
      nodes <-- parseAllNodes buffer ;;
      match findSequence nodes with
      | Some topSeq =>
          match Node.value topSeq with
          | Children nodes' => Return (Some nodes')
          | LeafValue _ => Return None
          end
      | None => Return None
      end
  end.

Definition parseASN1FromRawHex (node : maybeNode)
  : completion (list ASN1StructuredNode) :=
  r <-- topSequence node ;;
  Return (match r with Some nodes => nodes | None => [] end).

Definition isContext (node : ASN1StructuredNode) (number : Z) : bool :=
  match Tag.class (Node.tag node) with
  | CONTEXT_SPECIFIC => Tag.number (Node.tag node) =? number
  | _ => false
  end.

Definition isContextSpecific (node : ASN1StructuredNode) : bool :=
  match Tag.class (Node.tag node) with
  | CONTEXT_SPECIFIC => true
  | _ => false
  end.

(** The raw hex of a leaf when it is not empty
    ([!Array.isArray(node.value) && node.value?.rawHex]). *)
Definition nonEmptyRawHex (node : ASN1StructuredNode) : option string :=
  match Node.value node with
  | LeafValue leaf =>
      match Leaf.rawHex leaf with
      | "" => None
      | h => Some h
      end
  | Children _ => None
  end.

Definition decodeContextString (node : maybeNode) : completion JS.jsstring :=
  match node with
  | None => Raise TypeError
  | Some n =>
      Return (match nonEmptyRawHex n with
              | Some h => hexToAsciiSafe h
              | None => []
              end)
  end.

Definition decodeIPAddress (node : ASN1StructuredNode) : JS.jsstring :=
  match nonEmptyRawHex node with
  | Some hex =>
      if stringLength hex =? 8 then
        JS.js (String.concat "."
                 (map (fun i => JS.numberToString 10
                                  (JS.parseInt (JS.js (sliceString hex (i * 2) (i * 2 + 2))) 16))
                      [0; 1; 2; 3]))
      else if stringLength hex =? 32 then
        JS.js (String.concat ":"
                 (map (fun i => sliceString hex (i * 4) (i * 4 + 4))
                      [0; 1; 2; 3; 4; 5; 6; 7]))
      else []
  | None => []
  end.

Inductive GeneralNameType :=
| GN_email | GN_DNS | GN_URI | GN_IP | GN_directoryName | GN_registeredID
| GN_otherName
| GN_Unknown (number : Z).

(** The [value] of a general name: text; for a directory name the parts
    [`${type}=${value}`] that [join(', ')] assembles, kept as the values they
    print; for an other name the nodes that [JSON.stringify] renders. *)
Inductive GeneralNameValue :=
| GNText (s : JS.jsstring)
| GNDirectoryName (parts : list (Decoded * Decoded))
| GNOtherName (nodes : list ASN1StructuredNode).

Record GeneralName := mkGeneralName {
  gn_type : GeneralNameType;
  gn_value : GeneralNameValue
}.

Definition parseDirectoryName (node : ASN1StructuredNode)
  : completion GeneralNameValue :=
  buffer <-- hexToArrayBuffer (Node.fullHex node) ;;
  rdns <-- parseAllNodes buffer ;;
  Return (GNDirectoryName
            (map (fun rdn =>
                    let items := match at_ (elements rdn) 0 with
                                 | Some attr => elements attr
                                 | None => []
                                 end in
                    (orUnknown (getDecoded (at_ items 0)),
                     orUnknown (getDecoded (at_ items 1))))
                 rdns)).

(** [getDecoded(parsed.result)] on the array of nodes: the array has no
    [value], so reading [node.value.decoded] throws. *)
Definition parseRegisteredID (node : ASN1StructuredNode)
  : completion GeneralNameValue :=
  buffer <-- hexToArrayBuffer (Node.fullHex node) ;;
  parsed <-- parseASN1 buffer (Some true) None ;;
  match result parsed with
  | FirstNode n =>
      Return (GNText (match getDecoded n with Some (DString s) => s | _ => [] end))
  | _ => Raise TypeError
  end.

Definition parseOtherName (node : ASN1StructuredNode)
  : completion GeneralNameValue :=
  buffer <-- hexToArrayBuffer (Node.fullHex node) ;;
  nodes <-- parseAllNodes buffer ;;
  Return (GNOtherName nodes).

Definition decodeGeneralName (name : ASN1StructuredNode) : completion GeneralName :=
  let number := Tag.number (Node.tag name) in
  let text (type : GeneralNameType) :=
    s <-- decodeContextString (Some name) ;;
    Return (mkGeneralName type (GNText s)) in
  if number =? 1 then text GN_email
  else if number =? 2 then text GN_DNS
  else if number =? 6 then text GN_URI
  else if number =? 7 then Return (mkGeneralName GN_IP (GNText (decodeIPAddress name)))
  else if number =? 4 then
    v <-- parseDirectoryName name ;; Return (mkGeneralName GN_directoryName v)
  else if number =? 8 then
    v <-- parseRegisteredID name ;; Return (mkGeneralName GN_registeredID v)
  else if number =? 0 then
    v <-- parseOtherName name ;; Return (mkGeneralName GN_otherName v)
  else text (GN_Unknown number).

Definition parseSubjectAltName (node : maybeNode) : completion (list GeneralName) :=
  names <-- parseASN1FromRawHex node ;;
  mapM decodeGeneralName (filter isContextSpecific names).

(** [s.substring(0, n)] for a count [n] that may be [NaN]. *)
Definition substring0 (s : string) (n : JS.number) : string :=
  match n with
  | JS.Num k => sliceString s 0 (Z.max k 0)
  | JS.Infinity false => s
  | _ => ""
  end.

(** [a - b] where [a] is an integer. *)
Definition minus (a : Z) (b : JS.number) : JS.number :=
  match b with
  | JS.Num k => JS.Num (a - k)
  | JS.NaN => JS.NaN
  | JS.Infinity s => JS.Infinity (negb s)
  end.

(** [parseKeyUsage]: the record [usage], its keys in insertion order; the
    empty list is [{}]. *)
Definition parseKeyUsage (node : maybeNode) : list (string * bool) :=
  let rawHex := rawHexOrEmpty node in
  if negb (String.prefix "03" rawHex) then []
  else
    let unusedBits := JS.parseInt (JS.js (sliceString rawHex 4 6)) 16 in
    let bitsHex := sliceString rawHex 6 (stringLength rawHex) in
    let bitsBinary :=
      JS.padStart0 (stringLength bitsHex * 4)
        (JS.numberToString 2 (JS.parseInt (JS.js bitsHex) 16)) in
    let meaningfulBits :=
      substring0 bitsBinary (minus (stringLength bitsBinary) unusedBits) in
    map (fun '(bit, label) =>
           (label,
            match String.get (Z.to_nat bit) meaningfulBits with
            | Some c => Ascii.eqb c "1"
            | None => false
            end))
        KeyUsageLabels.

Record BasicConstraints := mkBasicConstraints {
  cA : option bool;
  pathLenConstraint : option Decoded
}.

Definition parseBasicConstraints (node : maybeNode) : completion BasicConstraints :=
  v <-- valueOf node ;;
  let seq :=
    match v with
    | Children (first :: _) => elements first
    | _ => []
    end in
  Return (mkBasicConstraints
            (match seq with
             | [] => None
             | _ => Some (match getDecoded (at_ seq 0) with
                          | Some d => truthy d
                          | None => false
                          end)
             end)
            (match seq with
             | _ :: _ :: _ => getDecoded (at_ seq 1)
             | _ => None
             end)).

(** [entry.value.find(f => ...)]: a leaf object has no [find]. *)
Definition findIn (v : NodeValue) (p : ASN1StructuredNode -> bool)
  : completion maybeNode :=
  match v with
  | Children nodes => Return (find p nodes)
  | LeafValue _ => Raise TypeError
  end.

Definition distributionPointURLs (entry : ASN1StructuredNode)
  : completion (list JS.jsstring) :=
  dpField <-- findIn (Node.value entry) (fun f => isContext f 0) ;;
  match dpField with
  | Some dp =>
      match at_ (elements dp) 0 with
      | Some inner =>
          Return
            (flat_map
               (fun name =>
                  if isContext name 6 then
                    match nonEmptyRawHex name with
                    | Some h =>
                        match hexToAsciiSafe h with
                        | [] => []
                        | url => [url]
                        end
                    | None => []
                    end
                  else [])
               (elements inner))
      | None => Return []
      end
  | None => Return []
  end.

Definition parseCRLDistributionPoints (node : maybeNode)
  : completion (list JS.jsstring) :=
  entries <-- parseASN1FromRawHex node ;;
  urls <-- mapM distributionPointURLs entries ;;
  Return (List.concat urls).

Record Qualifier := mkQualifier {
  policyQualifierId : OidLabel;
  qualifier : Decoded
}.

Record PolicyInformation := mkPolicyInformation {
  policyId : OidLabel;
  qualifiers : option (list Qualifier)
}.

(** The callback of [qualifiers.map]; [None] is the [null] that
    [filter(Boolean)] removes. *)
Definition parseQualifier (q : ASN1StructuredNode) : completion (option Qualifier) :=
  match Node.value q with
  | LeafValue _ => Return None
  | Children items =>
      let qualifierIdNode := at_ items 0 in
      let qualifierValueNode := at_ items 1 in
      let qualifierId := orUnknown (getDecoded qualifierIdNode) in
      let qualifierText :=
        match getDecoded qualifierValueNode with
        | Some d => d
        | None => DString []
        end in
      if truthy qualifierText
      then Return (Some (mkQualifier (oidLabel qualifierId) qualifierText))
      else
        match qualifierValueNode with
        | None => Raise TypeError
        | Some vn =>
            Return (Some (mkQualifier (oidLabel qualifierId)
                            (match nonEmptyRawHex vn with
                             | Some h => DString (hexToAsciiSafe h)
                             | None => qualifierText
                             end)))
        end
  end.

Definition parsePolicy (policyNode : ASN1StructuredNode)
  : completion (option PolicyInformation) :=
  match Node.value policyNode with
  | LeafValue _ => Return None
  | Children fields =>
      let policyId := orUnknown (getDecoded (at_ fields 0)) in
      match at_ fields 1 with
      | Some qualifiersNode =>
          match Node.value qualifiersNode with
          | Children qualifiers =>
              qs <-- mapM parseQualifier qualifiers ;;
              Return (Some (mkPolicyInformation (oidLabel policyId)
                              (Some (flat_map (fun q => match q with
                                                        | Some x => [x]
                                                        | None => []
                                                        end) qs))))
          | LeafValue _ =>
              Return (Some (mkPolicyInformation (oidLabel policyId) None))
          end
      | None => Return (Some (mkPolicyInformation (oidLabel policyId) None))
      end
  end.

Definition parseCertificatePolicies (node : maybeNode)
  : completion (list PolicyInformation) :=
  r <-- topSequence node ;;
  match r with
  | None => Return []
  | Some policies =>
      ps <-- mapM parsePolicy policies ;;
      Return (flat_map (fun p => match p with Some x => [x] | None => [] end) ps)
  end.

Record AuthorityKeyIdentifier := mkAuthorityKeyIdentifier {
  keyIdentifier : option string;
  authorityCertIssuer : option JS.jsstring;
  authorityCertSerialNumber : option string
}.

Definition authorityKeyField (result : AuthorityKeyIdentifier)
    (field : ASN1StructuredNode) : AuthorityKeyIdentifier :=
  if isContext field 0 then
    match nonEmptyRawHex field with
    | Some h =>
        mkAuthorityKeyIdentifier (Some (toUpperCase h))
          (authorityCertIssuer result) (authorityCertSerialNumber result)
    | None => result
    end
  else if isContext field 1 then
    mkAuthorityKeyIdentifier (keyIdentifier result)
      (Some (match getDecodedOrForceString (Some field) with
             | Some (DString s) => s
             | _ => []
             end))
      (authorityCertSerialNumber result)
  else if isContext field 2 then
    match nonEmptyRawHex field with
    | Some h =>
        mkAuthorityKeyIdentifier (keyIdentifier result)
          (authorityCertIssuer result) (Some (toUpperCase h))
    | None => result
    end
  else result.

Definition parseAuthorityKeyIdentifier (node : maybeNode)
  : completion AuthorityKeyIdentifier :=
  r <-- topSequence node ;;
  Return (fold_left authorityKeyField
            (match r with Some fields => fields | None => [] end)
            (mkAuthorityKeyIdentifier None None None)).

Definition parseExtendedKeyUsage (node : maybeNode) : completion (list OidLabel) :=
  r <-- topSequence node ;;
  Return (map (fun usageNode => oidLabel (orUnknown (getDecoded (Some usageNode))))
              (match r with Some usages => usages | None => [] end)).

Record AccessDescription := mkAccessDescription {
  method : OidLabel;
  location : JS.jsstring
}.

Definition parseAccessDescription (desc : ASN1StructuredNode)
  : completion AccessDescription :=
  items <-- destructure (Node.value desc) ;;
  let oid := orUnknown (getDecoded (at_ items 0)) in
  location <-- decodeContextString (at_ items 1) ;;
  Return (mkAccessDescription (oidLabel oid) location).

Definition parseAuthorityInfoAccess (node : maybeNode)
  : completion (list AccessDescription) :=
  entries <-- parseASN1FromRawHex node ;;
  mapM parseAccessDescription entries.

(** What [parseAnyASN1] returns. *)
Inductive AnyValue :=
| AnyList (items : list AnyValue)
| AnyLeaf (d : option Decoded)
| AnyNull.

Fixpoint parseAnyASN1 (node : ASN1StructuredNode) : AnyValue :=
  match node with
  | mkNode tag _ value _ _ =>
      match value with
      | Children nodes =>
          if String.eqb (Tag.type tag) "SEQUENCE"
          then AnyList (map parseAnyASN1 nodes)
          else AnyNull
      | LeafValue _ => AnyLeaf (getDecodedOrForceString (Some node))
      end
  end.

Record PDSLocation := mkPDSLocation {
  url : Decoded;
  language : option Decoded
}.

Definition hasType (type : string) (node : ASN1StructuredNode) : bool :=
  String.eqb (Tag.type (Node.tag node)) type.

Definition parseQcPDS (node : ASN1StructuredNode) : list PDSLocation :=
  flat_map
    (fun entry =>
       match Node.value entry with
       | LeafValue _ => []
       | Children elems =>
           let urlNode := find (hasType "IA5String") elems in
           let languageNode := find (hasType "PrintableString") elems in
           let url := match urlNode with
                      | Some n => getDecodedOrForceString (Some n)
                      | None => None
                      end in
           let language := match languageNode with
                           | Some n => getDecoded (Some n)
                           | None => None
                           end in
           match url with
           | Some u => if truthy u then [mkPDSLocation u language] else []
           | None => []
           end
       end)
    (elements node).

Definition parseQcType (node : ASN1StructuredNode) : list OidLabel :=
  flat_map
    (fun entry =>
       match getDecoded (Some entry) with
       | Some oid => if truthy oid then [oidLabel oid] else []
       | None => []
       end)
    (elements node).

Inductive StatementInfo :=
| InfoQcPDS (locations : list PDSLocation)
| InfoQcType (oids : list OidLabel)
| InfoList (items : list AnyValue)
| InfoAny (v : AnyValue).

Record QCStatement := mkQCStatement {
  statementId : OidLabel;
  statementInfo : option StatementInfo
}.

Definition isString (d : Decoded) (s : string) : bool :=
  match d with
  | DString t => JS.jsstring_eqb t (JS.js s)
  | _ => false
  end.

Definition parseSingleQCStatement (node : ASN1StructuredNode) : QCStatement :=
  match Node.value node with
  | Children [] =>
      mkQCStatement (mkOidLabel (DString (JS.js "Unknown")) (LabelText "Unknown")) None
  | v =>
      let fields := match v with Children nodes => nodes | LeafValue _ => [] end in
      let statementId := orUnknown (getDecoded (at_ fields 0)) in
      let statementInfo :=
        match at_ fields 1 with
        | Some infoNode =>
            Some
              (if isString statementId "0.4.0.1862.1.5" then InfoQcPDS (parseQcPDS infoNode)
               else if isString statementId "0.4.0.1862.1.6" then InfoQcType (parseQcType infoNode)
               else
                 match Node.value infoNode with
                 | Children nodes =>
                     if hasType "SEQUENCE" infoNode
                     then InfoList (map parseAnyASN1 nodes)
                     else InfoAny (parseAnyASN1 infoNode)
                 | LeafValue _ => InfoAny (parseAnyASN1 infoNode)
                 end)
        | None => None
        end in
      mkQCStatement (oidLabel statementId) statementInfo
  end.

Definition parseQCStatements (extensionNode : maybeNode)
  : completion (list QCStatement) :=
  r <-- topSequence extensionNode ;;
  Return (map parseSingleQCStatement
              (match r with Some statements => statements | None => [] end)).

(** What [parseKnownExtension] returns: the result of the decoder that the
    OID selects, or the raw hex of the value node. *)
Inductive ExtensionValue :=
| SubjectAltName (names : list GeneralName)
| KeyUsage (usage : list (string * bool))
| BasicConstraintsValue (bc : BasicConstraints)
| CRLDistributionPoints (distributionPoints : list JS.jsstring)
| CertificatePolicies (policies : list PolicyInformation)
| AuthorityKeyIdentifierValue (aki : AuthorityKeyIdentifier)
| ExtendedKeyUsage (usages : list OidLabel)
| AuthorityInfoAccess (accessDescriptions : list AccessDescription)
| QCStatements (statements : list QCStatement)
| RawHex (hex : string).

(** The OIDs [parseKnownExtension] dispatches on. *)
Definition knownExtensionOIDs : list string :=
  [ "2.5.29.17"; "2.5.29.15"; "2.5.29.19"; "2.5.29.31"; "2.5.29.32";
    "2.5.29.35"; "2.5.29.37"; "1.3.6.1.5.5.7.1.1"; "1.3.6.1.5.5.7.1.3" ].

Definition parseKnownExtension (oid : Decoded) (valueNode : maybeNode)
  : completion ExtensionValue :=
  if isString oid "2.5.29.17" then
    v <-- parseSubjectAltName valueNode ;; Return (SubjectAltName v)
  else if isString oid "2.5.29.15" then Return (KeyUsage (parseKeyUsage valueNode))
  else if isString oid "2.5.29.19" then
    v <-- parseBasicConstraints valueNode ;; Return (BasicConstraintsValue v)
  else if isString oid "2.5.29.31" then
    v <-- parseCRLDistributionPoints valueNode ;; Return (CRLDistributionPoints v)
  else if isString oid "2.5.29.32" then
    v <-- parseCertificatePolicies valueNode ;; Return (CertificatePolicies v)
  else if isString oid "2.5.29.35" then
    v <-- parseAuthorityKeyIdentifier valueNode ;; Return (AuthorityKeyIdentifierValue v)
  else if isString oid "2.5.29.37" then
    v <-- parseExtendedKeyUsage valueNode ;; Return (ExtendedKeyUsage v)
  else if isString oid "1.3.6.1.5.5.7.1.1" then
    v <-- parseAuthorityInfoAccess valueNode ;; Return (AuthorityInfoAccess v)
  else if isString oid "1.3.6.1.5.5.7.1.3" then
    v <-- parseQCStatements valueNode ;; Return (QCStatements v)
  else Return (RawHex (rawHexOrEmpty valueNode)).

(** *** [parseX509Certificate] *)

(** The value of [version]: [(getDecoded(versionInner) ?? 0) + 1].  For a
    decoded value that is neither absent, an integer nor a boolean the sum
    is kept as the operand it is applied to. *)
Inductive Version :=
| VersionNumber (n : Z)
| VersionPlusOne (d : Decoded).

Definition plusOne (d : option Decoded) : Version :=
  match d with
  | None => VersionNumber 1
  | Some (DInteger n) => VersionNumber (n + 1)
  | Some (DBoolean b) => VersionNumber ((if b then 1 else 0) + 1)
  | Some other => VersionPlusOne other
  end.

Record Extension := mkExtension {
  extnID : X509Field OidLabel;
  critical : X509Field bool;
  extnValue : X509Field ExtensionValue
}.

Record Validity := mkValidity {
  notBefore : X509Field Decoded;
  notAfter : X509Field Decoded
}.

Record SubjectPublicKeyInfo := mkSubjectPublicKeyInfo {
  algorithm : X509Field OidLabel;
  publicKey : X509Field string
}.

Record X509Certificate := mkX509Certificate {
  version : X509Field Version;
  serialNumber : X509Field string;
  signatureAlgorithm : X509Field OidLabel;
  issuer : Name;
  validity : Validity;
  subject : Name;
  subjectPublicKeyInfo : SubjectPublicKeyInfo;
  extensions : option (list Extension);
  signatureAlgorithmCert : X509Field OidLabel;
  signatureValue : X509Field string
}.

(** [array[array.length - 1]] *)
Definition lastOf (nodes : list ASN1StructuredNode) : maybeNode :=
  match nodes with
  | [] => None
  | _ => nth_error nodes (List.length nodes - 1)
  end.

(** The callback of [extnList.map]. *)
Definition parseExtension (ext : ASN1StructuredNode) : completion Extension :=
  let extFields := elements ext in
  let extnIDNode := at_ extFields 0 in
  let criticalNode :=
    if (List.length extFields =? 3)%nat then at_ extFields 1 else None in
  let valueNode := lastOf extFields in
  let oid := orUnknown (getDecoded extnIDNode) in
  let critical :=
    match criticalNode with
    | Some c => match getDecoded (Some c) with Some d => truthy d | None => false end
    | None => false
    end in
  parsedValue <-- parseKnownExtension oid valueNode ;;
  f1 <-- makeField (oidLabel oid) extnIDNode ;;
  f2 <-- makeField critical
           (match criticalNode with Some c => Some c | None => extnIDNode end) ;;
  f3 <-- makeField parsedValue valueNode ;;
  Return (mkExtension f1 f2 f3).

(** The [while (idx < tbs.length)] loop over the optional fields. *)
Fixpoint scanOptionalFields (rest : list ASN1StructuredNode)
    (extensions : option (list Extension)) : completion (option (list Extension)) :=
  match rest with
  | [] => Return extensions
  | optionalField :: rest' =>
      if isContext optionalField 3 then
        match elements optionalField with
        | first :: _ =>
            match Node.value first with
            | Children extnList =>
                if hasType "SEQUENCE" first then
                  exts <-- mapM parseExtension extnList ;;
                  scanOptionalFields rest' (Some exts)
                else scanOptionalFields rest' extensions
            | LeafValue _ => scanOptionalFields rest' extensions
            end
        | [] => scanOptionalFields rest' extensions
        end
      else scanOptionalFields rest' extensions
  end.

(** The test that opens [parseX509Certificate]:
    [asn1.tag.type !== 'SEQUENCE' || !Array.isArray(asn1.value)] is false. *)
Definition rootShapeOk (asn1 : ASN1StructuredNode) : bool :=
  String.eqb (Tag.type (Node.tag asn1)) "SEQUENCE" && isArray (Node.value asn1).

Definition invalidStructure : JSError := Error "Invalid X.509 Certificate structure".

(** [array[i].prop] for an element that must exist. *)
Definition defined (node : maybeNode) : completion ASN1StructuredNode :=
  match node with
  | Some n => Return n
  | None => Raise TypeError
  end.

Definition parseX509Certificate (asn1 : ASN1StructuredNode)
  : completion X509Certificate :=
  if negb (rootShapeOk asn1) then Raise invalidStructure
  else
    let top := elements asn1 in
    let tbsCertificate := at_ top 0 in
    let signatureAlgorithm := at_ top 1 in
    let signatureValue := at_ top 2 in
    tbsValue <-- valueOf tbsCertificate ;;
    let tbs := match tbsValue with Children nodes => nodes | LeafValue _ => [] end in
    first <-- defined (at_ tbs 0) ;;
    let '(version, idx) :=
      if isContext first 0
      then (plusOne (getDecoded (at_ (elements first) 0)), 1%nat)
      else (VersionNumber 1, 0%nat) in
    let serialNumberNode := at_ tbs idx in
    let signatureNode := at_ tbs (idx + 1) in
    let issuerNode := at_ tbs (idx + 2) in
    let validityNode := at_ tbs (idx + 3) in
    let subjectNode := at_ tbs (idx + 4) in
    let subjectPublicKeyInfoNode := at_ tbs (idx + 5) in
    extensions <-- scanOptionalFields (skipn (idx + 6) tbs) None ;;
    validityValue <-- valueOf validityNode ;;
    let validity := match validityValue with Children nodes => nodes | LeafValue _ => [] end in
    let notBeforeNode := at_ validity 0 in
    let notAfterNode := at_ validity 1 in
    spkiValue <-- valueOf subjectPublicKeyInfoNode ;;
    let spki := match spkiValue with Children nodes => nodes | LeafValue _ => [] end in
    let algorithmNode := at_ spki 0 in
    let publicKeyNode := at_ spki 1 in
    let orEmpty (d : option Decoded) := match d with Some x => x | None => DString [] end in
    fVersion <-- makeField version tbsCertificate ;;
    fSerial <-- makeField (rawHexOrEmpty serialNumberNode) serialNumberNode ;;
    fSignature <-- extractOIDField signatureNode ;;
    fIssuer <-- extractName issuerNode ;;
    fNotBefore <-- makeField (orEmpty (getDecoded notBeforeNode)) notBeforeNode ;;
    fNotAfter <-- makeField (orEmpty (getDecoded notAfterNode)) notAfterNode ;;
    fSubject <-- extractName subjectNode ;;
    fAlgorithm <-- extractOIDField algorithmNode ;;
    fPublicKey <-- makeField (rawHexOrEmpty publicKeyNode) publicKeyNode ;;
    fSignatureCert <-- extractOIDField signatureAlgorithm ;;
    fSignatureValue <-- makeField (rawHexOrEmpty signatureValue) signatureValue ;;
    Return (mkX509Certificate fVersion fSerial fSignature fIssuer
              (mkValidity fNotBefore fNotAfter) fSubject
              (mkSubjectPublicKeyInfo fAlgorithm fPublicKey)
              extensions fSignatureCert fSignatureValue).

(* ================================================================= *)
(** ** Notions used to state the properties of the decoder *)

(** A successful run starts inside the buffer, consumes at least the two
    bytes of the shortest header, and stops inside the buffer. *)
Definition advances (buffer : list byte) (rec : Cursor ASN1StructuredNode) : Prop :=
  forall o n o', rec o = Ok n o' -> 0 <= o /\ o + 2 <= o' <= byteLength buffer.

(** [parseElement] as [parse] calls it. *)
Definition element (buffer : list byte) : Cursor ASN1StructuredNode :=
  parseElement buffer (S (List.length buffer)).

(** [decodedRun buffer from nodes to]: starting at [from], the elements
    [nodes] are decoded one after the other, each starting inside the
    buffer, and the cursor is then at [to]. *)
Inductive decodedRun (buffer : list byte) : Z -> list ASN1StructuredNode -> Z -> Prop :=
| run_nil off : decodedRun buffer off [] off
| run_cons off node off' nodes off'' :
    off < byteLength buffer ->
    element buffer off = Ok node off' ->
    decodedRun buffer off' nodes off'' ->
    decodedRun buffer off (node :: nodes) off''.

(** The [result] of [parse] in parse-all mode. *)
Definition allResult (simplify : bool) (nodes : list ASN1StructuredNode) : ParseResult :=
  if simplify then SimpleNodes (map simplifyNode nodes) else Nodes nodes.

(** The unsigned big-endian value of a byte string. *)
Definition bigEndian (bytes : list byte) : Z :=
  fold_left (fun acc b => acc * 256 + u8 b) bytes 0.

(** The big-endian two's-complement value of the full byte string, the sign
    taken from the high bit of the first byte: what the specification asks of
    the INTEGER decoder. *)
Definition twosComplement (bytes : list byte) : Z :=
  match bytes with
  | [] => 0
  | b0 :: _ =>
      if 128 <=? u8 b0
      then bigEndian bytes - 2 ^ (8 * Z.of_nat (List.length bytes))
      else bigEndian bytes
  end.

(** [everyNode P node]: [P] holds of the node and of all the nodes below
    it. *)
Fixpoint everyNode (P : ASN1StructuredNode -> Prop) (node : ASN1StructuredNode) : Prop :=
  P node /\
  match node with
  | mkNode _ _ (Children nodes) _ _ =>
      (fix all (l : list ASN1StructuredNode) : Prop :=
         match l with
         | [] => True
         | child :: rest => everyNode P child /\ all rest
         end) nodes
  | mkNode _ _ (LeafValue _) _ _ => True
  end.


(** *** Definite-length TLV streams *)

(** An element as it is laid out in the stream: the bytes of its tag, the
    bytes of its length field, and either the content bytes of a primitive
    element or the elements that make the content of a constructed one. *)
Inductive TLV :=
| Primitive (tagBytes lengthBytes content : list byte)
| Constructed (tagBytes lengthBytes : list byte) (children : list TLV).

Fixpoint encode (t : TLV) : list byte :=
  match t with
  | Primitive tagBytes lengthBytes content => tagBytes ++ lengthBytes ++ content
  | Constructed tagBytes lengthBytes children =>
      tagBytes ++ lengthBytes ++ flat_map encode children
  end.

Definition contentOf (t : TLV) : list byte :=
  match t with
  | Primitive _ _ content => content
  | Constructed _ _ children => flat_map encode children
  end.

Definition len {A} (l : list A) : Z := Z.of_nat (List.length l).

(** Number of bytes of the tag and of the length field. *)
Definition headerLength (t : TLV) : Z :=
  match t with
  | Primitive tagBytes lengthBytes _ => len tagBytes + len lengthBytes
  | Constructed tagBytes lengthBytes _ => len tagBytes + len lengthBytes
  end.

(** The bytes that follow the first byte of a high tag number: base 128,
    the high bit set on every byte but the last. *)
Fixpoint continuation (rest : list byte) : bool :=
  match rest with
  | [] => false
  | [last] => u8 last <? 128
  | b :: rest' => (128 <=? u8 b) && continuation rest'
  end.

(** The tag bytes of an element with the given constructed bit: one byte
    whose low five bits are not all 1, or such a byte with all five set
    followed by the base-128 tag number. *)
Definition validTag (constructed : bool) (tagBytes : list byte) : bool :=
  match tagBytes with
  | [] => false
  | t :: rest =>
      Bool.eqb (Z.testbit (u8 t) 5) constructed
      && (if u8 t mod 32 =? 31 then continuation rest
          else match rest with [] => true | _ => false end)
  end.

(** A definite length field declaring [n] content bytes: the short form (one
    byte below 128), or the long form with one to four length bytes, big
    endian.  The decoder's length arithmetic is 32-bit and signed, so the
    declared length is kept below 2^31. *)
Definition validLength (lengthBytes : list byte) (n : Z) : bool :=
  match lengthBytes with
  | [] => false
  | l :: rest =>
      if u8 l <? 128 then
        match rest with [] => u8 l =? n | _ => false end
      else
        (u8 l =? 128 + len rest) && (1 <=? len rest) && (len rest <=? 4)
        && (bigEndian rest =? n) && (n <? 2 ^ 31)
  end.

(** A well-formed element: its length field declares exactly the number of
    content bytes, and the content of a constructed element is a sequence of
    well-formed elements. *)
Fixpoint valid (t : TLV) : bool :=
  match t with
  | Primitive tagBytes lengthBytes content =>
      validTag false tagBytes && validLength lengthBytes (len content)
  | Constructed tagBytes lengthBytes children =>
      validTag true tagBytes
      && validLength lengthBytes (len (flat_map encode children))
      && forallb valid children
  end.

(** Number of bytes a node spans, read off its [fullHex] (two hex digits
    per byte). *)
Definition span (node : ASN1StructuredNode) : Z :=
  Z.of_nat (String.length (Node.fullHex node)) / 2.

(** Header length of a node: its span less its declared length. *)
Definition headerOf (node : ASN1StructuredNode) : Z :=
  span node - Length.value (Node.length node).

(** [contiguous from nodes to]: the first node starts at [from], each node's
    [offset + header length + length.value] is the offset of the next one,
    and that of the last node is [to]. *)
Fixpoint contiguous (from : Z) (nodes : list ASN1StructuredNode) (to : Z) : Prop :=
  match nodes with
  | [] => from = to
  | node :: rest =>
      Node.offset node = from
      /\ contiguous (from + headerOf node + Length.value (Node.length node)) rest to
  end.

(** The children of a constructed node fill its content interval
    [[offset + header, offset + header + length.value)] with no gap and no
    overlap. *)
Definition childrenFill (node : ASN1StructuredNode) : Prop :=
  2 <= headerOf node /\ 0 <= Length.value (Node.length node) /\
  match Node.value node with
  | Children nodes =>
      contiguous (Node.offset node + headerOf node) nodes
        (Node.offset node + headerOf node + Length.value (Node.length node))
  | LeafValue _ => True
  end.


(** [decodedAs t off node]: [node] is at [off], declares the content length
    of [t], has the header length of [t], and the children of every
    constructed node in it fill their parent's content. *)
Definition decodedAs (t : TLV) (off : Z) (node : ASN1StructuredNode) : Prop :=
  Node.offset node = off
  /\ Length.value (Node.length node) = len (contentOf t)
  /\ headerOf node = headerLength t
  /\ everyNode childrenFill node.

(** [accounted buffer ts off nodes]: the elements [ts], laid out from [off]
    on, are decoded one by one into [nodes], each decoding consuming the
    header length plus the declared length of its element. *)
Fixpoint accounted (buffer : list byte) (ts : list TLV) (off : Z)
    (nodes : list ASN1StructuredNode) : Prop :=
  match ts, nodes with
  | [], [] => True
  | t :: ts', node :: nodes' =>
      element buffer off = Ok node (off + headerLength t + len (contentOf t))
      /\ decodedAs t off node
      /\ accounted buffer ts' (off + headerLength t + len (contentOf t)) nodes'
  | _, _ => False
  end.

(** [placed ts off nodes]: the nodes are those of the elements [ts] laid
    out one after the other from [off] on. *)
Fixpoint placed (ts : list TLV) (off : Z) (nodes : list ASN1StructuredNode) : Prop :=
  match ts, nodes with
  | [], [] => True
  | t :: ts', node :: nodes' =>
      decodedAs t off node /\ placed ts' (off + len (encode t)) nodes'
  | _, _ => False
  end.

(** With enough fuel for its size, an element is decoded wherever it lies
    in a buffer, and the cursor ends right behind it. *)
Definition elementDecodes (t : TLV) : Prop :=
  forall fuel pre suf,
    (List.length (encode t) < fuel)%nat ->
    exists node,
      parseElement (pre ++ encode t ++ suf) fuel (len pre)
      = Ok node (len pre + len (encode t))
      /\ decodedAs t (len pre) node.

(** *** How calls of the mapper end *)

(** The call returns or throws: the recursion bound of the model is not
    reached. *)
Definition halts {A} (c : completion A) : Prop := c <> Exhausted.

(** The call throws. *)
Definition throws {A} (c : completion A) : Prop := exists e, c = Raise e.


(** *** UTCTime strings *)

(** The number two decimal digits stand for. *)
Definition twoDigits (a b : Z) : Z := 10 * (a - 48) + (b - 48).




(** The bytes of an ASCII literal. *)
Definition asciiBytes (s : string) : list byte := list_byte_of_string s.

Definition bigEndianFrom (acc : Z) (bytes : list byte) : Z :=
  fold_left (fun a b => a * 256 + u8 b) bytes acc.

(** *** keyUsage bit strings *)

Definition bitChar (b : bool) : ascii := if b then "1"%char else "0"%char.

(** The [k] low bits of [v], most significant first. *)
Fixpoint bitString (k : nat) (v : Z) : string :=
  match k with
  | O => ""
  | S k' => String (bitChar (Z.testbit v (Z.of_nat k'))) (bitString k' v)
  end.

(** Bit [i] of the bit string of the data bytes, most significant bit first,
    once the unused bits are trimmed. *)
Definition keyUsageBit (unusedBits : Z) (data : list byte) (i : Z) : bool :=
  (i <? 8 * len data - unusedBits)
  && Z.testbit (bigEndian data) (8 * len data - 1 - i).

(** [k] characters 0. *)
Definition zeros (k : nat) : string := string_of_list_ascii (repeat "0"%char k).

(** The code unit of a hexadecimal digit. *)
Definition hexCode (d : Z) : Z := if d <? 10 then 48 + d else 87 + d.

(** What [parseDigits] has accumulated so far. *)
Definition accumulated (acc : option Z) : Z :=
  match acc with Some a => a | None => 0 end.
(* ================================================================= *)
(** ** Particular inputs *)

(** A constructed element whose four length bytes are all [ff]: the
    declared length is 4294967295, the buffer ends right after the length
    field. *)
Definition wrappedLength : list byte := [x30; x84; xff; xff; xff; xff].

(** The same length field on a primitive element. *)
Definition wrappedLengthPrimitive : list byte := [x04; x84; xff; xff; xff; xff].

(** The value of a basicConstraints extension with [cA = true] and no
    [pathLenConstraint]: the OCTET STRING [04 05] wrapping
    [SEQUENCE { BOOLEAN TRUE }] = [30 03 01 01 ff]. *)
Definition basicConstraintsCA : list byte := [x04; x05; x30; x03; x01; x01; xff].

(** The same with an empty SEQUENCE ([cA] absent). *)
Definition basicConstraintsEmpty : list byte := [x04; x02; x30; x00].

Definition firstNode (buffer : list byte) : maybeNode :=
  match parseASN1 buffer None None with
  | Return (mkParsed (Nodes (node :: _)) _) => Some node
  | _ => None
  end.

(** The value of a keyUsage extension: the OCTET STRING [04 0a] wrapping
    the BIT STRING [03 08 00 ff ff ff ff ff ff ff] (no unused bit, fifty-six
    bits, all of them 1). *)
Definition keyUsageAllOnes : list byte :=
  [x04; x0a; x03; x08; x00; xff; xff; xff; xff; xff; xff; xff].

(** Its data bytes. *)
Definition sevenOnes : list byte := [xff; xff; xff; xff; xff; xff; xff].

(** The example of the specification: [03 02 00 80]. *)
Definition keyUsageDigitalSignature : list byte := [x04; x04; x03; x02; x00; x80].

(** [parseASN1] on the DER bytes, then [parseX509Certificate] on the first
    node, as [loadX509FromBufferSync] does for a DER input. *)
Definition decodeCertificate (der : list byte) : completion X509Certificate :=
  match firstNode der with
  | Some root => parseX509Certificate root
  | None => Raise TypeError
  end.

(** A certificate (version 3, serial 01, issuer CN=ca, subject CN=leaf,
    validity 230101120000Z to 330101120000Z, an RSA key, no extensions) whose
    outer SEQUENCE has a fourth child, a NULL, after the signature value. *)
Definition certificateFourChildren : list byte :=
  [ x30; x81; x85; x30; x6d; xa0; x03; x02; x01; x02; x02; x01;
    x01; x30; x0d; x06; x09; x2a; x86; x48; x86; xf7; x0d; x01;
    x01; x0b; x05; x00; x30; x0d; x31; x0b; x30; x09; x06; x03;
    x55; x04; x03; x0c; x02; x63; x61; x30; x1e; x17; x0d; x32;
    x33; x30; x31; x30; x31; x31; x32; x30; x30; x30; x30; x5a;
    x17; x0d; x33; x33; x30; x31; x30; x31; x31; x32; x30; x30;
    x30; x30; x5a; x30; x0f; x31; x0d; x30; x0b; x06; x03; x55;
    x04; x03; x0c; x04; x6c; x65; x61; x66; x30; x14; x30; x0d;
    x06; x09; x2a; x86; x48; x86; xf7; x0d; x01; x01; x01; x05;
    x00; x03; x03; x00; x00; x01; x30; x0d; x06; x09; x2a; x86;
    x48; x86; xf7; x0d; x01; x01; x0b; x05; x00; x03; x03; x00;
    xaa; xbb; x05; x00 ].

(** The same certificate without its signature value: two children. *)
Definition certificateTwoChildren : list byte :=
  [ x30; x7e; x30; x6d; xa0; x03; x02; x01; x02; x02; x01; x01;
    x30; x0d; x06; x09; x2a; x86; x48; x86; xf7; x0d; x01; x01;
    x0b; x05; x00; x30; x0d; x31; x0b; x30; x09; x06; x03; x55;
    x04; x03; x0c; x02; x63; x61; x30; x1e; x17; x0d; x32; x33;
    x30; x31; x30; x31; x31; x32; x30; x30; x30; x30; x5a; x17;
    x0d; x33; x33; x30; x31; x30; x31; x31; x32; x30; x30; x30;
    x30; x5a; x30; x0f; x31; x0d; x30; x0b; x06; x03; x55; x04;
    x03; x0c; x04; x6c; x65; x61; x66; x30; x14; x30; x0d; x06;
    x09; x2a; x86; x48; x86; xf7; x0d; x01; x01; x01; x05; x00;
    x03; x03; x00; x00; x01; x30; x0d; x06; x09; x2a; x86; x48;
    x86; xf7; x0d; x01; x01; x0b; x05; x00 ].


(** The certificate with one extension of the unknown OID 1.2.3.4, of value
    [05 00]. *)
Definition certificateUnknownExtension : list byte :=
  [ x30; x81; x92; x30; x7c; xa0; x03; x02; x01; x02; x02; x01;
    x01; x30; x0d; x06; x09; x2a; x86; x48; x86; xf7; x0d; x01;
    x01; x0b; x05; x00; x30; x0d; x31; x0b; x30; x09; x06; x03;
    x55; x04; x03; x0c; x02; x63; x61; x30; x1e; x17; x0d; x32;
    x33; x30; x31; x30; x31; x31; x32; x30; x30; x30; x30; x5a;
    x17; x0d; x33; x33; x30; x31; x30; x31; x31; x32; x30; x30;
    x30; x30; x5a; x30; x0f; x31; x0d; x30; x0b; x06; x03; x55;
    x04; x03; x0c; x04; x6c; x65; x61; x66; x30; x14; x30; x0d;
    x06; x09; x2a; x86; x48; x86; xf7; x0d; x01; x01; x01; x05;
    x00; x03; x03; x00; x00; x01; xa3; x0d; x30; x0b; x30; x09;
    x06; x03; x2a; x03; x04; x04; x02; x05; x00; x30; x0d; x06;
    x09; x2a; x86; x48; x86; xf7; x0d; x01; x01; x0b; x05; x00;
    x03; x03; x00; xaa; xbb ].

(** The value of an extension holding a NULL: [04 02 05 00]. *)
Definition extensionValueNull : list byte := [x04; x02; x05; x00].





(** A constructed context-specific element of tag number 16 holding a NULL:
    [b0 02 05 00]. *)
Definition contextSixteen : list byte := [xb0; x02; x05; x00].

(* ================================================================= *)
(** ** Further definitions: what the theorems on the rest of the code are stated with *)

(** *** The TLV decoder *)

(** [lo <= node.offset < hi] *)
Definition within (lo hi : Z) (node : ASN1StructuredNode) : Prop :=
  lo <= Node.offset node < hi.

(** The class the two high bits of a tag byte stand for. *)
Definition classOfByte (b : Z) : ASN1TagClass :=
  nth (Z.to_nat (b / 64)) [UNIVERSAL; APPLICATION; CONTEXT_SPECIFIC; PRIVATE] UNIVERSAL.

(** The tag record of a node is read off the byte of the buffer at the
    offset of the node. *)
Definition tagOfFirstByte (buffer : list byte) (node : ASN1StructuredNode) : Prop :=
  exists b,
    nth_error buffer (Z.to_nat (Node.offset node)) = Some b
    /\ 0 <= Node.offset node
    /\ Tag.hex (Node.tag node) = hexByte (u8 b)
    /\ Tag.class (Node.tag node) = classOfByte (u8 b)
    /\ Tag.constructed (Node.tag node) = Z.testbit (u8 b) 5
    /\ isArray (Node.value node) = Z.testbit (u8 b) 5
    /\ (u8 b mod 32 <> 31 -> Tag.number (Node.tag node) = u8 b mod 32).

(** The hex dumps of a primitive node are those of the bytes it spans:
    [fullHex] of the whole element, [rawHex] of its last [length.value]
    bytes, after a header of at least two bytes. *)
Definition faithfulLeaf (buffer : list byte) (node : ASN1StructuredNode) : Prop :=
  match Node.value node with
  | Children _ => True
  | LeafValue leaf =>
      let start := Node.offset node in
      let stop := start + span node in
      let n := Length.value (Node.length node) in
      0 <= start /\ 0 <= n /\ start + 2 + n <= stop <= byteLength buffer
      /\ Node.fullHex node = bytesToHex (slice buffer start stop)
      /\ Leaf.rawHex leaf = bytesToHex (slice buffer (stop - n) stop)
      /\ stringLength (Leaf.rawHex leaf) = 2 * n
  end.

(** The number a run of base-128 digits stands for (the low seven bits of
    each byte, most significant first). *)
Definition base128From (acc : Z) (bytes : list byte) : Z :=
  fold_left (fun a b => a * 128 + u8 b mod 128) bytes acc.

Definition base128 (bytes : list byte) : Z := base128From 0 bytes.

(** An arc of an object identifier as OID content holds it: base-128 digits,
    the high bit set on every byte but the last, for a number below 2^31. *)
Definition arcBytes (bytes : list byte) : bool :=
  continuation bytes && (base128 bytes <? 2 ^ 31).

(** The pattern YYYYMMDDhhmm[ss]Z: twelve or fourteen decimal digits, then
    Z. *)
Definition isGeneralizedTimeForm (s : JS.jsstring) : bool :=
  ((List.length s =? 13) || (List.length s =? 15))%nat
  && match rev s with
     | z :: digits => (z =? 90) && forallb isDigit digits
     | [] => false
     end.

(** The instant [Date.UTC] gives for the fields of a string of that pattern,
    read by position; the seconds are 0 when absent. *)
Definition generalizedInstant (s : JS.jsstring) : JS.Date :=
  let d i := nth i s 0 in
  JS.Date_UTC
    (JS.Num (digitsValue (firstn 4 s)))
    (JS.Num (twoDigits (d 4%nat) (d 5%nat) - 1))
    (JS.Num (twoDigits (d 6%nat) (d 7%nat)))
    (JS.Num (twoDigits (d 8%nat) (d 9%nat)))
    (JS.Num (twoDigits (d 10%nat) (d 11%nat)))
    (JS.Num (if (List.length s =? 15)%nat then twoDigits (d 12%nat) (d 13%nat) else 0)).

(** The value object of a primitive node is the one [parseElement] builds
    from the tag number and from the content bytes, the last [length.value]
    bytes the node spans. *)
Definition decodedByNumber (buffer : list byte) (node : ASN1StructuredNode) : Prop :=
  match Node.value node with
  | Children _ => True
  | LeafValue leaf =>
      let stop := Node.offset node + span node in
      let n := Length.value (Node.length node) in
      leaf = decodeLeaf (Tag.number (Node.tag node)) (slice buffer (stop - n) stop)
  end.

(** The tag bytes and the length bytes of an element. *)
Definition headerBytes (t : TLV) : list byte :=
  match t with
  | Primitive tagBytes lengthBytes _ => tagBytes ++ lengthBytes
  | Constructed tagBytes lengthBytes _ => tagBytes ++ lengthBytes
  end.

(** *** The mapper *)


(** *** Loading a certificate from a buffer *)

(** How a call of the loader ends: as a call of the mapper does, or with the
    [DOMException] that [atob] throws. *)
Inductive Loaded (A : Type) :=
| LoadReturn (a : A)
| LoadThrow (e : JSError)
| LoadDOMException (name : string)
| LoadExhausted.
Arguments LoadReturn {A} a.
Arguments LoadThrow {A} e.
Arguments LoadDOMException {A} name.
Arguments LoadExhausted {A}.

Definition ofCompletion {A} (c : completion A) : Loaded A :=
  match c with
  | Return a => LoadReturn a
  | Raise e => LoadThrow e
  | Exhausted => LoadExhausted
  end.

Definition beginMarker : JS.jsstring := JS.js "-----BEGIN CERTIFICATE-----".
Definition endMarker : JS.jsstring := JS.js "-----END CERTIFICATE-----".

(** [s.includes(marker)] *)
Fixpoint includes (marker s : JS.jsstring) : bool :=
  startsWith marker s
  || match s with
     | [] => false
     | _ :: rest => includes marker rest
     end.

(** [([\s\S]+?)] before [marker]: the shortest run of one character or more
    after which [marker] stands. *)
Fixpoint lazyUntil (marker s : JS.jsstring) : option JS.jsstring :=
  match s with
  | [] => None
  | c :: rest =>
      if startsWith marker rest then Some [c]
      else match lazyUntil marker rest with
           | Some run => Some (c :: run)
           | None => None
           end
  end.

(** [pem.match(/-----BEGIN CERTIFICATE-----([\s\S]+?)-----END CERTIFICATE-----/)]:
    group 1 of the leftmost match. *)
Fixpoint matchPEM (s : JS.jsstring) : option JS.jsstring :=
  match (if startsWith beginMarker s
         then lazyUntil endMarker (skipn (List.length beginMarker) s)
         else None) with
  | Some run => Some run
  | None =>
      match s with
      | [] => None
      | _ :: rest => matchPEM rest
      end
  end.

(** The value of a character of the base64 alphabet. *)
Definition base64Value (c : Z) : option Z :=
  if (65 <=? c) && (c <=? 90) then Some (c - 65)
  else if (97 <=? c) && (c <=? 122) then Some (c - 71)
  else if (48 <=? c) && (c <=? 57) then Some (c + 4)
  else if c =? 43 then Some 62
  else if c =? 47 then Some 63
  else None.

Fixpoint base64Values (s : JS.jsstring) : option (list Z) :=
  match s with
  | [] => Some []
  | c :: rest =>
      match base64Value c, base64Values rest with
      | Some v, Some vs => Some (v :: vs)
      | _, _ => None
      end
  end.

(** Six bits a character, eight bits a byte; the bits left over at the end
    (four after two characters, two after three) are discarded. *)
Fixpoint base64Bytes (vs : list Z) : list Z :=
  match vs with
  | v1 :: v2 :: v3 :: v4 :: rest =>
      (v1 * 4 + v2 / 16) :: (v2 mod 16 * 16 + v3 / 4) :: (v3 mod 4 * 64 + v4)
      :: base64Bytes rest
  | [v1; v2; v3] => [v1 * 4 + v2 / 16; v2 mod 16 * 16 + v3 / 4]
  | [v1; v2] => [v1 * 4 + v2 / 16]
  | _ => []
  end.

Definition isAsciiWhitespace (c : Z) : bool :=
  (c =? 9) || (c =? 10) || (c =? 12) || (c =? 13) || (c =? 32).

(** One or two [=] at the end are removed. *)
Definition stripPadding (data : JS.jsstring) : JS.jsstring :=
  match rev data with
  | c1 :: r =>
      if c1 =? 61 then
        match r with
        | c2 :: r' => if c2 =? 61 then rev r' else rev r
        | [] => []
        end
      else data
  | [] => data
  end.

(** [atob(data)] (the forgiving base64 decoding of the HTML standard): the
    character codes of the binary string, [None] when it throws. *)
Definition atob (data : JS.jsstring) : option (list Z) :=
  let data1 := filter (fun c => negb (isAsciiWhitespace c)) data in
  let data2 :=
    if Z.of_nat (List.length data1) mod 4 =? 0 then stripPadding data1 else data1 in
  if Z.of_nat (List.length data2) mod 4 =? 1 then None
  else
    match base64Values data2 with
    | Some vs => Some (base64Bytes vs)
    | None => None
    end.

Definition decodePEMtoDER (pem : JS.jsstring) : Loaded (list byte) :=
  match matchPEM pem with
  | None | Some [] => LoadThrow (Error "Invalid PEM format")
  | Some run =>
      let base64 := filter (fun c => negb (JS.isWhiteSpace c)) run in
      match atob base64 with
      | Some binaryString => LoadReturn (map (fun c => toUint8 (JS.Num c)) binaryString)
      | None => LoadDOMException "InvalidCharacterError"
      end
  end.

(** [loadX509FromBufferSync] from [parseASN1] on: the first node of the
    result is the root. *)
Definition loadRoot (derData : list byte) : Loaded X509Certificate :=
  match parseAllNodes derData with
  | Return [] => LoadThrow (Error "Parsed ASN.1 array is empty")
  | Return (asn1Root :: _) =>
      let type := Tag.type (Node.tag asn1Root) in
      if String.eqb type "SEQUENCE"
      then ofCompletion (parseX509Certificate asn1Root)
      else LoadThrow (Error ("Expected ASN.1 SEQUENCE at root, got: " ++ type))
  | Raise e => LoadThrow e
  | Exhausted => LoadExhausted
  end.

(** [bufferToUtf8] *)
Definition bufferToUtf8 (buffer : list byte) : JS.jsstring := decodeUtf8 buffer.

Definition loadX509FromBufferSync (input : list byte) : Loaded X509Certificate :=
  match input with
  | [] => LoadThrow (Error "Input buffer is empty")
  | _ =>
      let pemString := bufferToUtf8 input in
      if includes beginMarker pemString then
        match decodePEMtoDER pemString with
        | LoadReturn derData => loadRoot derData
        | LoadThrow e => LoadThrow e
        | LoadDOMException name => LoadDOMException name
        | LoadExhausted => LoadExhausted
        end
      else loadRoot input
  end.

(** The six-bit digits of [btoa]. *)
Fixpoint sextets (bytes : list byte) : list Z :=
  match bytes with
  | [] => []
  | [a] =>
      let x := u8 a in
      [x / 4; x mod 4 * 16]
  | [a; b] =>
      let x := u8 a in
      let y := u8 b in
      [x / 4; x mod 4 * 16 + y / 16; y mod 16 * 4]
  | a :: b :: c :: rest =>
      let x := u8 a in
      let y := u8 b in
      let z := u8 c in
      x / 4 :: (x mod 4 * 16 + y / 16) :: (y mod 16 * 4 + z / 64) :: z mod 64
      :: sextets rest
  end.

(** The code unit of a base64 digit. *)
Definition code64 (v : Z) : Z := JS.codeUnit (base64Char v).

(** The padding [btoa] ends with. *)
Definition padding (bytes : list byte) : JS.jsstring :=
  match (List.length bytes mod 3)%nat with
  | 1%nat => [61; 61]
  | 2%nat => [61]
  | _ => []
  end.

(** *** Loading every certificate of a buffer *)

Definition loadThen {A B} (c : Loaded A) (k : A -> Loaded B) : Loaded B :=
  match c with
  | LoadReturn a => k a
  | LoadThrow e => LoadThrow e
  | LoadDOMException name => LoadDOMException name
  | LoadExhausted => LoadExhausted
  end.

(** [for (const x of xs) { certificates.push(f(x)) }] *)
Fixpoint pushEach {A B} (f : A -> Loaded B) (xs : list A) : Loaded (list B) :=
  match xs with
  | [] => LoadReturn []
  | x :: rest =>
      loadThen (f x) (fun b =>
      loadThen (pushEach f rest) (fun bs => LoadReturn (b :: bs)))
  end.

(** [pemString.match(/-----BEGIN CERTIFICATE-----[\s\S]+?-----END CERTIFICATE-----/g)]:
    the matches from left to right, the search for the next one starting
    where the last one ended; [skip] counts the characters of the last match
    that are still to pass. *)
Fixpoint matchAllPEM (skip : nat) (s : JS.jsstring) : list JS.jsstring :=
  match s with
  | [] => []
  | _ :: rest =>
      match skip with
      | S k => matchAllPEM k rest
      | O =>
          match (if startsWith beginMarker s
                 then lazyUntil endMarker (skipn (List.length beginMarker) s)
                 else None) with
          | Some run =>
              (beginMarker ++ run ++ endMarker)%list
              :: matchAllPEM (List.length beginMarker + List.length run
                              + List.length endMarker - 1) rest
          | None => matchAllPEM 0 rest
          end
      end
  end.

(** [loadX509AllFromBufferSync] from [parseASN1] on, for one certificate:
    the first node of the result is the root, and [message] is the text of
    the error for a root that is missing or not a SEQUENCE. *)
Definition loadRootOfAll (message : string) (derData : list byte)
  : Loaded X509Certificate :=
  match parseAllNodes derData with
  | Return [] => LoadThrow (Error message)
  | Return (asn1Root :: _) =>
      if String.eqb (Tag.type (Node.tag asn1Root)) "SEQUENCE"
      then ofCompletion (parseX509Certificate asn1Root)
      else LoadThrow (Error message)
  | Raise e => LoadThrow e
  | Exhausted => LoadExhausted
  end.

Definition loadX509AllFromBufferSync (input : list byte)
  : Loaded (list X509Certificate) :=
  match input with
  | [] => LoadThrow (Error "Input buffer is empty")
  | _ =>
      let pemString := bufferToUtf8 input in
      loadThen
        (if includes beginMarker pemString then
           match matchAllPEM 0 pemString with
           | [] => LoadThrow (Error "No PEM certificates found in input")
           | matches =>
               pushEach
                 (fun pem =>
                    loadThen (decodePEMtoDER pem)
                      (loadRootOfAll "Invalid ASN.1 root node in one of the certificates"))
                 matches
           end
         else
           loadThen (loadRootOfAll "Invalid ASN.1 root node" input)
             (fun certificate => LoadReturn [certificate]))
        (fun certificates =>
           match certificates with
           | [] => LoadThrow (Error "No valid X.509 certificates found")
           | _ => LoadReturn certificates
           end)
  end.

(** A PEM file: blocks, each made of the two markers around a body and
    followed by a separator. *)
Definition pemText (blocks : list (JS.jsstring * JS.jsstring)) : JS.jsstring :=
  flat_map (fun '(body, separator) => beginMarker ++ body ++ endMarker ++ separator)%list
    blocks.

(** The body [body] holds the base64 text of [der], and neither it nor the
    separator holds a hyphen. *)
Definition armours (block : JS.jsstring * JS.jsstring) (der : list byte) : Prop :=
  let '(body, separator) := block in
  body <> []
  /\ Forall (fun c => c <> 45) body
  /\ Forall (fun c => c <> 45) separator
  /\ filter (fun c => negb (JS.isWhiteSpace c)) body = JS.js (btoa der).

(** *** A decoded tree against the element it was decoded from *)

Definition tagBytesOf (t : TLV) : list byte :=
  match t with
  | Primitive tagBytes _ _ => tagBytes
  | Constructed tagBytes _ _ => tagBytes
  end.

(** The tag record of an element that starts with the given tag bytes. *)
Definition tagOf (tagBytes : list byte) (tag : Tag.t) : Prop :=
  match tagBytes with
  | [] => False
  | t :: _ =>
      Tag.hex tag = hexByte (u8 t)
      /\ Tag.class tag = classOfByte (u8 t)
      /\ Tag.constructed tag = Z.testbit (u8 t) 5
      /\ Tag.type tag = tagToType (Tag.number tag)
      /\ (u8 t mod 32 <> 31 -> Tag.number tag = u8 t mod 32)
  end.

(** [mirrors t off node]: [node] is the tree of the element [t] laid out at
    [off]: its offset, tag record, declared length and hex dump are those of
    [t]; the value of a primitive element is the value object built from its
    tag number and its content, and the value of a constructed one is the
    array of the trees of its children, in order, each at the offset where
    its bytes start. *)
Fixpoint mirrors (t : TLV) (off : Z) (node : ASN1StructuredNode) {struct t} : Prop :=
  Node.offset node = off
  /\ tagOf (tagBytesOf t) (Node.tag node)
  /\ Length.value (Node.length node) = len (contentOf t)
  /\ Node.fullHex node = bytesToHex (encode t)
  /\ match t with
     | Primitive _ _ content =>
         Node.value node = LeafValue (decodeLeaf (Tag.number (Node.tag node)) content)
     | Constructed tagBytes lengthBytes children =>
         exists nodes,
           Node.value node = Children nodes
           /\ (fix all (ts : list TLV) (o : Z) (ns : list ASN1StructuredNode) : Prop :=
                 match ts, ns with
                 | [], [] => True
                 | t' :: ts', n :: ns' =>
                     mirrors t' o n /\ all ts' (o + len (encode t')) ns'
                 | _, _ => False
                 end) children (off + len tagBytes + len lengthBytes) nodes
     end.

(** The same for elements laid out one after the other from [off] on. *)
Fixpoint mirrorsAll (ts : list TLV) (off : Z) (nodes : list ASN1StructuredNode) : Prop :=
  match ts, nodes with
  | [], [] => True
  | t :: ts', node :: nodes' =>
      mirrors t off node /\ mirrorsAll ts' (off + len (encode t)) nodes'
  | _, _ => False
  end.

Definition isConstructed (t : TLV) : bool :=
  match t with
  | Constructed _ _ _ => true
  | Primitive _ _ _ => false
  end.

(** The part [parseDirectoryName] prints for a relative distinguished name
    it could not read: "Unknown=Unknown". *)
Definition unknownPart : Decoded * Decoded :=
  (DString (JS.js "Unknown"), DString (JS.js "Unknown")).

(** An OBJECT IDENTIFIER element of the given length bytes and content. *)
Definition oidElement (item : list byte * list byte) : TLV :=
  Primitive [x06] (fst item) (snd item).

(** The general names whose value is text. *)
Inductive TextName := rfc822Name | dNSName | uniformResourceIdentifier.

(** Their tag bytes: context-specific, primitive, of number 1, 2 and 6. *)
Definition textNameTag (kind : TextName) : byte :=
  match kind with
  | rfc822Name => x81
  | dNSName => x82
  | uniformResourceIdentifier => x86
  end.

(** The type [decodeGeneralName] gives them. *)
Definition textNameType (kind : TextName) : GeneralNameType :=
  match kind with
  | rfc822Name => GN_email
  | dNSName => GN_DNS
  | uniformResourceIdentifier => GN_URI
  end.

(** A general name of such a kind with the given length bytes and content. *)
Definition textNameElement (item : TextName * list byte * list byte) : TLV :=
  Primitive [textNameTag (fst (fst item))] (snd (fst item)) (snd item).

(** What decoding gives for a well-formed element, wherever it lies. *)
Definition decodesToMirror (t : TLV) : Prop :=
  forall fuel pre suf node stop,
    parseElement (pre ++ encode t ++ suf) fuel (len pre) = Ok node stop ->
    mirrors t (len pre) node /\ stop = len pre + len (encode t).

(** *** Further particular inputs *)

(** The bytes of the two elements of [sampleStream]:
    [30 06 02 01 05 04 01 ff 05 00]. *)
Definition sampleBytes : list byte :=
  [x30; x06; x02; x01; x05; x04; x01; xff; x05; x00].

(** A primitive element of tag number 128, written in the high-tag-number
    form, with no content: [1f 81 00 00]. *)
Definition highTagElement : list byte := [x1f; x81; x00; x00].

(** The arcs 840 and 113549 in base 128. *)
Definition sampleArcs : list (list byte) := [[x86; x48]; [x86; xf7; x0d]].


(** The name [CN=ca]: [30 0d 31 0b 30 09 06 03 55 04 03 0c 02 63 61]. *)
Definition nameCA : list byte :=
  [x30; x0d; x31; x0b; x30; x09; x06; x03; x55; x04; x03; x0c; x02; x63; x61].

(** The general names [dNSName "a"] and [iPAddress 192.168.0.1]. *)
Definition dnsNameA : list byte := [x82; x01; x61].

Definition ipAddressName : list byte := [x87; x04; xc0; xa8; x00; x01].

(** The tag record of an IA5String. *)
Definition ia5Tag : Tag.t := Tag.mk 22 "16" UNIVERSAL false "IA5String".

(** A PEM file of one certificate: the marker lines around the base64 text,
    each line ended by a line feed. *)
Definition armoured (der : list byte) : list byte :=
  (asciiBytes "-----BEGIN CERTIFICATE-----" ++ [x0a]
   ++ asciiBytes (btoa der) ++ [x0a]
   ++ asciiBytes "-----END CERTIFICATE-----" ++ [x0a])%list.

(** The body of that file: what stands between the two markers. *)
Definition armouredBody (der : list byte) : JS.jsstring :=
  (10 :: JS.js (btoa der) ++ [10])%list.

(** The first element of [sampleStream], and its bytes with the last one
    missing. *)
Definition sampleSequence : TLV :=
  Constructed [x30] [x06]
    [Primitive [x02] [x01] [x05]; Primitive [x04] [x01] [xff]].

Definition sampleSequenceCut : list byte := [x30; x06; x02; x01; x05; x04; x01].

(** A PEM file of two certificates. *)
Definition chain : list byte :=
  (armoured certificateFourChildren ++ armoured certificateUnknownExtension)%list.

Definition chainBlocks : list (JS.jsstring * JS.jsstring) :=
  [ (armouredBody certificateFourChildren, [10]);
    (armouredBody certificateUnknownExtension, [10]) ].

(** The value of an extendedKeyUsage extension that holds serverAuth
    (1.3.6.1.5.5.7.3.1): [04 0c 30 0a 06 08 2b 06 01 05 05 07 03 01]. *)
Definition extendedKeyUsageServerAuth : list byte :=
  [x04; x0c; x30; x0a; x06; x08; x2b; x06; x01; x05; x05; x07; x03; x01].

Definition serverAuthItems : list (list byte * list byte) :=
  [([x08], [x2b; x06; x01; x05; x05; x07; x03; x01])].

(** The value of a subjectAltName extension that holds the DNS name "a" and
    the URI "h://": [04 0b 30 09 82 01 61 86 04 68 3a 2f 2f]. *)
Definition subjectAltNameTwoNames : list byte :=
  [x04; x0b; x30; x09; x82; x01; x61; x86; x04; x68; x3a; x2f; x2f].

Definition twoNamesItems : list (TextName * list byte * list byte) :=
  [(dNSName, [x01], [x61]); (uniformResourceIdentifier, [x04], [x68; x3a; x2f; x2f])].

(** The general name [directoryName CN=ca]: [a4 0f] around [nameCA]. *)
Definition directoryNameCA : list byte := (xa4 :: x0f :: nameCA)%list.

(** The relative distinguished names of [nameCA]. *)
Definition rdnsCA : list TLV :=
  [Constructed [x31] [x0b]
     [Constructed [x30] [x09]
        [Primitive [x06] [x03] [x55; x04; x03]; Primitive [x0c] [x02] [x63; x61]]]].


(* ================================================================= *)
(** ** Properties of the TLV decoder *)

Lemma u8_range (b : byte) : 0 <= u8 b < 256.
Proof. unfold u8. pose proof (Byte.to_N_bounded b). lia. Qed.

Lemma band_128_byte (b : byte) : (JS.band (u8 b) 128 =? 0) = (u8 b <? 128).
Proof. destruct b; reflexivity. Qed.

Lemma band_127_byte (b : byte) : JS.band (u8 b) 127 = u8 b mod 128.
Proof. destruct b; reflexivity. Qed.

Lemma band_31_byte (b : byte) : JS.band (u8 b) 31 = u8 b mod 32.
Proof. destruct b; reflexivity. Qed.

Lemma band_32_byte (b : byte) : negb (JS.band (u8 b) 32 =? 0) = Z.testbit (u8 b) 5.
Proof. destruct b; reflexivity. Qed.

Section CursorFacts.

Variable buffer : list byte.

Local Abbreviation len := (byteLength buffer).

Lemma byteLength_nonneg : 0 <= len.
Proof. unfold byteLength. lia. Qed.

Lemma readByte_Ok off v off' :
  readByte buffer off = Ok v off' ->
  0 <= off < len /\ off' = off + 1 /\
  exists b, nth_error buffer (Z.to_nat off) = Some b /\ v = u8 b.
Proof.
  unfold readByte.
  destruct ((0 <=? off) && (off <? len)) eqn:E; [|discriminate].
  destruct (nth_error buffer (Z.to_nat off)) eqn:N; [|discriminate].
  intros H; inversion H; subst.
  apply andb_true_iff in E. destruct E as [E1 E2].
  apply Z.leb_le in E1. apply Z.ltb_lt in E2.
  repeat split; try lia. eauto.
Qed.

Lemma readByte_fuel off : readByte buffer off <> OutOfFuel.
Proof.
  unfold readByte.
  destruct ((0 <=? off) && (off <? len)); [|discriminate].
  destruct (nth_error buffer (Z.to_nat off)); discriminate.
Qed.

Lemma readByte_in off :
  0 <= off < len ->
  exists b, nth_error buffer (Z.to_nat off) = Some b /\
            readByte buffer off = Ok (u8 b) (off + 1).
Proof.
  intros H. unfold readByte.
  replace ((0 <=? off) && (off <? len)) with true
    by (symmetry; apply andb_true_iff; split; [apply Z.leb_le | apply Z.ltb_lt]; lia).
  destruct (nth_error buffer (Z.to_nat off)) eqn:N; eauto.
  apply nth_error_None in N. unfold byteLength in H. lia.
Qed.

Lemma readLengthBytes_Ok n acc off v off' :
  readLengthBytes buffer n acc off = Ok v off' ->
  off' = off + Z.of_nat n /\ (n <> O -> 0 <= off /\ off' <= len).
Proof.
  revert acc off. induction n as [|n IH]; intros acc off; simpl.
  - unfold ret. intros H; inversion H; subst. split; [lia|congruence].
  - unfold bind. destruct (readByte buffer off) as [b o|e o|] eqn:R; try discriminate.
    apply readByte_Ok in R. destruct R as (R1 & -> & _).
    intros H. apply IH in H. destruct H as [-> H].
    split; [lia|]. intros _. destruct n; [lia|].
    destruct H as [_ H]; [congruence|]. lia.
Qed.

Lemma readLengthBytes_fuel n acc off : readLengthBytes buffer n acc off <> OutOfFuel.
Proof.
  revert acc off. induction n as [|n IH]; intros acc off; simpl.
  - discriminate.
  - unfold bind. destruct (readByte buffer off) eqn:R; try discriminate.
    + apply IH.
    + exfalso. eapply readByte_fuel; eauto.
Qed.

Lemma readLength_Ok off v off' :
  readLength buffer off = Ok v off' -> 0 <= off /\ off + 1 <= off' <= len.
Proof.
  unfold readLength, bind.
  destruct (readByte buffer off) as [b o|e o|] eqn:R; try discriminate.
  apply readByte_Ok in R. destruct R as (R1 & -> & _).
  destruct (JS.band b 128 =? 0).
  - unfold ret. intros H; inversion H; subst. lia.
  - unfold position.
    destruct ((JS.band b 127 =? 0) || (4 <? JS.band b 127)) eqn:E1; [discriminate|].
    destruct (len <? off + 1 + JS.band b 127) eqn:E2; [discriminate|].
    intros H. apply readLengthBytes_Ok in H. destruct H as [-> _].
    apply orb_false_iff in E1. destruct E1 as [E1 E3].
    apply Z.eqb_neq in E1. apply Z.ltb_ge in E3. apply Z.ltb_ge in E2.
    assert (0 <= JS.band b 127) by (unfold JS.band; apply Z.land_nonneg; right; vm_compute; discriminate).
    rewrite Z2Nat.id by lia. lia.
Qed.

Lemma readLength_fuel off : readLength buffer off <> OutOfFuel.
Proof.
  unfold readLength, bind.
  destruct (readByte buffer off) as [b o|e o|] eqn:R; try discriminate.
  - destruct (JS.band b 128 =? 0); [discriminate|].
    unfold position.
    destruct ((JS.band b 127 =? 0) || (4 <? JS.band b 127)); [discriminate|].
    destruct (len <? o + JS.band b 127); [discriminate|].
    apply readLengthBytes_fuel.
  - exfalso. eapply readByte_fuel; eauto.
Qed.

Lemma tagNumberLoop_Ok rest tn off v off' :
  tagNumberLoop rest tn off = Ok v off' ->
  off + 1 <= off' <= off + Z.of_nat (List.length rest).
Proof.
  revert tn off. induction rest as [|b rest IH]; intros tn off; simpl; [discriminate|].
  destruct (JS.band (u8 b) 128 =? 0).
  - intros H; inversion H; subst. lia.
  - intros H. apply IH in H. lia.
Qed.

Lemma tagNumberLoop_fuel rest tn off : tagNumberLoop rest tn off <> OutOfFuel.
Proof.
  revert tn off. induction rest as [|b rest IH]; intros tn off; simpl; [discriminate|].
  destruct (JS.band (u8 b) 128 =? 0); [discriminate|apply IH].
Qed.

Lemma readTagNumber_Ok tagByte off v off' :
  0 <= off <= len ->
  readTagNumber buffer tagByte off = Ok v off' -> off <= off' <= len.
Proof.
  intros Hoff. unfold readTagNumber.
  destruct (JS.band tagByte 31 =? 31).
  - intros H. apply tagNumberLoop_Ok in H.
    rewrite length_skipn in H. unfold byteLength in *. lia.
  - unfold ret. intros H; inversion H; subst. lia.
Qed.

Lemma readTagNumber_fuel tagByte off : readTagNumber buffer tagByte off <> OutOfFuel.
Proof.
  unfold readTagNumber. destruct (JS.band tagByte 31 =? 31).
  - apply tagNumberLoop_fuel.
  - discriminate.
Qed.

Lemma readBytes_Ok n off v off' :
  readBytes buffer n off = Ok v off' ->
  0 <= n /\ 0 <= off /\ off' = off + n /\ off' <= len /\
  v = firstn (Z.to_nat n) (skipn (Z.to_nat off) buffer).
Proof.
  unfold readBytes.
  destruct ((n <? 0) || (off <? 0) || (len <? off + n)) eqn:E; [discriminate|].
  apply orb_false_iff in E. destruct E as [E E3].
  apply orb_false_iff in E. destruct E as [E1 E2].
  apply Z.ltb_ge in E1, E2, E3.
  intros H; inversion H; subst. repeat split; lia.
Qed.

(** What a successful run of the element body went through. *)
Lemma parseElementBody_Ok rec fuel off node off' :
  parseElementBody buffer rec fuel off = Ok node off' ->
  exists tagByte o1 tagNumber o2 lengthValue o3,
    readByte buffer off = Ok tagByte o1 /\
    readTagNumber buffer tagByte o1 = Ok tagNumber o2 /\
    readLength buffer o2 = Ok lengthValue o3 /\
    o3 + lengthValue <= len /\
    let tag := Tag.mk tagNumber (hexByte tagByte) (getTagClass tagByte)
                 (negb (JS.band tagByte 32 =? 0)) (tagToType tagNumber) in
    let length := Length.mk lengthValue (bytesToHex (slice buffer o2 o3)) in
    if negb (JS.band tagByte 32 =? 0) then
      exists value,
        parseChildren rec fuel (o3 + lengthValue) [] o3 = Ok value off' /\
        node = mkNode tag length (Children value) off
                 (bytesToHex (slice buffer off (o3 + lengthValue)))
    else
      exists valueBytes,
        readBytes buffer lengthValue o3 = Ok valueBytes off' /\
        node = mkNode tag length (LeafValue (decodeLeaf tagNumber valueBytes)) off
                 (bytesToHex (slice buffer off off')).
Proof.
  unfold parseElementBody, bind, position.
  destruct (readByte buffer off) as [tagByte o1|e o|] eqn:R1; try discriminate.
  destruct (readTagNumber buffer tagByte o1) as [tagNumber o2|e o|] eqn:R2; try discriminate.
  destruct (readLength buffer o2) as [lengthValue o3|e o|] eqn:R3; try discriminate.
  destruct (len <? o3 + lengthValue) eqn:E; [discriminate|].
  apply Z.ltb_ge in E.
  intros H. exists tagByte, o1, tagNumber, o2, lengthValue, o3.
  repeat (split; [first [assumption | reflexivity]|]). cbv zeta.
  destruct (negb (JS.band tagByte 32 =? 0)).
  - destruct (parseChildren rec fuel (o3 + lengthValue) [] o3) as [value o|e o|] eqn:R4;
      try discriminate.
    unfold ret in H. inversion H; subst. eauto.
  - destruct (readBytes buffer lengthValue o3) as [valueBytes o|e o|] eqn:R4;
      try discriminate.
    unfold ret in H. inversion H; subst. eauto.
Qed.

(** How the element body continues once the header has been read. *)
Lemma parseElementBody_header rec fuel off tagByte o1 tagNumber o2 lengthValue o3 :
  readByte buffer off = Ok tagByte o1 ->
  readTagNumber buffer tagByte o1 = Ok tagNumber o2 ->
  readLength buffer o2 = Ok lengthValue o3 ->
  parseElementBody buffer rec fuel off =
  if len <? o3 + lengthValue then Throw (declaredLengthError off) o3
  else
    let tag c := Tag.mk tagNumber (hexByte tagByte) (getTagClass tagByte) c
                   (tagToType tagNumber) in
    let length := Length.mk lengthValue (bytesToHex (slice buffer o2 o3)) in
    if negb (JS.band tagByte 32 =? 0) then
      match parseChildren rec fuel (o3 + lengthValue) [] o3 with
      | Ok value o4 =>
          Ok (mkNode (tag true) length (Children value) off
                (bytesToHex (slice buffer off (o3 + lengthValue)))) o4
      | Throw e o4 => Throw e o4
      | OutOfFuel => OutOfFuel
      end
    else
      match readBytes buffer lengthValue o3 with
      | Ok valueBytes o4 =>
          Ok (mkNode (tag false) length (LeafValue (decodeLeaf tagNumber valueBytes)) off
                (bytesToHex (slice buffer off o4))) o4
      | Throw e o4 => Throw e o4
      | OutOfFuel => OutOfFuel
      end.
Proof.
  intros R1 R2 R3. unfold parseElementBody, bind, position.
  rewrite R1, R2, R3.
  destruct (len <? o3 + lengthValue); [reflexivity|]. cbv zeta.
  destruct (negb (JS.band tagByte 32 =? 0)); reflexivity.
Qed.

(** *** Progress and termination *)

Local Abbreviation advances := (advances buffer).

Lemma parseChildren_Ok_range rec fuel endOffset acc off value off' :
  advances rec ->
  parseChildren rec fuel endOffset acc off = Ok value off' ->
  endOffset <= off' /\ (off' = off \/ (off < off' <= len)).
Proof.
  intros Hrec. revert acc off.
  induction fuel as [|fuel IH]; intros acc off; simpl;
    destruct (off <? endOffset) eqn:E.
  - discriminate.
  - intros H; inversion H; subst. apply Z.ltb_ge in E. auto.
  - unfold bind. destruct (rec off) as [child o|e o|] eqn:R; try discriminate.
    apply Hrec in R. intros H. apply IH in H. lia.
  - intros H; inversion H; subst. apply Z.ltb_ge in E. auto.
Qed.

Lemma parseElementBody_advances rec fuel :
  advances rec -> advances (parseElementBody buffer rec fuel).
Proof.
  intros Hrec o n o' H.
  apply parseElementBody_Ok in H.
  destruct H as (tagByte & o1 & tagNumber & o2 & lengthValue & o3 & R1 & R2 & R3 & Hle & H).
  apply readByte_Ok in R1. destruct R1 as (R1 & -> & _).
  apply readTagNumber_Ok in R2; [|lia].
  apply readLength_Ok in R3.
  cbv zeta in H. destruct (negb (JS.band tagByte 32 =? 0)).
  - destruct H as (value & H & _).
    apply parseChildren_Ok_range in H; [|assumption]. lia.
  - destruct H as (valueBytes & H & _).
    apply readBytes_Ok in H. lia.
Qed.

Lemma parseElement_advances fuel : advances (parseElement buffer fuel).
Proof.
  induction fuel as [|fuel IH]; simpl.
  - intros o n o' H. discriminate.
  - apply parseElementBody_advances. exact IH.
Qed.

Lemma parseChildren_fuel rec bound fuel endOffset acc off :
  advances rec ->
  (forall o, o <= len -> len - o < bound -> rec o <> OutOfFuel) ->
  off <= len -> len - off < Z.of_nat fuel -> Z.of_nat fuel <= bound ->
  parseChildren rec fuel endOffset acc off <> OutOfFuel.
Proof.
  intros Hadv Hrec. revert acc off.
  induction fuel as [|fuel IH]; intros acc off H1 H2 H3; simpl;
    destruct (off <? endOffset) eqn:E; try discriminate.
  - lia.
  - unfold bind. destruct (rec off) as [child o|e o|] eqn:R; try discriminate.
    + apply Hadv in R. apply IH; lia.
    + exfalso. eapply Hrec; [| |exact R]; lia.
Qed.

Lemma parseElement_fuel fuel off :
  off <= len -> len - off < Z.of_nat fuel ->
  parseElement buffer fuel off <> OutOfFuel.
Proof.
  revert off. induction fuel as [|fuel IH]; intros off H1 H2; [lia|].
  simpl.
  destruct (readByte buffer off) as [tagByte o1|e o|] eqn:R1.
  2:{ unfold parseElementBody, bind, position. rewrite R1. discriminate. }
  2:{ exfalso. eapply readByte_fuel; eauto. }
  destruct (readTagNumber buffer tagByte o1) as [tagNumber o2|e o|] eqn:R2.
  2:{ unfold parseElementBody, bind, position. rewrite R1, R2. discriminate. }
  2:{ exfalso. eapply readTagNumber_fuel; eauto. }
  destruct (readLength buffer o2) as [lengthValue o3|e o|] eqn:R3.
  2:{ unfold parseElementBody, bind, position. rewrite R1, R2, R3. discriminate. }
  2:{ exfalso. eapply readLength_fuel; eauto. }
  rewrite (parseElementBody_header _ _ _ _ _ _ _ _ _ R1 R2 R3).
  apply readByte_Ok in R1. destruct R1 as (R1 & -> & _).
  apply readTagNumber_Ok in R2; [|lia].
  apply readLength_Ok in R3.
  destruct (len <? o3 + lengthValue); [discriminate|]. cbv zeta.
  destruct (negb (JS.band tagByte 32 =? 0)).
  - destruct (parseChildren (parseElement buffer fuel) fuel (o3 + lengthValue) [] o3)
      eqn:R4; try discriminate.
    exfalso. revert R4.
    apply parseChildren_fuel with (bound := Z.of_nat fuel);
      [apply parseElement_advances | exact IH | lia | lia | lia].
  - unfold readBytes.
    destruct ((lengthValue <? 0) || (o3 <? 0) || (len <? o3 + lengthValue));
      discriminate.
Qed.

(** More fuel does not change a result. *)
Lemma parseChildren_more rec rec' fuel endOffset acc off r :
  (forall o r', rec o = r' -> r' <> OutOfFuel -> rec' o = r') ->
  parseChildren rec fuel endOffset acc off = r -> r <> OutOfFuel ->
  parseChildren rec' (S fuel) endOffset acc off = r.
Proof.
  intros Hrec. revert acc off.
  induction fuel as [|fuel IH]; intros acc off H Hr.
  - simpl in *. destruct (off <? endOffset); congruence.
  - revert H. cbn [parseChildren].
    destruct (off <? endOffset); [|auto].
    unfold bind.
    destruct (rec off) as [child o|e o|] eqn:R.
    + rewrite (Hrec _ _ R) by discriminate. intros H. apply IH; assumption.
    + rewrite (Hrec _ _ R) by discriminate. auto.
    + congruence.
Qed.

Lemma parseElement_S fuel :
  parseElement buffer (S fuel) = parseElementBody buffer (parseElement buffer fuel) fuel.
Proof. reflexivity. Qed.

Lemma parseElement_more fuel off r :
  parseElement buffer fuel off = r -> r <> OutOfFuel ->
  parseElement buffer (S fuel) off = r.
Proof.
  revert off r. induction fuel as [|fuel IH]; intros off r H Hr.
  - simpl in H. congruence.
  - rewrite parseElement_S in H. rewrite (parseElement_S (S fuel)).
    revert H. unfold parseElementBody, bind, position.
    destruct (readByte buffer off) as [tagByte o1|e o|]; auto.
    destruct (readTagNumber buffer tagByte o1) as [tagNumber o2|e o|]; auto.
    destruct (readLength buffer o2) as [lengthValue o3|e o|]; auto.
    destruct (len <? o3 + lengthValue); auto. cbv zeta.
    destruct (negb (JS.band tagByte 32 =? 0)); auto.
    destruct (parseChildren (parseElement buffer fuel) fuel (o3 + lengthValue) [] o3)
      as [value o|e o|] eqn:R; intros H.
    + rewrite (parseChildren_more _ (parseElement buffer (S fuel)) _ _ _ _ _ IH R)
        by discriminate.
      exact H.
    + rewrite (parseChildren_more _ (parseElement buffer (S fuel)) _ _ _ _ _ IH R)
        by discriminate.
      exact H.
    + congruence.
Qed.

Lemma parseElement_more_le fuel fuel' off r :
  (fuel <= fuel')%nat ->
  parseElement buffer fuel off = r -> r <> OutOfFuel ->
  parseElement buffer fuel' off = r.
Proof.
  induction 1 as [|fuel' Hle IH]; intros H Hr; [assumption|].
  apply parseElement_more; auto.
Qed.

End CursorFacts.

(** *** [parse] in parse-all mode *)

Lemma decodedRun_snoc buffer a nodes b node c :
  decodedRun buffer a nodes b ->
  b < byteLength buffer ->
  element buffer b = Ok node c ->
  decodedRun buffer a (nodes ++ [node])%list c.
Proof.
  induction 1 as [off|off n off' ns off'' H1 H2 H3 IH]; intros Hb He; simpl.
  - econstructor; eauto. constructor.
  - econstructor; eauto.
Qed.

Lemma parseLoop_all buffer simple fuel nodes off :
  decodedRun buffer 0 nodes off ->
  0 <= off <= byteLength buffer ->
  byteLength buffer - off < Z.of_nat fuel ->
  exists nodes' stop,
    decodedRun buffer 0 nodes' stop /\
    ((byteLength buffer <= stop /\
      parseLoop buffer (mkOptions true simple) fuel nodes off = Some (nodes', []))
     \/
     (stop < byteLength buffer /\
      exists e at_,
        element buffer stop = Throw e at_ /\
        parseLoop buffer (mkOptions true simple) fuel nodes off
        = Some (nodes', [mkParseError at_ e]))).
Proof.
  revert nodes off. induction fuel as [|fuel IH]; intros nodes off Hrun H1 H2; [lia|].
  cbn [parseLoop]. destruct (off <? byteLength buffer) eqn:E.
  - apply Z.ltb_lt in E.
    fold (element buffer off).
    destruct (element buffer off) as [node off'|e at_|] eqn:R.
    + cbn [parseAll negb].
      pose proof (parseElement_advances buffer _ _ _ _ R) as Hadv.
      apply IH.
      * eapply decodedRun_snoc; eauto.
      * lia.
      * lia.
    + exists nodes, off. split; [assumption|]. right. split; [assumption|].
      exists e, at_. auto.
    + exfalso. revert R. apply parseElement_fuel; unfold byteLength in *; lia.
  - apply Z.ltb_ge in E. exists nodes, off. split; [assumption|]. left. auto.
Qed.

(** C5.  In parse-all mode [parse] always returns (it does not throw, and
    the recursion bound of the model is never reached): it returns the nodes
    of the elements decoded one after the other from offset 0, and either
    these reach the end of the buffer and the error list is empty, or the
    next element throws, and then the error list holds exactly one entry,
    made of the cursor position at the time of the throw and of the
    exception; nothing is decoded after it. *)
Theorem parse_all_accumulates_errors (buffer : list byte) (simple : bool) :
  exists nodes stop,
    decodedRun buffer 0 nodes stop /\
    ((byteLength buffer <= stop /\
      parse buffer (mkOptions true simple)
      = Return (mkParsed (allResult simple nodes) []))
     \/
     (stop < byteLength buffer /\
      exists e at_,
        element buffer stop = Throw e at_ /\
        parse buffer (mkOptions true simple)
        = Return (mkParsed (allResult simple nodes) [mkParseError at_ e]))).
Proof.
  destruct (parseLoop_all buffer simple (S (List.length buffer)) [] 0)
    as (nodes & stop & Hrun & H).
  - constructor.
  - pose proof (byteLength_nonneg buffer). lia.
  - unfold byteLength. lia.
  - exists nodes, stop. split; [assumption|].
    unfold parse, allResult. cbn [parseAll simplify].
    destruct H as [[H1 H2]|(H1 & e & at_ & H2 & H3)].
    + left. split; [assumption|]. rewrite H2. destruct simple; reflexivity.
    + right. split; [assumption|]. exists e, at_. split; [assumption|].
      rewrite H3. destruct simple; reflexivity.
Qed.

(** *** Type names *)

Lemma everyNode_children P tag length nodes offset fullHex :
  everyNode P (mkNode tag length (Children nodes) offset fullHex) <->
  P (mkNode tag length (Children nodes) offset fullHex) /\ Forall (everyNode P) nodes.
Proof.
  cbn [everyNode].
  generalize (P (mkNode tag length (Children nodes) offset fullHex)). intros Q.
  split; intros [H1 H2]; (split; [exact H1|]); clear H1.
  - induction nodes as [|c rest IH].
    + constructor.
    + destruct H2 as [Hc Hrest]. constructor; [exact Hc | apply IH; exact Hrest].
  - induction H2 as [|c rest Hc Hrest IH].
    + exact I.
    + split; assumption.
Qed.


Lemma parseChildren_every P rec fuel endOffset acc off value off' :
  (forall o n o', rec o = Ok n o' -> everyNode P n) ->
  Forall (everyNode P) acc ->
  parseChildren rec fuel endOffset acc off = Ok value off' ->
  Forall (everyNode P) value.
Proof.
  intros Hrec. revert acc off.
  induction fuel as [|fuel IH]; intros acc off Hacc; simpl;
    destruct (off <? endOffset); try discriminate;
    try (intros H; inversion H; subst; assumption).
  unfold bind. destruct (rec off) as [child o|e o|] eqn:R; try discriminate.
  apply IH. apply Forall_app. split; [assumption|].
  constructor; [|constructor]. eapply Hrec; eauto.
Qed.


(** *** Reading a well-formed header *)

Lemma ToInt32_small z : - 2 ^ 31 <= z < 2 ^ 31 -> JS.ToInt32 z = z.
Proof.
  intros H. unfold JS.ToInt32. rewrite Z.mod_small; lia.
Qed.

Lemma land_shifted_byte a b : 0 <= b < 256 -> Z.land (a * 256) b = 0.
Proof.
  intros Hb.
  assert (Hb' : b = Z.land b (Z.ones 8)).
  { rewrite Z.land_ones by lia. rewrite Z.mod_small; [reflexivity|]. cbn. lia. }
  rewrite Hb'. rewrite (Z.land_comm b), Z.land_assoc.
  rewrite Z.land_ones by lia.
  replace (2 ^ 8) with 256 by reflexivity.
  rewrite Z.mod_mul by lia. reflexivity.
Qed.

(** One step of [(acc << 8) | byte] without wrap-around. *)
Lemma shift_or_byte acc b :
  0 <= acc -> 0 <= b < 256 -> acc * 256 + b < 2 ^ 31 ->
  JS.bor (JS.shl acc 8) b = acc * 256 + b.
Proof.
  intros Ha Hb Hlt. unfold JS.bor, JS.shl.
  replace (8 mod 32) with 8 by reflexivity.
  rewrite (ToInt32_small acc) by lia.
  rewrite Z.shiftl_mul_pow2 by lia.
  replace (2 ^ 8) with 256 by reflexivity.
  rewrite (ToInt32_small (acc * 256)) by lia.
  rewrite (ToInt32_small (acc * 256)) by lia.
  rewrite (ToInt32_small b) by lia.
  pose proof (Z.add_lor_land (acc * 256) b) as H.
  rewrite land_shifted_byte in H by lia. lia.
Qed.

Lemma bigEndianFrom_le acc bytes : 0 <= acc -> acc <= bigEndianFrom acc bytes.
Proof.
  revert acc. induction bytes as [|b bytes IH]; intros acc Ha; cbn.
  - lia.
  - pose proof (u8_range b).
    etransitivity; [|apply IH; lia]. lia.
Qed.

Lemma len_app {A} (a b : list A) : len (a ++ b) = len a + len b.
Proof. unfold len. rewrite length_app. lia. Qed.

Lemma len_cons {A} (a : A) (l : list A) : len (a :: l) = 1 + len l.
Proof. unfold len. cbn [List.length]. lia. Qed.

Lemma len_nonneg {A} (l : list A) : 0 <= len l.
Proof. unfold len. lia. Qed.

Ltac to_len :=
  unfold byteLength;
  repeat match goal with
         | |- context [Z.of_nat (List.length ?l)] =>
             change (Z.of_nat (List.length l)) with (len l)
         end.

Lemma skipn_len_app {A} (pre rest : list A) :
  skipn (Z.to_nat (len pre)) (pre ++ rest) = rest.
Proof.
  unfold len. rewrite Nat2Z.id.
  induction pre as [|a pre IH]; [reflexivity | exact IH].
Qed.

Lemma readByte_at pre b rest :
  readByte (pre ++ b :: rest) (len pre) = Ok (u8 b) (len pre + 1).
Proof.
  unfold readByte. to_len. rewrite len_app, len_cons.
  pose proof (len_nonneg pre). pose proof (len_nonneg rest).
  replace ((0 <=? len pre) && (len pre <? len pre + (1 + len rest))) with true
    by (symmetry; apply andb_true_iff; split; [apply Z.leb_le | apply Z.ltb_lt]; lia).
  unfold len at 1. rewrite Nat2Z.id.
  rewrite nth_error_app2 by lia. rewrite Nat.sub_diag. reflexivity.
Qed.

Lemma readLengthBytes_at pre bytes rest acc :
  0 <= acc -> bigEndianFrom acc bytes < 2 ^ 31 ->
  readLengthBytes (pre ++ bytes ++ rest) (List.length bytes) acc (len pre)
  = Ok (bigEndianFrom acc bytes) (len pre + len bytes).
Proof.
  revert pre acc. induction bytes as [|b bytes IH]; intros pre acc Ha Hlt.
  - cbn. unfold ret. f_equal. unfold len; cbn [List.length]; lia.
  - cbn [List.length readLengthBytes]. unfold bind.
    cbn [app]. rewrite readByte_at.
    pose proof (u8_range b).
    assert (acc * 256 + u8 b < 2 ^ 31).
    { cbn [bigEndianFrom fold_left] in Hlt.
      pose proof (bigEndianFrom_le (acc * 256 + u8 b) bytes ltac:(lia)).
      unfold bigEndianFrom in *. lia. }
    rewrite shift_or_byte by lia.
    replace (pre ++ b :: bytes ++ rest)%list with ((pre ++ [b]) ++ bytes ++ rest)%list
      by (rewrite <- app_assoc; reflexivity).
    replace (len pre + 1) with (len (pre ++ [b])%list)
      by (rewrite len_app; reflexivity).
    rewrite IH; [|lia|exact Hlt].
    f_equal. rewrite len_app, len_cons. unfold len; cbn [List.length]; lia.
Qed.

(** A well-formed length field is read in full and yields the declared
    length. *)
Lemma readLength_at pre lengthBytes n rest :
  validLength lengthBytes n = true ->
  readLength (pre ++ lengthBytes ++ rest) (len pre)
  = Ok n (len pre + len lengthBytes).
Proof.
  destruct lengthBytes as [|l bytes]; [discriminate|].
  cbn [validLength]. intros H.
  unfold readLength, bind. cbn [app]. rewrite readByte_at.
  rewrite band_128_byte.
  destruct (u8 l <? 128) eqn:E.
  - destruct bytes; [|discriminate]. apply Z.eqb_eq in H. subst n.
    unfold ret. f_equal.
  - apply andb_true_iff in H. destruct H as [H H3].
    apply andb_true_iff in H. destruct H as [H H2].
    apply andb_true_iff in H. destruct H as [H H1].
    apply andb_true_iff in H. destruct H as [H H0].
    apply Z.eqb_eq in H. apply Z.leb_le in H0, H1. apply Z.eqb_eq in H2.
    apply Z.ltb_lt in H3. apply Z.ltb_ge in E.
    pose proof (u8_range l).
    rewrite band_127_byte.
    assert (Hmod : u8 l mod 128 = len bytes).
    { rewrite H. replace (128 + len bytes) with (len bytes + 1 * 128) by lia.
      rewrite Z.mod_add by lia. apply Z.mod_small. lia. }
    rewrite Hmod. unfold position.
    replace ((len bytes =? 0) || (4 <? len bytes)) with false
      by (symmetry; apply orb_false_iff; split; [apply Z.eqb_neq | apply Z.ltb_ge]; lia).
    to_len. rewrite len_app, len_cons, len_app.
    pose proof (len_nonneg rest).
    replace (len pre + (1 + (len bytes + len rest)) <? len pre + 1 + len bytes) with false
      by (symmetry; apply Z.ltb_ge; lia).
    replace (pre ++ l :: bytes ++ rest)%list with ((pre ++ [l]) ++ bytes ++ rest)%list
      by (rewrite <- app_assoc; reflexivity).
    replace (len pre + 1) with (len (pre ++ [l])%list)
      by (rewrite len_app; reflexivity).
    replace (Z.to_nat (len bytes)) with (List.length bytes)
      by (unfold len; rewrite Nat2Z.id; reflexivity).
    rewrite readLengthBytes_at; [| lia | unfold bigEndianFrom; unfold bigEndian in H2; lia].
    unfold bigEndianFrom. unfold bigEndian in H2. rewrite H2.
    f_equal. rewrite len_app, !len_cons. unfold len; cbn [List.length]; lia.
Qed.

Lemma tagNumberLoop_at rest more tagNumber off :
  continuation rest = true ->
  exists n, tagNumberLoop (rest ++ more) tagNumber off = Ok n (off + len rest).
Proof.
  revert tagNumber off. induction rest as [|b rest IH]; intros tagNumber off H.
  - discriminate.
  - cbn [app tagNumberLoop]. rewrite band_128_byte.
    destruct rest as [|b' rest'].
    + cbn in H. rewrite H. eexists. f_equal.
    + cbn [continuation] in H. apply andb_true_iff in H. destruct H as [H1 H2].
      apply Z.leb_le in H1.
      replace (u8 b <? 128) with false by (symmetry; apply Z.ltb_ge; lia).
      destruct (IH (JS.bor (JS.shl tagNumber 7) (JS.band (u8 b) 127)) (off + 1) H2)
        as [n Hn].
      exists n. rewrite Hn. f_equal. rewrite (len_cons b). lia.
Qed.

(** The tag bytes of a well-formed element are read in full. *)
Lemma readTag_at pre constructed tagBytes rest :
  validTag constructed tagBytes = true ->
  exists t tail tagNumber,
    tagBytes = t :: tail /\
    readByte (pre ++ tagBytes ++ rest) (len pre) = Ok (u8 t) (len pre + 1) /\
    negb (JS.band (u8 t) 32 =? 0) = constructed /\
    readTagNumber (pre ++ tagBytes ++ rest) (u8 t) (len pre + 1)
    = Ok tagNumber (len pre + len tagBytes).
Proof.
  destruct tagBytes as [|t tail]; [discriminate|].
  cbn [validTag]. intros H. apply andb_true_iff in H. destruct H as [H1 H2].
  apply Bool.eqb_prop in H1.
  assert (Hread : readByte (pre ++ (t :: tail) ++ rest) (len pre) = Ok (u8 t) (len pre + 1))
    by (cbn [app]; apply readByte_at).
  assert (Hbuf : (pre ++ (t :: tail) ++ rest = (pre ++ [t]) ++ tail ++ rest)%list)
    by (rewrite <- app_assoc; reflexivity).
  assert (Hoff : len pre + 1 = len (pre ++ [t])%list)
    by (rewrite len_app; reflexivity).
  destruct (u8 t mod 32 =? 31) eqn:E.
  - destruct (tagNumberLoop_at tail rest 0 (len (pre ++ [t])%list) H2) as [n Hn].
    exists t, tail, n. split; [reflexivity|].
    split; [exact Hread|].
    split; [rewrite band_32_byte; exact H1|].
    unfold readTagNumber. rewrite band_31_byte, E.
    rewrite Hbuf, Hoff, skipn_len_app, Hn.
    f_equal. rewrite len_app, !len_cons. unfold len; cbn [List.length]; lia.
  - destruct tail; [|discriminate].
    exists t, [], (u8 t mod 32). split; [reflexivity|].
    split; [exact Hread|]. split; [rewrite band_32_byte; exact H1|].
    unfold readTagNumber. rewrite band_31_byte, E.
    unfold ret. f_equal.
Qed.

(** *** Spans *)

Lemma string_length_append (a b : string) :
  String.length (a ++ b) = (String.length a + String.length b)%nat.
Proof. induction a as [|c a IH]; cbn; [reflexivity | rewrite IH; reflexivity]. Qed.

Lemma hexByte_length (b : byte) : String.length (hexByte (u8 b)) = 2%nat.
Proof. destruct b; reflexivity. Qed.

Lemma concat_pairs_length (l : list string) :
  (forall s, In s l -> String.length s = 2%nat) ->
  String.length (String.concat "" l) = (2 * List.length l)%nat.
Proof.
  induction l as [|x l IH]; intros H; [reflexivity|].
  destruct l as [|y l'].
  - cbn. rewrite (H x) by (left; reflexivity). reflexivity.
  - change (String.concat "" (x :: y :: l'))
      with (x ++ "" ++ String.concat "" (y :: l')).
    rewrite !string_length_append, IH by (intros s Hs; apply H; right; exact Hs).
    rewrite (H x) by (left; reflexivity). cbn [String.length List.length]. lia.
Qed.

Lemma bytesToHex_length (bytes : list byte) :
  Z.of_nat (String.length (bytesToHex bytes)) = 2 * len bytes.
Proof.
  unfold bytesToHex. rewrite concat_pairs_length.
  - rewrite length_map. unfold len. lia.
  - intros s Hs. apply in_map_iff in Hs. destruct Hs as (b & <- & _).
    apply hexByte_length.
Qed.

Lemma slice_middle {A} (pre mid suf : list A) :
  slice (pre ++ mid ++ suf) (len pre) (len pre + len mid) = mid.
Proof.
  unfold slice, clampIndex. to_len. rewrite !len_app.
  pose proof (len_nonneg pre). pose proof (len_nonneg mid). pose proof (len_nonneg suf).
  replace (len pre <? 0) with false by (symmetry; apply Z.ltb_ge; lia).
  replace (len pre + len mid <? 0) with false by (symmetry; apply Z.ltb_ge; lia).
  rewrite !Z.min_l by lia.
  rewrite skipn_len_app.
  replace (len pre + len mid - len pre) with (len mid) by lia.
  unfold len. rewrite Nat2Z.id.
  rewrite firstn_app, Nat.sub_diag, firstn_all. cbn. apply app_nil_r.
Qed.

Lemma span_of tag length value offset bytes :
  span (mkNode tag length value offset (bytesToHex bytes)) = len bytes.
Proof.
  unfold span. cbn [Node.fullHex]. rewrite bytesToHex_length.
  rewrite Z.mul_comm. apply Z.div_mul. lia.
Qed.

(** *** Decoding a well-formed element *)

Lemma TLV_ind' (P : TLV -> Prop) :
  (forall tagBytes lengthBytes content, P (Primitive tagBytes lengthBytes content)) ->
  (forall tagBytes lengthBytes children,
      Forall P children -> P (Constructed tagBytes lengthBytes children)) ->
  forall t, P t.
Proof.
  intros Hp Hc. fix IH 1. intros [tb lb c|tb lb cs].
  - apply Hp.
  - apply Hc. induction cs as [|c cs IHcs]; constructor; [apply IH | exact IHcs].
Qed.

Lemma encode_len t : len (encode t) = headerLength t + len (contentOf t).
Proof. destruct t; cbn; rewrite !len_app; lia. Qed.

Lemma validTag_len c tagBytes : validTag c tagBytes = true -> 1 <= len tagBytes.
Proof.
  destruct tagBytes; [discriminate|]. intros _. rewrite len_cons.
  pose proof (len_nonneg tagBytes). lia.
Qed.

Lemma validLength_len lengthBytes n : validLength lengthBytes n = true -> 1 <= len lengthBytes.
Proof.
  destruct lengthBytes; [discriminate|]. intros _. rewrite len_cons.
  pose proof (len_nonneg lengthBytes). lia.
Qed.

Lemma validLength_nonneg lengthBytes n : validLength lengthBytes n = true -> 0 <= n.
Proof.
  destruct lengthBytes as [|l rest]; [discriminate|]. cbn [validLength].
  pose proof (u8_range l) as Hl.
  destruct (u8 l <? 128).
  - destruct rest; [|discriminate]. intros H. apply Z.eqb_eq in H. lia.
  - intros H. apply andb_true_iff in H. destruct H as [H _].
    apply andb_true_iff in H. destruct H as [_ H]. apply Z.eqb_eq in H.
    subst n. unfold bigEndian. apply (bigEndianFrom_le 0 rest). lia.
Qed.

Lemma valid_header t : valid t = true -> 2 <= headerLength t.
Proof.
  destruct t as [tb lb c|tb lb cs]; cbn [valid headerLength]; intros H.
  - apply andb_true_iff in H. destruct H as [H1 H2].
    apply validTag_len in H1. apply validLength_len in H2. lia.
  - apply andb_true_iff in H. destruct H as [H _].
    apply andb_true_iff in H. destruct H as [H1 H2].
    apply validTag_len in H1. apply validLength_len in H2. lia.
Qed.

Lemma readBytes_at pre content suf :
  readBytes (pre ++ content ++ suf) (len content) (len pre)
  = Ok content (len pre + len content).
Proof.
  unfold readBytes. to_len. rewrite !len_app.
  pose proof (len_nonneg pre). pose proof (len_nonneg content).
  pose proof (len_nonneg suf).
  replace ((len content <? 0) || (len pre <? 0)
           || (len pre + (len content + len suf) <? len pre + len content))
    with false.
  2:{ symmetry. apply orb_false_iff. split; [apply orb_false_iff; split|];
      apply Z.ltb_ge; lia. }
  rewrite skipn_len_app. unfold len at 1. rewrite Nat2Z.id.
  rewrite firstn_app, Nat.sub_diag, firstn_all. cbn. rewrite app_nil_r. reflexivity.
Qed.

Lemma placed_contiguous ts off nodes :
  placed ts off nodes -> contiguous off nodes (off + len (flat_map encode ts)).
Proof.
  revert off nodes. induction ts as [|t ts IH]; intros off [|n nodes] H; cbn in H;
    try contradiction.
  - cbn. unfold len. cbn. lia.
  - destruct H as [(H1 & H2 & H3 & _) H]. cbn [contiguous flat_map].
    split; [exact H1|]. rewrite H2, H3.
    apply IH in H. rewrite len_app.
    replace (off + headerLength t + len (contentOf t)) with (off + len (encode t))
      by (rewrite encode_len; lia).
    replace (off + (len (encode t) + len (flat_map encode ts)))
      with (off + len (encode t) + len (flat_map encode ts)) by lia.
    exact H.
Qed.

Lemma placed_fill ts off nodes :
  placed ts off nodes -> Forall (everyNode childrenFill) nodes.
Proof.
  revert off nodes. induction ts as [|t ts IH]; intros off [|n nodes] H; cbn in H;
    try contradiction; constructor.
  - apply H.
  - eapply IH. apply H.
Qed.


Lemma placed_snoc ts off nodes t node :
  placed ts off nodes ->
  decodedAs t (off + len (flat_map encode ts)) node ->
  placed (ts ++ [t]) off (nodes ++ [node]).
Proof.
  revert off nodes. induction ts as [|t' ts IH]; intros off [|n nodes] H Hn; cbn in H;
    try contradiction.
  - cbn. split; [|exact I]. replace off with (off + len (flat_map encode (@nil TLV))).
    + exact Hn.
    + unfold len. cbn. lia.
  - destruct H as [H1 H2]. cbn [app placed]. split; [exact H1|].
    apply IH; [exact H2|].
    cbn [flat_map] in Hn. rewrite len_app in Hn.
    replace (off + len (encode t') + len (flat_map encode ts))
      with (off + (len (encode t') + len (flat_map encode ts))) by lia.
    exact Hn.
Qed.

(** The element body on a well-formed header: the declared-length check
    passes and the body goes on with the content. *)
Lemma parseElementBody_at pre tagBytes lengthBytes rest constructed n rec fuel :
  validTag constructed tagBytes = true ->
  validLength lengthBytes n = true ->
  n <= len rest ->
  exists tagByte tagNumber encodedHex,
    parseElementBody (pre ++ tagBytes ++ lengthBytes ++ rest) rec fuel (len pre) =
    let buffer := (pre ++ tagBytes ++ lengthBytes ++ rest)%list in
    let o3 := len pre + len tagBytes + len lengthBytes in
    let tag := Tag.mk tagNumber (hexByte tagByte) (getTagClass tagByte) constructed
                 (tagToType tagNumber) in
    let length := Length.mk n encodedHex in
    if constructed then
      match parseChildren rec fuel (o3 + n) [] o3 with
      | Ok value o4 =>
          Ok (mkNode tag length (Children value) (len pre)
                (bytesToHex (slice buffer (len pre) (o3 + n)))) o4
      | Throw e o4 => Throw e o4
      | OutOfFuel => OutOfFuel
      end
    else
      match readBytes buffer n o3 with
      | Ok valueBytes o4 =>
          Ok (mkNode tag length (LeafValue (decodeLeaf tagNumber valueBytes)) (len pre)
                (bytesToHex (slice buffer (len pre) o4))) o4
      | Throw e o4 => Throw e o4
      | OutOfFuel => OutOfFuel
      end.
Proof.
  intros Htag Hlen Hn.
  destruct (readTag_at pre constructed tagBytes (lengthBytes ++ rest) Htag)
    as (t & tail & tagNumber & Etag & R1 & Hc & R2).
  pose proof (readLength_at (pre ++ tagBytes) lengthBytes n rest Hlen) as R3.
  rewrite <- app_assoc in R3. rewrite len_app in R3.
  exists (u8 t), tagNumber.
  eexists.
  rewrite (parseElementBody_header _ _ _ _ _ _ _ _ _ _ R1 R2 R3).
  to_len. rewrite !len_app.
  pose proof (len_nonneg pre). pose proof (len_nonneg tagBytes).
  pose proof (len_nonneg lengthBytes).
  replace (len pre + (len tagBytes + (len lengthBytes + len rest))
           <? len pre + len tagBytes + len lengthBytes + n) with false
    by (symmetry; apply Z.ltb_ge; lia).
  cbv zeta. rewrite Hc. destruct constructed; reflexivity.
Qed.

Lemma flat_map_encode_length ts :
  forallb valid ts = true -> len ts <= len (flat_map encode ts).
Proof.
  induction ts as [|t ts IH]; intros H; cbn [forallb flat_map] in *.
  - unfold len. cbn. lia.
  - apply andb_true_iff in H. destruct H as [H1 H2].
    rewrite len_cons, len_app, encode_len.
    pose proof (valid_header t H1). pose proof (len_nonneg (contentOf t)).
    specialize (IH H2). lia.
Qed.

Lemma parseChildren_valid ts :
  Forall (fun t => valid t = true -> elementDecodes t) ts ->
  forallb valid ts = true ->
  forall fuel k pre suf acc,
    len (flat_map encode ts) < Z.of_nat fuel ->
    (List.length ts <= k)%nat ->
    exists nodes,
      parseChildren (parseElement (pre ++ flat_map encode ts ++ suf) fuel) k
        (len pre + len (flat_map encode ts)) acc (len pre)
      = Ok (acc ++ nodes)%list (len pre + len (flat_map encode ts))
      /\ placed ts (len pre) nodes.
Proof.
  induction 1 as [|t ts Ht Hts IH]; intros Hvalid fuel k pre suf acc Hfuel Hk.
  - exists []. split; [|exact I].
    cbn [flat_map]. replace (len (@nil byte)) with 0 by reflexivity.
    rewrite Z.add_0_r, app_nil_r.
    destruct k; cbn [parseChildren]; rewrite Z.ltb_irrefl; reflexivity.
  - cbn [forallb] in Hvalid. apply andb_true_iff in Hvalid.
    destruct Hvalid as [Hv Hvs].
    destruct k as [|k]; [cbn in Hk; lia|].
    cbn [flat_map] in *. rewrite len_app in *.
    pose proof (valid_header t Hv) as Hh.
    pose proof (encode_len t) as He.
    pose proof (len_nonneg (contentOf t)).
    pose proof (len_nonneg (flat_map encode ts)).
    cbn [parseChildren].
    replace (len pre <? len pre + (len (encode t) + len (flat_map encode ts)))
      with true by (symmetry; apply Z.ltb_lt; lia).
    unfold bind.
    rewrite <- (app_assoc (encode t)).
    destruct (Ht Hv fuel pre (flat_map encode ts ++ suf)%list) as (node & R & Hnode).
    { unfold len in *. lia. }
    rewrite R.
    destruct (IH Hvs fuel k (pre ++ encode t)%list suf (acc ++ [node])%list)
      as (nodes & R' & Hnodes).
    { lia. }
    { cbn in Hk. lia. }
    exists (node :: nodes). split.
    + rewrite <- app_assoc in R'. rewrite len_app in R'.
      replace (len pre + (len (encode t) + len (flat_map encode ts)))
        with (len pre + len (encode t) + len (flat_map encode ts)) by lia.
      rewrite R'. f_equal. rewrite <- app_assoc. reflexivity.
    + cbn [placed]. split; [exact Hnode|].
      rewrite len_app in Hnodes. exact Hnodes.
Qed.

Lemma parseElement_valid t : valid t = true -> elementDecodes t.
Proof.
  induction t as [tb lb c|tb lb cs IH] using TLV_ind'; intros Hvalid fuel pre suf Hfuel.
  - (* primitive *)
    cbn [valid] in Hvalid. apply andb_true_iff in Hvalid. destruct Hvalid as [Htag Hlen].
    destruct fuel as [|fuel]; [lia|]. rewrite parseElement_S.
    cbn [encode]. rewrite <- !app_assoc.
    destruct (parseElementBody_at pre tb lb (c ++ suf) false (len c)
                (parseElement (pre ++ tb ++ lb ++ c ++ suf) fuel) fuel Htag Hlen)
      as (tagByte & tagNumber & encodedHex & R).
    { rewrite len_app. pose proof (len_nonneg suf). lia. }
    rewrite R. cbv zeta.
    replace (len pre + len tb + len lb) with (len (pre ++ tb ++ lb)%list)
      by (rewrite !len_app; lia).
    replace (pre ++ tb ++ lb ++ c ++ suf)%list with ((pre ++ tb ++ lb) ++ c ++ suf)%list
      by (rewrite <- !app_assoc; reflexivity).
    rewrite readBytes_at.
    replace ((pre ++ tb ++ lb) ++ c ++ suf)%list with (pre ++ (tb ++ lb ++ c) ++ suf)%list
      by (rewrite <- !app_assoc; reflexivity).
    replace (len (pre ++ tb ++ lb)%list + len c) with (len pre + len (tb ++ lb ++ c)%list)
      by (rewrite !len_app; lia).
    rewrite slice_middle.
    eexists. split; [reflexivity|].
    assert (Hspan := span_of
      (Tag.mk tagNumber (hexByte tagByte) (getTagClass tagByte) false (tagToType tagNumber))
      (Length.mk (len c) encodedHex) (LeafValue (decodeLeaf tagNumber c)) (len pre)
      (tb ++ lb ++ c)%list).
    assert (Hheader : headerOf
      (mkNode
         (Tag.mk tagNumber (hexByte tagByte) (getTagClass tagByte) false (tagToType tagNumber))
         (Length.mk (len c) encodedHex) (LeafValue (decodeLeaf tagNumber c)) (len pre)
         (bytesToHex (tb ++ lb ++ c))) = len tb + len lb).
    { unfold headerOf. rewrite Hspan. cbn [Node.length Length.value].
      rewrite !len_app. lia. }
    unfold decodedAs. cbn [Node.offset Node.length Length.value contentOf headerLength].
    split; [reflexivity|]. split; [reflexivity|]. split; [exact Hheader|].
    cbn [everyNode]. split; [|exact I].
    unfold childrenFill. rewrite Hheader. cbn [Node.length Length.value Node.value].
    apply validTag_len in Htag. apply validLength_len in Hlen.
    pose proof (len_nonneg c). lia.
  - (* constructed *)
    cbn [valid] in Hvalid. apply andb_true_iff in Hvalid. destruct Hvalid as [Hvalid Hcs].
    apply andb_true_iff in Hvalid. destruct Hvalid as [Htag Hlen].
    destruct fuel as [|fuel]; [lia|]. rewrite parseElement_S.
    cbn [encode] in *. rewrite <- !app_assoc.
    set (content := flat_map encode cs) in *.
    destruct (parseElementBody_at pre tb lb (content ++ suf) true (len content)
                (parseElement (pre ++ tb ++ lb ++ content ++ suf) fuel) fuel Htag Hlen)
      as (tagByte & tagNumber & encodedHex & R).
    { rewrite len_app. pose proof (len_nonneg suf). lia. }
    rewrite R. cbv zeta.
    pose proof (validTag_len _ _ Htag) as Htl.
    pose proof (validLength_len _ _ Hlen) as Hll.
    pose proof (len_nonneg content) as Hcl.
    assert (Hsize : len content < Z.of_nat fuel).
    { unfold len in *. rewrite !length_app in Hfuel. lia. }
    replace (len pre + len tb + len lb) with (len (pre ++ tb ++ lb)%list)
      by (rewrite !len_app; lia).
    replace (pre ++ tb ++ lb ++ content ++ suf)%list
      with ((pre ++ tb ++ lb) ++ content ++ suf)%list
      by (rewrite <- !app_assoc; reflexivity).
    destruct (parseChildren_valid cs IH Hcs fuel fuel (pre ++ tb ++ lb)%list suf [])
      as (nodes & Rc & Hplaced).
    { exact Hsize. }
    { pose proof (flat_map_encode_length cs Hcs). fold content in H.
      unfold len in *. lia. }
    fold content in Rc. rewrite Rc. cbn [app].
    replace ((pre ++ tb ++ lb) ++ content ++ suf)%list
      with (pre ++ (tb ++ lb ++ content) ++ suf)%list
      by (rewrite <- !app_assoc; reflexivity).
    replace (len (pre ++ tb ++ lb)%list + len content)
      with (len pre + len (tb ++ lb ++ content)%list)
      by (rewrite !len_app; lia).
    rewrite slice_middle.
    eexists. split; [reflexivity|].
    assert (Hspan := span_of
      (Tag.mk tagNumber (hexByte tagByte) (getTagClass tagByte) true (tagToType tagNumber))
      (Length.mk (len content) encodedHex) (Children nodes) (len pre)
      (tb ++ lb ++ content)%list).
    assert (Hheader : headerOf
      (mkNode
         (Tag.mk tagNumber (hexByte tagByte) (getTagClass tagByte) true (tagToType tagNumber))
         (Length.mk (len content) encodedHex) (Children nodes) (len pre)
         (bytesToHex (tb ++ lb ++ content))) = len tb + len lb).
    { unfold headerOf. rewrite Hspan. cbn [Node.length Length.value].
      rewrite !len_app. lia. }
    unfold decodedAs. cbn [Node.offset Node.length Length.value contentOf headerLength].
    fold content.
    split; [reflexivity|]. split; [reflexivity|]. split; [exact Hheader|].
    apply everyNode_children. split.
    + unfold childrenFill. rewrite Hheader.
      cbn [Node.length Length.value Node.value Node.offset].
      split; [lia|]. split; [lia|].
      apply placed_contiguous in Hplaced. fold content in Hplaced.
      rewrite !len_app in Hplaced.
      replace (len pre + (len tb + len lb)) with (len pre + (len tb + len lb)) by lia.
      exact Hplaced.
    + eapply placed_fill. exact Hplaced.
Qed.

(** *** Decoding a stream of well-formed elements *)


Lemma parseLoop_valid ts :
  forallb valid ts = true ->
  forall simple k pre acc,
    (List.length ts <= k)%nat ->
    exists nodes,
      parseLoop (pre ++ flat_map encode ts) (mkOptions true simple) k acc (len pre)
      = Some ((acc ++ nodes)%list, [])
      /\ placed ts (len pre) nodes
      /\ accounted (pre ++ flat_map encode ts) ts (len pre) nodes.
Proof.
  induction ts as [|t ts IH]; intros Hvalid simple k pre acc Hk.
  - exists []. cbn [flat_map placed accounted]. rewrite !app_nil_r.
    split; [|split; exact I].
    destruct k; cbn [parseLoop]; to_len; rewrite Z.ltb_irrefl; reflexivity.
  - cbn [forallb] in Hvalid. apply andb_true_iff in Hvalid.
    destruct Hvalid as [Hv Hvs].
    destruct k as [|k]; [cbn in Hk; lia|].
    cbn [flat_map].
    pose proof (valid_header t Hv) as Hh.
    pose proof (encode_len t) as He.
    pose proof (len_nonneg (contentOf t)).
    pose proof (len_nonneg (flat_map encode ts)).
    cbn [parseLoop]. to_len. rewrite !len_app.
    replace (len pre <? len pre + (len (encode t) + len (flat_map encode ts)))
      with true by (symmetry; apply Z.ltb_lt; lia).
    destruct (parseElement_valid t Hv
                (S (List.length (pre ++ encode t ++ flat_map encode ts)))
                pre (flat_map encode ts)) as (node & R & Hnode).
    { rewrite !length_app. lia. }
    rewrite R. cbn [parseAll negb].
    destruct (IH Hvs simple k (pre ++ encode t)%list (acc ++ [node])%list)
      as (nodes & R' & Hplaced & Hacc).
    { cbn in Hk. lia. }
    exists (node :: nodes).
    rewrite <- app_assoc in R', Hacc. rewrite len_app in R', Hplaced, Hacc.
    split; [|split].
    + rewrite R'. rewrite <- app_assoc. reflexivity.
    + cbn [placed]. split; assumption.
    + cbn [accounted]. unfold element.
      replace (len pre + headerLength t + len (contentOf t)) with (len pre + len (encode t))
        by lia.
      split; [exact R|]. split; assumption.
Qed.


(* ================================================================= *)
(** ** Properties of the X.509 mapper *)

(** *** Every call of the mapper returns or throws *)

Lemma halts_Return {A} (a : A) : halts (Return a).
Proof. discriminate. Qed.

Lemma halts_Raise {A} (e : JSError) : halts (@Raise A e).
Proof. discriminate. Qed.

Lemma halts_andThen {A B} (c : completion A) (k : A -> completion B) :
  halts c -> (forall a, halts (k a)) -> halts (andThen c k).
Proof.
  unfold halts. intros Hc Hk. destruct c; cbn; [apply Hk | discriminate | congruence].
Qed.

Lemma halts_mapM {A B} (f : A -> completion B) (l : list A) :
  (forall a, halts (f a)) -> halts (mapM f l).
Proof.
  intros Hf. induction l as [|a l IH]; cbn [mapM].
  - apply halts_Return.
  - apply halts_andThen; [apply Hf|]. intros b.
    apply halts_andThen; [exact IH|]. intros bs. apply halts_Return.
Qed.

Create HintDb halts.

#[local] Hint Resolve halts_Return halts_Raise : halts.

Ltac halts_step :=
  first
    [ apply halts_Return
    | apply halts_Raise
    | apply halts_andThen; [|intros ?]
    | apply halts_mapM; intros ?
    | solve [auto with halts]
    | match goal with
      | |- halts (match ?x with _ => _ end) => destruct x
      | |- halts (if ?x then _ else _) => destruct x
      end ].

Ltac halts := repeat halts_step.

Lemma parseASN1_all_halts buffer simple :
  halts (parseASN1 buffer (Some true) simple).
Proof.
  unfold parseASN1, parse.
  set (s := match simple with Some b => b | None => false end).
  destruct (parseLoop_all buffer s (S (List.length buffer)) [] 0)
    as (nodes & stop & _ & H).
  - constructor.
  - pose proof (byteLength_nonneg buffer). lia.
  - unfold byteLength. lia.
  - destruct H as [[_ H]|(_ & e & at_ & _ & H)]; rewrite H; cbn;
      destruct s; apply halts_Return.
Qed.

#[local] Hint Resolve parseASN1_all_halts : halts.

Lemma parseAllNodes_halts buffer : halts (parseAllNodes buffer).
Proof. unfold parseAllNodes. halts. Qed.

#[local] Hint Resolve parseAllNodes_halts : halts.

Lemma hexToArrayBuffer_halts hex : halts (hexToArrayBuffer hex).
Proof. unfold hexToArrayBuffer. halts. Qed.

#[local] Hint Resolve hexToArrayBuffer_halts : halts.

Lemma topSequence_halts node : halts (topSequence node).
Proof. unfold topSequence. halts. Qed.

#[local] Hint Resolve topSequence_halts : halts.

Lemma parseASN1FromRawHex_halts node : halts (parseASN1FromRawHex node).
Proof. unfold parseASN1FromRawHex. halts. Qed.

#[local] Hint Resolve parseASN1FromRawHex_halts : halts.

Lemma decodeContextString_halts node : halts (decodeContextString node).
Proof. unfold decodeContextString. halts. Qed.

#[local] Hint Resolve decodeContextString_halts : halts.

Lemma decodeGeneralName_halts name : halts (decodeGeneralName name).
Proof.
  unfold decodeGeneralName, parseDirectoryName, parseRegisteredID, parseOtherName.
  halts.
Qed.

#[local] Hint Resolve decodeGeneralName_halts : halts.

Lemma valueOf_halts node : halts (valueOf node).
Proof. unfold valueOf. halts. Qed.

Lemma defined_halts node : halts (defined node).
Proof. unfold defined. halts. Qed.

Lemma destructure_halts v : halts (destructure v).
Proof. unfold destructure. halts. Qed.

Lemma findIn_halts v p : halts (findIn v p).
Proof. unfold findIn. halts. Qed.

Lemma makeField_halts {T} (value : T) node : halts (makeField value node).
Proof. unfold makeField. halts. Qed.

#[local] Hint Resolve valueOf_halts defined_halts destructure_halts findIn_halts
  makeField_halts : halts.

Lemma parseQualifier_halts q : halts (parseQualifier q).
Proof. unfold parseQualifier. halts. Qed.

#[local] Hint Resolve parseQualifier_halts : halts.

Lemma parsePolicy_halts p : halts (parsePolicy p).
Proof. unfold parsePolicy. halts. Qed.

#[local] Hint Resolve parsePolicy_halts : halts.

Lemma distributionPointURLs_halts entry : halts (distributionPointURLs entry).
Proof. unfold distributionPointURLs. halts. Qed.

Lemma parseAccessDescription_halts desc : halts (parseAccessDescription desc).
Proof. unfold parseAccessDescription. halts. Qed.

#[local] Hint Resolve distributionPointURLs_halts parseAccessDescription_halts : halts.

Lemma parseKnownExtension_halts oid valueNode : halts (parseKnownExtension oid valueNode).
Proof.
  unfold parseKnownExtension, parseSubjectAltName, parseBasicConstraints,
    parseCRLDistributionPoints, parseCertificatePolicies, parseAuthorityKeyIdentifier,
    parseExtendedKeyUsage, parseAuthorityInfoAccess, parseQCStatements.
  halts.
Qed.

#[local] Hint Resolve parseKnownExtension_halts : halts.

Lemma parseExtension_halts ext : halts (parseExtension ext).
Proof. unfold parseExtension. halts. Qed.

#[local] Hint Resolve parseExtension_halts : halts.

Lemma scanOptionalFields_halts rest extensions :
  halts (scanOptionalFields rest extensions).
Proof.
  revert extensions. induction rest as [|field rest IH]; intros extensions;
    cbn [scanOptionalFields]; halts.
Qed.

Lemma extractOIDField_halts node : halts (extractOIDField node).
Proof. unfold extractOIDField. halts. Qed.

Lemma extractRDN_halts rdn : halts (extractRDN rdn).
Proof. unfold extractRDN. halts. Qed.

#[local] Hint Resolve scanOptionalFields_halts extractOIDField_halts extractRDN_halts
  : halts.

Lemma extractName_halts node : halts (extractName node).
Proof. unfold extractName. halts. Qed.

#[local] Hint Resolve extractName_halts : halts.

Lemma parseX509Certificate_halts asn1 : halts (parseX509Certificate asn1).
Proof. unfold parseX509Certificate. halts. Qed.

(** *** The shape of the root *)





(** *** Extensions of unknown OID *)

Lemma andThen_assoc {A B C} (c : completion A) (k : A -> completion B)
    (k' : B -> completion C) :
  andThen (andThen c k) k' = andThen c (fun a => andThen (k a) k').
Proof. destruct c; reflexivity. Qed.





(* ================================================================= *)
(** ** 32-bit arithmetic: where it is exact and where it wraps *)

(** One step of [(acc << 8) | byte] that carries into bit 31: the result is
    the value less 2^32. *)
Lemma shift_or_byte_wraps v b :
  2 ^ 23 <= v < 2 ^ 24 -> 0 <= b < 256 ->
  JS.bor (JS.shl v 8) b = v * 256 + b - 2 ^ 32.
Proof.
  intros Hv Hb.
  unfold JS.bor, JS.shl. replace (8 mod 32) with 8 by reflexivity.
  rewrite (ToInt32_small v) by lia.
  rewrite Z.shiftl_mul_pow2 by lia. replace (2 ^ 8) with 256 by reflexivity.
  assert (Hw : JS.ToInt32 (v * 256) = v * 256 - 2 ^ 32).
  { unfold JS.ToInt32.
    replace (v * 256 + 2 ^ 31) with ((v * 256 - 2 ^ 31) + 1 * 2 ^ 32) by lia.
    rewrite Z.mod_add by lia. rewrite Z.mod_small by lia. lia. }
  rewrite Hw. rewrite (ToInt32_small (v * 256 - 2 ^ 32)) by lia.
  rewrite (ToInt32_small b) by lia.
  replace (v * 256 - 2 ^ 32) with ((v - 2 ^ 24) * 256) by lia.
  pose proof (Z.add_lor_land ((v - 2 ^ 24) * 256) b) as Hor.
  rewrite land_shifted_byte in Hor by lia. lia.
Qed.

Lemma accumulateBytes_from bytes acc :
  0 <= acc -> bigEndianFrom acc bytes < 2 ^ 31 ->
  fold_left (fun result b => JS.bor (JS.shl result 8) (u8 b)) bytes acc
  = bigEndianFrom acc bytes.
Proof.
  revert acc. induction bytes as [|b bytes IH]; intros acc Ha Hlt; [reflexivity|].
  cbn [fold_left bigEndianFrom] in *. pose proof (u8_range b).
  pose proof (bigEndianFrom_le (acc * 256 + u8 b) bytes ltac:(lia)) as Hle.
  unfold bigEndianFrom in *.
  rewrite shift_or_byte by lia. apply IH; lia.
Qed.

(** Without wrap-around, that is when the big-endian value of the bytes is
    below 2^31, the loop of [decodeInteger] computes that value. *)
Lemma accumulateBytes_bigEndian bytes :
  bigEndian bytes < 2 ^ 31 -> accumulateBytes bytes = bigEndian bytes.
Proof. intros H. apply (accumulateBytes_from bytes 0); [lia | exact H]. Qed.

(** Up to three bytes, [decodeInteger] is the two's-complement value. *)
Lemma decodeInteger_up_to_three_bytes bytes :
  (List.length bytes <= 3)%nat -> decodeInteger bytes = twosComplement bytes.
Proof.
  intros Hlen. unfold decodeInteger, twosComplement.
  destruct bytes as [|b0 rest]; [reflexivity|].
  rewrite band_128_byte.
  assert (Hbig : bigEndian (b0 :: rest) < 2 ^ 31).
  { pose proof (u8_range b0).
    destruct rest as [|b1 [|b2 [|b3 rest]]]; cbn in Hlen; try lia;
      cbn [bigEndian fold_left];
      try pose proof (u8_range b1); try pose proof (u8_range b2); lia. }
  rewrite (accumulateBytes_bigEndian _ Hbig).
  replace (128 <=? u8 b0) with (negb (u8 b0 <? 128))
    by (destruct (Z.ltb_spec (u8 b0) 128), (Z.leb_spec 128 (u8 b0)); cbn; lia || reflexivity).
  destruct (u8 b0 <? 128); cbn [negb]; [reflexivity|].
  f_equal.
  destruct rest as [|b1 [|b2 [|b3 rest]]]; cbn in Hlen; try lia; reflexivity.
Qed.

(** Four bytes: right when the first byte is below [0x80], one too small
    otherwise. *)
Lemma decodeInteger_four_bytes b0 b1 b2 b3 :
  decodeInteger [b0; b1; b2; b3]
  = if u8 b0 <? 128 then twosComplement [b0; b1; b2; b3]
    else twosComplement [b0; b1; b2; b3] - 1.
Proof.
  unfold decodeInteger, twosComplement. rewrite band_128_byte.
  pose proof (u8_range b0). pose proof (u8_range b1).
  pose proof (u8_range b2). pose proof (u8_range b3).
  destruct (Z.ltb_spec (u8 b0) 128) as [Hlt|Hge]; cbn [negb].
  - replace (128 <=? u8 b0) with false by (symmetry; apply Z.leb_gt; lia).
    apply accumulateBytes_bigEndian. cbn [bigEndian fold_left]. lia.
  - replace (128 <=? u8 b0) with true by (symmetry; apply Z.leb_le; lia).
    unfold accumulateBytes. cbn [fold_left].
    rewrite (shift_or_byte 0 (u8 b0)) by lia.
    rewrite (shift_or_byte _ (u8 b1)) by lia.
    rewrite (shift_or_byte _ (u8 b2)) by lia.
    cbn [bigEndian fold_left List.length].
    replace (JS.shl 1 (Z.of_nat 4 * 8)) with 1 by reflexivity.
    replace (2 ^ (8 * Z.of_nat 4)) with 4294967296 by reflexivity.
    rewrite shift_or_byte_wraps by lia. lia.
Qed.

(** *** The declared-length check *)

(** A declared length below 2^31 that exceeds the bytes remaining after the
    length field is refused right after the length is read, with the error
    naming the starting offset, and the cursor is left behind the length
    field. *)
Lemma declared_length_checked pre tagBytes lengthBytes rest constructed n fuel :
  validTag constructed tagBytes = true ->
  validLength lengthBytes n = true ->
  len rest < n ->
  parseElement (pre ++ tagBytes ++ lengthBytes ++ rest) (S fuel) (len pre)
  = Throw (declaredLengthError (len pre)) (len pre + len tagBytes + len lengthBytes).
Proof.
  intros Htag Hlen Hn.
  destruct (readTag_at pre constructed tagBytes (lengthBytes ++ rest) Htag)
    as (t & tail & tagNumber & Etag & R1 & Hc & R2).
  pose proof (readLength_at (pre ++ tagBytes) lengthBytes n rest Hlen) as R3.
  rewrite <- app_assoc in R3. rewrite len_app in R3.
  rewrite parseElement_S.
  rewrite (parseElementBody_header _ _ _ _ _ _ _ _ _ _ R1 R2 R3).
  to_len. rewrite !len_app.
  replace (len pre + (len tagBytes + (len lengthBytes + len rest))
           <? len pre + len tagBytes + len lengthBytes + n) with true
    by (symmetry; apply Z.ltb_lt; lia).
  reflexivity.
Qed.

Lemma readByte_after pre mid b rest :
  readByte (pre ++ mid ++ b :: rest) (len pre + len mid)
  = Ok (u8 b) (len pre + len mid + 1).
Proof.
  rewrite app_assoc, <- len_app. apply readByte_at.
Qed.

(** Four length bytes whose first is [0x80] or more declare a length of
    2^31 or more, which [readLength] returns less 2^32. *)
Lemma readLength_wraps pre b1 b2 b3 b4 rest :
  128 <= u8 b1 ->
  readLength (pre ++ [x84; b1; b2; b3; b4] ++ rest) (len pre)
  = Ok (bigEndian [b1; b2; b3; b4] - 2 ^ 32) (len pre + 5).
Proof.
  intros Hge.
  pose proof (u8_range b1). pose proof (u8_range b2).
  pose proof (u8_range b3). pose proof (u8_range b4).
  pose proof (len_nonneg pre) as Hpre.
  unfold readLength, bind. cbn [app]. rewrite readByte_at.
  replace (JS.band (u8 x84) 128 =? 0) with false by reflexivity.
  replace (JS.band (u8 x84) 127) with 4 by reflexivity.
  unfold position. cbn [Z.eqb Z.ltb orb Z.compare Pos.compare Pos.compare_cont].
  to_len. rewrite len_app. rewrite !len_cons.
  pose proof (len_nonneg rest).
  replace (len pre + (1 + (1 + (1 + (1 + (1 + len rest))))) <? len pre + 1 + 4)
    with false by (symmetry; apply Z.ltb_ge; lia).
  change (Z.to_nat 4) with 4%nat. cbn [readLengthBytes]. unfold bind.
  pose proof (readByte_after pre [x84] b1 (b2 :: b3 :: b4 :: rest)) as R1.
  pose proof (readByte_after pre [x84; b1] b2 (b3 :: b4 :: rest)) as R2.
  pose proof (readByte_after pre [x84; b1; b2] b3 (b4 :: rest)) as R3.
  pose proof (readByte_after pre [x84; b1; b2; b3] b4 rest) as R4.
  cbn [app] in R1, R2, R3, R4.
  replace (len [x84]) with 1 in R1 by reflexivity.
  replace (len [x84; b1]) with 2 in R2 by reflexivity.
  replace (len [x84; b1; b2]) with 3 in R3 by reflexivity.
  replace (len [x84; b1; b2; b3]) with 4 in R4 by reflexivity.
  rewrite R1.
  replace (len pre + 1 + 1) with (len pre + 2) by lia. rewrite R2.
  replace (len pre + 2 + 1) with (len pre + 3) by lia. rewrite R3.
  replace (len pre + 3 + 1) with (len pre + 4) by lia. rewrite R4.
  unfold ret. f_equal; [|lia].
  rewrite (shift_or_byte 0 (u8 b1)) by lia.
  rewrite (shift_or_byte _ (u8 b2)) by lia.
  rewrite (shift_or_byte _ (u8 b3)) by lia.
  cbn [bigEndian fold_left].
  rewrite shift_or_byte_wraps by lia. lia.
Qed.

(** Such a declared length passes the check whatever the buffer holds: a
    constructed element is returned with the negative length and no child,
    a primitive one fails in [readBytes]. *)
Lemma declared_length_from_2_31_not_checked
    pre tagBytes b1 b2 b3 b4 rest constructed fuel :
  validTag constructed tagBytes = true ->
  128 <= u8 b1 ->
  let buffer := (pre ++ tagBytes ++ [x84; b1; b2; b3; b4] ++ rest)%list in
  let after := len pre + len tagBytes + 5 in
  if constructed then
    exists node,
      parseElement buffer (S fuel) (len pre) = Ok node after
      /\ Length.value (Node.length node) = bigEndian [b1; b2; b3; b4] - 2 ^ 32
      /\ Node.value node = Children []
  else parseElement buffer (S fuel) (len pre) = Throw RangeError after.
Proof.
  intros Htag Hge buffer after.
  pose proof (u8_range b1). pose proof (u8_range b2).
  pose proof (u8_range b3). pose proof (u8_range b4).
  destruct (readTag_at pre constructed tagBytes ([x84; b1; b2; b3; b4] ++ rest) Htag)
    as (t & tail & tagNumber & Etag & R1 & Hc & R2).
  pose proof (readLength_wraps (pre ++ tagBytes) b1 b2 b3 b4 rest Hge) as R3.
  rewrite <- app_assoc in R3. rewrite len_app in R3.
  assert (Hneg : bigEndian [b1; b2; b3; b4] - 2 ^ 32 < 0)
    by (cbn [bigEndian fold_left]; lia).
  set (n := bigEndian [b1; b2; b3; b4] - 2 ^ 32) in *.
  pose proof (len_nonneg pre). pose proof (len_nonneg tagBytes).
  pose proof (len_nonneg rest).
  assert (Hbody :
    parseElement buffer (S fuel) (len pre)
    = parseElementBody buffer (parseElement buffer fuel) fuel (len pre))
    by reflexivity.
  unfold buffer in Hbody at 2.
  rewrite (parseElementBody_header _ _ _ _ _ _ _ _ _ _ R1 R2 R3) in Hbody.
  revert Hbody. to_len. intros Hbody. rewrite !len_app in Hbody.
  replace (len [x84; b1; b2; b3; b4]) with 5 in Hbody by reflexivity.
  replace (len pre + (len tagBytes + (5 + len rest))
           <? len pre + len tagBytes + 5 + n) with false in Hbody
    by (symmetry; apply Z.ltb_ge; lia).
  cbv zeta in Hbody. rewrite Hc in Hbody.
  destruct constructed.
  - destruct fuel as [|fuel'];
      cbn [parseChildren] in Hbody;
      (replace (len pre + len tagBytes + 5 <? len pre + len tagBytes + 5 + n)
         with false in Hbody by (symmetry; apply Z.ltb_ge; lia));
      eexists; (split; [exact Hbody|]); split; reflexivity.
  - unfold readBytes in Hbody.
    replace (n <? 0) with true in Hbody by (symmetry; apply Z.ltb_lt; lia).
    cbn [orb] in Hbody. exact Hbody.
Qed.

(* ================================================================= *)
(** ** Time strings *)

Lemma isDigit_cases a : isDigit a = true ->
  a = 48 \/ a = 49 \/ a = 50 \/ a = 51 \/ a = 52 \/ a = 53 \/ a = 54 \/ a = 55 \/ a = 56 \/ a = 57.
Proof.
  unfold isDigit. intros H. apply andb_true_iff in H. destruct H as [H1 H2].
  apply Z.leb_le in H1, H2. lia.
Qed.

Lemma parseInt_two_digits a b :
  isDigit a = true -> isDigit b = true -> JS.parseInt [a; b] 10 = JS.Num (twoDigits a b).
Proof.
  intros Ha Hb. apply isDigit_cases in Ha, Hb.
  repeat (destruct Ha as [Ha|Ha]); subst a;
  repeat (destruct Hb as [Hb|Hb]); subst b; reflexivity.
Qed.

Ltac rewrite_digits :=
  repeat match goal with
         | Hd : isDigit ?x = true |- context [isDigit ?x] => rewrite Hd
         end.



Lemma forallb_rev {A} (f : A -> bool) (l : list A) : forallb f (rev l) = forallb f l.
Proof.
  induction l as [|a l IH]; [reflexivity|].
  cbn [rev forallb]. rewrite forallb_app, IH. cbn [forallb].
  rewrite andb_true_r. apply andb_comm.
Qed.







(* ================================================================= *)
(** ** keyUsage: bit strings of at most six bytes *)


Lemma bitString_length k v : String.length (bitString k v) = k.
Proof. induction k as [|k IH]; cbn; [reflexivity | rewrite IH; reflexivity]. Qed.

Lemma string_app_assoc (a b c : string) : (a ++ b) ++ c = a ++ b ++ c.
Proof. induction a as [|x a IH]; cbn; [reflexivity | rewrite IH; reflexivity]. Qed.

Lemma string_app_nil (a : string) : a ++ "" = a.
Proof. induction a as [|x a IH]; cbn; [reflexivity | rewrite IH; reflexivity]. Qed.

Lemma bitString_snoc k v :
  bitString (S k) v = bitString k (v / 2) ++ String (bitChar (Z.testbit v 0)) "".
Proof.
  induction k as [|k IH]; [reflexivity|].
  change (bitString (S (S k)) v)
    with (String (bitChar (Z.testbit v (Z.of_nat (S k)))) (bitString (S k) v)).
  rewrite IH. cbn [bitString append]. f_equal. f_equal.
  rewrite Nat2Z.inj_succ. symmetry. apply Z.div2_bits. lia.
Qed.

Lemma digitsOf_binary fuel v acc :
  0 < v -> Z.log2 v < Z.of_nat fuel ->
  JS.digitsOf fuel 2 v acc = bitString (S (Z.to_nat (Z.log2 v))) v ++ acc.
Proof.
  revert v acc. induction fuel as [|fuel IH]; intros v acc Hv Hf.
  - pose proof (Z.log2_nonneg v). lia.
  - cbn [JS.digitsOf]. cbv zeta.
    assert (Hbit : JS.digitChar (v mod 2) = bitChar (Z.testbit v 0)).
    { rewrite <- Z.bit0_mod. destruct (Z.testbit v 0); reflexivity. }
    rewrite Hbit.
    destruct (Z.eqb_spec (v / 2) 0) as [E|E].
    + assert (v = 1).
      { pose proof (Z.div_mod v 2 ltac:(lia)).
        pose proof (Z.mod_pos_bound v 2 ltac:(lia)). lia. }
      subst v. reflexivity.
    + assert (Hhalf : 0 < v / 2).
      { pose proof (Z.div_pos v 2 ltac:(lia) ltac:(lia)). lia. }
      assert (Hlog : Z.log2 v = Z.log2 (v / 2) + 1).
      { pose proof (Z.div_mod v 2 ltac:(lia)) as Hdm.
        pose proof (Z.mod_pos_bound v 2 ltac:(lia)).
        assert (v mod 2 = 0 \/ v mod 2 = 1) as [Hm|Hm] by lia;
          rewrite Hm in Hdm; rewrite Hdm at 1.
        - rewrite Z.add_0_r. rewrite Z.log2_double by lia. lia.
        - rewrite Z.log2_succ_double by lia. lia. }
      rewrite IH by lia.
      rewrite Hlog.
      pose proof (Z.log2_nonneg (v / 2)).
      replace (Z.to_nat (Z.log2 (v / 2) + 1)) with (S (Z.to_nat (Z.log2 (v / 2)))) by lia.
      rewrite (bitString_snoc (S _) v). rewrite string_app_assoc. reflexivity.
Qed.

(** [v.toString(2)] is the bit string of [v] up to its highest 1 bit. *)
Lemma intToString_binary v :
  0 <= v -> JS.intToString 2 v = bitString (S (Z.to_nat (Z.log2 v))) v.
Proof.
  intros Hv. unfold JS.intToString. cbv zeta.
  rewrite Z.abs_eq by lia.
  replace (v <? 0) with false by (symmetry; apply Z.ltb_ge; lia).
  destruct (Z.eq_dec v 0) as [->|Hne]; [reflexivity|].
  rewrite digitsOf_binary by (pose proof (Z.log2_nonneg v); lia).
  apply string_app_nil.
Qed.

Lemma bitString_pad j k v :
  0 <= v < 2 ^ Z.of_nat k -> bitString (j + k) v = zeros j ++ bitString k v.
Proof.
  intros Hv. induction j as [|j IH]; [reflexivity|].
  cbn [Nat.add bitString]. rewrite IH. unfold zeros. cbn [repeat string_of_list_ascii append].
  f_equal.
  destruct (Z.eq_dec v 0) as [->|Hne]; [rewrite Z.bits_0; reflexivity|].
  rewrite Z.bits_above_log2; [reflexivity | lia |].
  pose proof (Z.pow_le_mono_r 2 (Z.of_nat k) (Z.of_nat (j + k)) ltac:(lia) ltac:(lia)).
  apply Z.log2_lt_pow2; lia.
Qed.

(** Padded to [k] characters, it is the string of the [k] low bits. *)
Lemma padStart0_binary k v :
  (1 <= k)%nat -> 0 <= v < 2 ^ Z.of_nat k ->
  JS.padStart0 (Z.of_nat k) (JS.intToString 2 v) = bitString k v.
Proof.
  intros Hk Hv. rewrite intToString_binary by lia.
  unfold JS.padStart0. cbv zeta. rewrite bitString_length, Nat2Z.id.
  assert (Hlog : (S (Z.to_nat (Z.log2 v)) <= k)%nat).
  { destruct (Z.eq_dec v 0) as [->|Hne]; [cbn; lia|].
    pose proof (Z.log2_lt_pow2 v (Z.of_nat k) ltac:(lia)) as [H _].
    specialize (H ltac:(lia)). pose proof (Z.log2_nonneg v). lia. }
  set (m := S (Z.to_nat (Z.log2 v))) in *.
  change (string_of_list_ascii (repeat "0"%char (k - m))) with (zeros (k - m)).
  rewrite <- bitString_pad.
  - f_equal. lia.
  - split; [lia|]. unfold m.
    destruct (Z.eq_dec v 0) as [->|Hne]; [cbn; lia|].
    pose proof (Z.log2_nonneg v).
    rewrite Nat2Z.inj_succ, Z2Nat.id by lia.
    apply Z.log2_spec. lia.
Qed.

Lemma bitString_get k v i :
  (i < k)%nat ->
  String.get i (bitString k v) = Some (bitChar (Z.testbit v (Z.of_nat (k - 1 - i)))).
Proof.
  revert i. induction k as [|k IH]; intros i Hi; [lia|].
  destruct i as [|i].
  - cbn [bitString String.get]. do 3 f_equal. lia.
  - cbn [bitString String.get]. rewrite IH by lia. do 3 f_equal. lia.
Qed.

(** *** Hexadecimal strings of bytes *)

Lemma list_ascii_app (a b : string) :
  list_ascii_of_string (a ++ b)
  = (list_ascii_of_string a ++ list_ascii_of_string b)%list.
Proof. induction a as [|c a IH]; cbn; [reflexivity | rewrite IH; reflexivity]. Qed.

Lemma js_app (a b : string) : JS.js (a ++ b) = (JS.js a ++ JS.js b)%list.
Proof. unfold JS.js. rewrite list_ascii_app. apply map_app. Qed.

Lemma bytesToHex_cons b rest :
  bytesToHex (b :: rest) = hexByte (u8 b) ++ bytesToHex rest.
Proof.
  unfold bytesToHex. destruct rest as [|c rest]; cbn [map String.concat].
  - symmetry. apply string_app_nil.
  - reflexivity.
Qed.

Lemma js_hexByte b :
  JS.js (hexByte (u8 b)) = [hexCode (u8 b / 16); hexCode (u8 b mod 16)].
Proof. destruct b; reflexivity. Qed.

Lemma parseDigits_hexCode d acc t :
  0 <= d < 16 ->
  JS.parseDigits 16 acc (hexCode d :: t)
  = JS.parseDigits 16 (Some (accumulated acc * 16 + d)) t.
Proof.
  intros Hd.
  assert (d = 0 \/ d = 1 \/ d = 2 \/ d = 3 \/ d = 4 \/ d = 5 \/ d = 6 \/ d = 7 \/
          d = 8 \/ d = 9 \/ d = 10 \/ d = 11 \/ d = 12 \/ d = 13 \/ d = 14 \/ d = 15)
    as H by lia.
  repeat (destruct H as [H|H]; [subst d; destruct acc; reflexivity|]).
  subst d; destruct acc; reflexivity.
Qed.

Lemma parseDigits_bytes data acc :
  JS.parseDigits 16 acc (JS.js (bytesToHex data))
  = match data with
    | [] => acc
    | _ => Some (bigEndianFrom (accumulated acc) data)
    end.
Proof.
  revert acc. induction data as [|b rest IH]; intros acc; [reflexivity|].
  rewrite bytesToHex_cons, js_app, js_hexByte. cbn [app].
  pose proof (u8_range b).
  rewrite !parseDigits_hexCode
    by (try apply Z.mod_pos_bound; try (split; [apply Z.div_pos|apply Z.div_lt_upper_bound]); lia).
  rewrite IH. cbn [accumulated bigEndianFrom fold_left].
  assert (E : (accumulated acc * 16 + u8 b / 16) * 16 + u8 b mod 16
              = accumulated acc * 256 + u8 b)
    by (pose proof (Z.div_mod (u8 b) 16 ltac:(lia)); lia).
  rewrite E. destruct rest; reflexivity.
Qed.

Lemma roundDouble_exact v : 0 <= v < 2 ^ 53 -> JS.roundDouble v = JS.Num v.
Proof.
  intros Hv. unfold JS.roundDouble. cbv zeta. rewrite Z.abs_eq by lia.
  replace (v <? 2 ^ 53) with true by (symmetry; apply Z.ltb_lt; lia). reflexivity.
Qed.

Lemma parseInt_hex_head b t :
  JS.parseInt (JS.js (hexByte (u8 b)) ++ t)%list 16
  = match JS.parseDigits 16 None (JS.js (hexByte (u8 b)) ++ t)%list with
    | None => JS.NaN
    | Some v => JS.roundDouble v
    end.
Proof. destruct b; reflexivity. Qed.

Lemma bigEndianFrom_lt acc data :
  0 <= acc -> bigEndianFrom acc data < (acc + 1) * 256 ^ len data.
Proof.
  revert acc. induction data as [|b rest IH]; intros acc Ha.
  - cbn. lia.
  - cbn [bigEndianFrom fold_left]. pose proof (u8_range b).
    pose proof (IH (acc * 256 + u8 b) ltac:(lia)) as H1. unfold bigEndianFrom in H1.
    rewrite len_cons. pose proof (len_nonneg rest).
    rewrite Z.pow_add_r by lia. change (256 ^ 1) with 256.
    assert (0 < 256 ^ len rest) by (apply Z.pow_pos_nonneg; lia).
    nia.
Qed.

(** [parseInt(hex, 16)] of the hex string of one to six bytes is their
    big-endian value: it is below 2^53 and no rounding takes place. *)
Lemma parseInt_bytesToHex data :
  data <> [] -> (List.length data <= 6)%nat ->
  JS.parseInt (JS.js (bytesToHex data)) 16 = JS.Num (bigEndian data).
Proof.
  intros Hne Hlen. destruct data as [|b rest]; [congruence|].
  pose proof (parseDigits_bytes (b :: rest) None) as Hd.
  rewrite bytesToHex_cons, js_app in *. rewrite parseInt_hex_head, Hd.
  apply roundDouble_exact.
  change (bigEndianFrom (accumulated None) (b :: rest)) with (bigEndian (b :: rest)).
  split; [apply (bigEndianFrom_le 0); lia|].
  pose proof (bigEndianFrom_lt 0 (b :: rest) ltac:(lia)) as Hlt.
  change (bigEndianFrom 0 (b :: rest)) with (bigEndian (b :: rest)) in Hlt.
  assert (256 ^ len (b :: rest) <= 256 ^ 6)
    by (apply Z.pow_le_mono_r; unfold len; lia).
  change (256 ^ 6) with (2 ^ 48) in *.
  assert (2 ^ 48 < 2 ^ 53) by reflexivity. lia.
Qed.

Lemma parseInt_hexByte b : JS.parseInt (JS.js (hexByte (u8 b))) 16 = JS.Num (u8 b).
Proof. destruct b; reflexivity. Qed.

(** *** Slices of strings *)

Lemma list_ascii_length (s : string) :
  List.length (list_ascii_of_string s) = String.length s.
Proof. induction s as [|c s IH]; cbn; [reflexivity | rewrite IH; reflexivity]. Qed.

Lemma stringLength_len (s : string) : stringLength s = len (list_ascii_of_string s).
Proof. unfold stringLength, len. rewrite list_ascii_length. reflexivity. Qed.

Lemma sliceString_middle (a b c : string) :
  sliceString (a ++ b ++ c) (stringLength a) (stringLength a + stringLength b) = b.
Proof.
  unfold sliceString. rewrite !list_ascii_app, !stringLength_len, slice_middle.
  apply string_of_list_ascii_of_string.
Qed.

Lemma nth_error_firstn_lt {A} (l : list A) k i :
  nth_error (firstn k l) i = if (i <? k)%nat then nth_error l i else None.
Proof.
  revert k i. induction l as [|x l IH]; intros k i.
  - rewrite firstn_nil. destruct i; destruct (_ <? _)%nat; reflexivity.
  - destruct k as [|k]; [destruct i; reflexivity|].
    destruct i as [|i]; [reflexivity|]. cbn [firstn nth_error]. rewrite IH. reflexivity.
Qed.

Lemma get_string_of_list (l : list ascii) i :
  String.get i (string_of_list_ascii l) = nth_error l i.
Proof.
  revert i. induction l as [|c l IH]; intros i; [destruct i; reflexivity|].
  destruct i as [|i]; [reflexivity|]. cbn. apply IH.
Qed.

Lemma get_list_of_string (s : string) i :
  nth_error (list_ascii_of_string s) i = String.get i s.
Proof.
  rewrite <- get_string_of_list, string_of_list_ascii_of_string. reflexivity.
Qed.

(** [s.substring(0, m)[i]] *)
Lemma get_sliceString_prefix s m i :
  0 <= m <= stringLength s ->
  String.get i (sliceString s 0 m)
  = if Z.of_nat i <? m then String.get i s else None.
Proof.
  intros Hm. unfold sliceString, slice, clampIndex. rewrite stringLength_len in Hm.
  to_len. set (l := list_ascii_of_string s) in *.
  replace (0 <? 0) with false by reflexivity.
  replace (m <? 0) with false by (symmetry; apply Z.ltb_ge; lia).
  rewrite Z.min_l by lia. rewrite Z.min_l by lia.
  rewrite Z.sub_0_r. cbn [Z.to_nat skipn].
  rewrite get_string_of_list, nth_error_firstn_lt.
  unfold l. rewrite get_list_of_string.
  destruct (Z.ltb_spec (Z.of_nat i) m), (Nat.ltb_spec i (Z.to_nat m));
    try reflexivity; lia.
Qed.

Lemma eqb_bitChar b : Ascii.eqb (bitChar b) "1" = b.
Proof. destruct b; reflexivity. Qed.

(** *** keyUsage *)

(** For a BIT STRING of one to six data bytes, the flags [parseKeyUsage]
    returns are the bits of the bit string, most significant first, those
    past the unused-bits trim being false. *)
Lemma parseKeyUsage_bits node lengthByte unusedBits data :
  data <> [] -> (List.length data <= 6)%nat ->
  rawHexOrEmpty node = bytesToHex (x03 :: lengthByte :: unusedBits :: data) ->
  parseKeyUsage node
  = map (fun '(bit, label) => (label, keyUsageBit (u8 unusedBits) data bit))
      KeyUsageLabels.
Proof.
  intros Hne Hlen Hraw. unfold parseKeyUsage. rewrite Hraw. cbv zeta.
  rewrite !bytesToHex_cons.
  set (h := hexByte (u8 x03) ++ hexByte (u8 lengthByte)).
  assert (Hh : stringLength h = 4).
  { unfold h, stringLength. rewrite string_length_append, !hexByte_length. reflexivity. }
  assert (Hu : stringLength (hexByte (u8 unusedBits)) = 2).
  { unfold stringLength. rewrite hexByte_length. reflexivity. }
  assert (Hraw' : hexByte (u8 x03) ++ hexByte (u8 lengthByte)
                  ++ hexByte (u8 unusedBits) ++ bytesToHex data
                  = h ++ hexByte (u8 unusedBits) ++ bytesToHex data)
    by (unfold h; rewrite string_app_assoc; reflexivity).
  rewrite Hraw'.
  replace (String.prefix "03" (h ++ hexByte (u8 unusedBits) ++ bytesToHex data))
    with true by (unfold h; destruct lengthByte; reflexivity).
  cbn [negb].
  pose proof (sliceString_middle h (hexByte (u8 unusedBits)) (bytesToHex data)) as S1.
  rewrite Hh, Hu in S1. change (4 + 2) with 6 in S1. rewrite S1.
  pose proof (sliceString_middle (h ++ hexByte (u8 unusedBits)) (bytesToHex data) "") as S2.
  rewrite string_app_nil, string_app_assoc in S2.
  assert (Hlen6 : stringLength (h ++ hexByte (u8 unusedBits)) = 6).
  { unfold stringLength in *. rewrite string_length_append.
    rewrite Nat2Z.inj_add. lia. }
  assert (Htotal : stringLength (h ++ hexByte (u8 unusedBits) ++ bytesToHex data)
                   = 6 + stringLength (bytesToHex data)).
  { rewrite <- string_app_assoc. unfold stringLength in *.
    rewrite string_length_append, Nat2Z.inj_add. lia. }
  rewrite Htotal, <- Hlen6, S2.
  rewrite parseInt_hexByte, (parseInt_bytesToHex data Hne Hlen).
  cbn [JS.numberToString].
  set (k := (8 * List.length data)%nat).
  assert (Hk : stringLength (bytesToHex data) * 4 = Z.of_nat k).
  { unfold stringLength. rewrite bytesToHex_length. unfold len, k. lia. }
  rewrite Hk.
  assert (Hpos : (1 <= k)%nat) by (unfold k; destruct data; [congruence | cbn; lia]).
  assert (Hv : 0 <= bigEndian data < 2 ^ Z.of_nat k).
  { split; [apply (bigEndianFrom_le 0); lia|].
    pose proof (bigEndianFrom_lt 0 data ltac:(lia)) as Hlt.
    change (bigEndianFrom 0 data) with (bigEndian data) in Hlt.
    unfold k. rewrite Nat2Z.inj_mul. change (Z.of_nat 8) with 8.
    rewrite Z.pow_mul_r by (unfold len; lia). change (2 ^ 8) with 256.
    unfold len in Hlt. lia. }
  rewrite (padStart0_binary k _ Hpos Hv).
  unfold stringLength at 1. rewrite bitString_length.
  cbn [minus substring0].
  pose proof (u8_range unusedBits) as Hrange.
  apply map_ext_in. intros [bit label] Hin. f_equal.
  assert (Hbit : 0 <= bit <= 8).
  { cbn in Hin. repeat (destruct Hin as [Hin|Hin]; [injection Hin as <- _; lia|]).
    destruct Hin. }
  rewrite get_sliceString_prefix
    by (unfold stringLength; rewrite bitString_length; lia).
  rewrite Z2Nat.id by lia.
  unfold keyUsageBit.
  replace (8 * len data) with (Z.of_nat k) by (unfold k, len; lia).
  destruct (Z.ltb_spec bit (Z.max (Z.of_nat k - u8 unusedBits) 0)) as [Hlt|Hge].
  - replace (bit <? Z.of_nat k - u8 unusedBits) with true
      by (symmetry; apply Z.ltb_lt; lia).
    rewrite bitString_get by lia. rewrite eqb_bitChar. cbn [andb].
    f_equal. lia.
  - replace (bit <? Z.of_nat k - u8 unusedBits) with false
      by (symmetry; apply Z.ltb_ge; lia).
    reflexivity.
Qed.

(** The same through the dispatch of [parseKnownExtension]. *)
Lemma keyUsage_extension_bits node lengthByte unusedBits data :
  data <> [] -> (List.length data <= 6)%nat ->
  rawHexOrEmpty node = bytesToHex (x03 :: lengthByte :: unusedBits :: data) ->
  parseKnownExtension (DString (JS.js "2.5.29.15")) node
  = Return (KeyUsage
              (map (fun '(bit, label) => (label, keyUsageBit (u8 unusedBits) data bit))
                 KeyUsageLabels)).
Proof.
  intros Hne Hlen Hraw.
  rewrite <- (parseKeyUsage_bits node lengthByte unusedBits data Hne Hlen Hraw).
  reflexivity.
Qed.

(* ================================================================= *)
(** ** The decoder on particular inputs *)

(** *** The declared-length check and the 32-bit length *)

(** C2.  On [30 84 ff ff ff ff] the length is read as -1 (the shift
    [length << 8] wraps at 32 bits), the test
    [this.offset + lengthValue > this.buffer.byteLength] is therefore false,
    and the element is returned as a node of length -1, with no error at
    all.  On [04 84 ff ff ff ff] the test is passed in the same way and
    the failure comes later, from [new Uint8Array], as a [RangeError]
    reported at offset 6, not as the bounds error naming offset 0. *)
Theorem declared_length_check_wraps :
  readLength wrappedLength 1 = Ok (-1) 6
  /\ parseASN1 wrappedLength None None
     = Return (mkParsed
                 (Nodes [mkNode (Tag.mk 16 "30" UNIVERSAL true "SEQUENCE")
                           (Length.mk (-1) "84ffffffff")
                           (Children []) 0 "3084ffffff"])
                 [])
  /\ parseASN1 wrappedLengthPrimitive None None
     = Return (mkParsed (Nodes []) [mkParseError 6 RangeError]).
Proof. repeat split; vm_compute; reflexivity. Qed.

(** *** INTEGER decoding beyond 31 bits *)

(** C6.  The five bytes [01 00 00 00 00] are the integer 2^32 and decode to
    0; the four bytes [ff ff ff ff] are -1 and decode to -2; the four bytes
    [80 00 00 00] are -2^31 and decode to -2^31 - 1.  All three values are
    far below 53 bits. *)
Theorem decodeInteger_wraps_at_32_bits :
  twosComplement [x01; x00; x00; x00; x00] = 2 ^ 32
  /\ decodeInteger [x01; x00; x00; x00; x00] = 0
  /\ twosComplement [xff; xff; xff; xff] = -1
  /\ decodeInteger [xff; xff; xff; xff] = -2
  /\ twosComplement [x80; x00; x00; x00] = - 2 ^ 31
  /\ decodeInteger [x80; x00; x00; x00] = - 2 ^ 31 - 1.
Proof. repeat split; vm_compute; reflexivity. Qed.

(** *** basicConstraints *)

(** C9.  The value node of the extension is the primitive OCTET STRING, so
    [Array.isArray(node.value)] is false and [parseBasicConstraints] returns
    the empty object: [cA] is absent, although the raw hex, re-decoded the
    way the sibling decoders do it, holds the BOOLEAN [true].  With [cA]
    absent from the encoding the result is the empty object too, not
    [cA: false]. *)
Theorem basicConstraints_value_not_redecoded :
  parseKnownExtension (DString (JS.js "2.5.29.19")) (firstNode basicConstraintsCA)
  = Return (BasicConstraintsValue (mkBasicConstraints None None))
  /\ (r <-- topSequence (firstNode basicConstraintsCA) ;;
      Return (option_map (map (fun n => getDecoded (Some n))) r))
     = Return (Some [Some (DBoolean true)])
  /\ parseKnownExtension (DString (JS.js "2.5.29.19")) (firstNode basicConstraintsEmpty)
     = Return (BasicConstraintsValue (mkBasicConstraints None None)).
Proof. repeat split; vm_compute; reflexivity. Qed.

(** On a leaf, whatever it holds, [parseBasicConstraints] finds nothing. *)
Lemma parseBasicConstraints_leaf tag length leaf offset fullHex :
  parseBasicConstraints (Some (mkNode tag length (LeafValue leaf) offset fullHex))
  = Return (mkBasicConstraints None None).
Proof. reflexivity. Qed.

(** *** keyUsage *)

(** C8.  On fifty-six 1 bits [parseInt(bitsHex, 16)] rounds 2^56 - 1 to the
    double 2^56, whose binary digits are a 1 followed by zeros: only
    [digitalSignature] is reported, although the bits 1 to 8 of the bit
    string are 1 as well.  The example of the specification (data byte [80])
    decodes as stated. *)
Theorem keyUsage_rounds_long_bit_strings :
  JS.parseInt (JS.js "ffffffffffffff") 16 = JS.Num (2 ^ 56)
  /\ parseKnownExtension (DString (JS.js "2.5.29.15")) (firstNode keyUsageAllOnes)
     = Return (KeyUsage
                 [("digitalSignature", true); ("nonRepudiation", false);
                  ("keyEncipherment", false); ("dataEncipherment", false);
                  ("keyAgreement", false); ("keyCertSign", false);
                  ("cRLSign", false); ("encipherOnly", false);
                  ("decipherOnly", false)])
  /\ rawHexOrEmpty (firstNode keyUsageAllOnes) = bytesToHex (x03 :: x08 :: x00 :: sevenOnes)
  /\ map (fun '(bit, label) => (label, keyUsageBit 0 sevenOnes bit)) KeyUsageLabels
     = [("digitalSignature", true); ("nonRepudiation", true);
        ("keyEncipherment", true); ("dataEncipherment", true);
        ("keyAgreement", true); ("keyCertSign", true);
        ("cRLSign", true); ("encipherOnly", true);
        ("decipherOnly", true)]
  /\ parseKnownExtension (DString (JS.js "2.5.29.15")) (firstNode keyUsageDigitalSignature)
     = Return (KeyUsage
                 [("digitalSignature", true); ("nonRepudiation", false);
                  ("keyEncipherment", false); ("dataEncipherment", false);
                  ("keyAgreement", false); ("keyCertSign", false);
                  ("cRLSign", false); ("encipherOnly", false);
                  ("decipherOnly", false)]).
Proof. repeat split; vm_compute; reflexivity. Qed.

(** *** Certificates *)


(** A root SEQUENCE with two children is refused, but by the [TypeError] of
    reading the missing third child, not by the structural error. *)
Lemma root_with_two_children_throws_TypeError :
  decodeCertificate certificateTwoChildren = Raise TypeError.
Proof. vm_compute. reflexivity. Qed.


(** *** Time strings *)


(** *** Length fields of more than four bytes *)


(* ================================================================= *)
(** ** The theorems at particular inputs *)





(* ================================================================= *)
(** ** The TLV decoder: nodes, tags, lengths and primitive values *)

Lemma element_never_exhausted buffer off :
  0 <= off <= byteLength buffer -> element buffer off <> OutOfFuel.
Proof.
  intros H. unfold element. apply parseElement_fuel; unfold byteLength in *; lia.
Qed.

(** X1.  With [parseAll: false] only the first element is decoded.  The
    result is that node; it is [undefined] when the buffer is empty, and also
    when the element fails, the error being then in the error list.  With
    [simplify: true] as well, the empty buffer and the failure of the first
    element make the call throw a [TypeError] ([simplifyNode(undefined)]), and
    the error list is lost. *)
Theorem parse_first_element_only (buffer : list byte) :
  parseASN1 buffer (Some false) None
  = match buffer with
    | [] => Return (mkParsed (FirstNode None) [])
    | _ :: _ =>
        match element buffer 0 with
        | Ok node _ => Return (mkParsed (FirstNode (Some node)) [])
        | Throw e at_ => Return (mkParsed (FirstNode None) [mkParseError at_ e])
        | OutOfFuel => Exhausted
        end
    end
  /\ parseASN1 buffer (Some false) (Some true)
     = match buffer with
       | [] => Raise TypeError
       | _ :: _ =>
           match element buffer 0 with
           | Ok node _ => Return (mkParsed (FirstSimple (simplifyNode node)) [])
           | Throw e at_ => Raise TypeError
           | OutOfFuel => Exhausted
           end
       end
  /\ element buffer 0 <> OutOfFuel.
Proof.
  split; [|split].
  - destruct buffer as [|b rest]; [reflexivity|].
    unfold parseASN1, parse. cbn [parseAll simplify].
    cbn [parseLoop]. unfold byteLength, element.
    replace (0 <? Z.of_nat (List.length (b :: rest))) with true
      by (symmetry; apply Z.ltb_lt; cbn [List.length]; lia).
    destruct (parseElement (b :: rest) (S (List.length (b :: rest))) 0); reflexivity.
  - destruct buffer as [|b rest]; [reflexivity|].
    unfold parseASN1, parse. cbn [parseAll simplify].
    cbn [parseLoop]. unfold byteLength, element.
    replace (0 <? Z.of_nat (List.length (b :: rest))) with true
      by (symmetry; apply Z.ltb_lt; cbn [List.length]; lia).
    destruct (parseElement (b :: rest) (S (List.length (b :: rest))) 0); reflexivity.
  - apply element_never_exhausted. unfold byteLength. lia.
Qed.

(** *** Where the nodes lie *)

(** Induction on a node with the hypothesis for all its children. *)
Lemma Node_ind' (P : ASN1StructuredNode -> Prop) :
  (forall tag length nodes offset fullHex,
     Forall P nodes -> P (mkNode tag length (Children nodes) offset fullHex)) ->
  (forall tag length leaf offset fullHex,
     P (mkNode tag length (LeafValue leaf) offset fullHex)) ->
  forall node, P node.
Proof.
  intros Hc Hl. fix IH 1. intros [tag length [nodes|leaf] offset fullHex].
  - apply Hc. induction nodes as [|c rest IHrest]; constructor; [apply IH | exact IHrest].
  - apply Hl.
Qed.

Lemma everyNode_weaken (P Q : ASN1StructuredNode -> Prop) :
  (forall n, P n -> Q n) -> forall node, everyNode P node -> everyNode Q node.
Proof.
  intros HPQ node. induction node as [tag length nodes offset fullHex IH|] using Node_ind'.
  - intros H. apply everyNode_children in H. destruct H as [H1 H2].
    apply everyNode_children. split; [apply HPQ; exact H1|].
    rewrite Forall_forall in *. intros c Hin. apply IH; [exact Hin | apply H2; exact Hin].
  - intros [H _]. split; [apply HPQ; exact H | exact I].
Qed.

Lemma parseChildren_within rec fuel endOffset acc off value off' lo :
  (forall o n o', rec o = Ok n o' ->
     0 <= o /\ o + 2 <= o' /\ everyNode (within o o') n) ->
  lo <= off ->
  Forall (everyNode (within lo off)) acc ->
  parseChildren rec fuel endOffset acc off = Ok value off' ->
  off <= off' /\ Forall (everyNode (within lo off')) value.
Proof.
  intros Hrec. revert acc off.
  induction fuel as [|fuel IH]; intros acc off Hlo Hacc; simpl;
    destruct (off <? endOffset); try discriminate;
    try (intros H; inversion H; subst; split; [lia | assumption]).
  unfold bind. destruct (rec off) as [child o|e o|] eqn:R; try discriminate.
  destruct (Hrec _ _ _ R) as (H0 & H2 & Hc).
  intros H. apply IH in H.
  - destruct H as [H H']. split; [lia | exact H'].
  - lia.
  - apply Forall_app. split.
    + eapply Forall_impl; [|exact Hacc]. intros n.
      apply everyNode_weaken. unfold within. intros; lia.
    + constructor; [|constructor].
      revert Hc. apply everyNode_weaken. unfold within. intros; lia.
Qed.

(** X2.  An element that decodes lies within the buffer and spans at least
    two bytes; the node carries the offset decoding started at, and every
    node below it, at any depth, starts inside the bytes the element
    spans. *)
Theorem decoded_nodes_lie_within_their_element
    (buffer : list byte) (fuel : nat) (off : Z)
    (node : ASN1StructuredNode) (off' : Z) :
  parseElement buffer fuel off = Ok node off' ->
  0 <= off /\ off + 2 <= off' <= byteLength buffer
  /\ Node.offset node = off
  /\ everyNode (within off off') node.
Proof.
  intros H. pose proof (parseElement_advances buffer fuel _ _ _ H) as Hadv.
  split; [lia|]. split; [lia|].
  revert off node off' H Hadv.
  induction fuel as [|fuel IH]; intros off node off' H Hadv; [discriminate|].
  rewrite parseElement_S in H. apply parseElementBody_Ok in H.
  destruct H as (tagByte & o1 & tagNumber & o2 & lengthValue & o3 & R1 & R2 & R3 & _ & H).
  apply readByte_Ok in R1. destruct R1 as (Hoff & -> & _).
  apply readTagNumber_Ok in R2; [|lia].
  apply readLength_Ok in R3.
  cbv zeta in H. destruct (negb (JS.band tagByte 32 =? 0)).
  - destruct H as (value & H & ->). split; [reflexivity|].
    apply everyNode_children. split; [unfold within; cbn [Node.offset]; lia|].
    apply (parseChildren_within _ _ _ _ _ _ _ off) in H.
    + apply H.
    + intros o n o' R.
      pose proof (parseElement_advances buffer fuel _ _ _ R) as Ha.
      destruct (IH _ _ _ R Ha) as [_ Hw]. repeat split; try lia. exact Hw.
    + lia.
    + constructor.
  - destruct H as (valueBytes & _ & ->). split; [reflexivity|].
    split; [unfold within; cbn [Node.offset]; lia | exact I].
Qed.

(** *** What a node says of the bytes it was decoded from *)

Lemma getTagClass_byte (b : byte) : getTagClass (u8 b) = classOfByte (u8 b).
Proof. destruct b; reflexivity. Qed.

Lemma parseElement_every (P : ASN1StructuredNode -> Prop) buffer :
  (forall rec fuel off node off',
     parseElementBody buffer rec fuel off = Ok node off' -> advances buffer rec -> P node) ->
  forall fuel off node off',
    parseElement buffer fuel off = Ok node off' -> everyNode P node.
Proof.
  intros HP. induction fuel as [|fuel IH]; intros off node off' H; [discriminate|].
  rewrite parseElement_S in H.
  pose proof (HP _ _ _ _ _ H (parseElement_advances buffer fuel)) as Hnode.
  apply parseElementBody_Ok in H.
  destruct H as (tagByte & o1 & tagNumber & o2 & lengthValue & o3 & _ & _ & _ & _ & H).
  cbv zeta in H. destruct (negb (JS.band tagByte 32 =? 0)).
  - destruct H as (value & H & ->).
    apply everyNode_children. split; [exact Hnode|].
    eapply parseChildren_every; [exact IH | constructor | exact H].
  - destruct H as (valueBytes & _ & ->). split; [exact Hnode | exact I].
Qed.

(** X3.  In every node the decoder returns, at any depth, the tag record is
    read off the first byte of the element: [hex] is that byte in two hex
    digits (also when the tag number takes further bytes), [class] its two
    high bits, [constructed] its bit [0x20], and [number] its five low bits
    unless they are all 1.  The value is the array of children exactly when
    the constructed bit is set. *)
Theorem tag_record_is_read_off_first_byte
    (buffer : list byte) (fuel : nat) (off : Z)
    (node : ASN1StructuredNode) (off' : Z) :
  parseElement buffer fuel off = Ok node off' ->
  everyNode (tagOfFirstByte buffer) node.
Proof.
  apply parseElement_every. clear. intros rec fuel off node off' H _.
  apply parseElementBody_Ok in H.
  destruct H as (tagByte & o1 & tagNumber & o2 & lengthValue & o3 & R1 & R2 & _ & _ & H).
  apply readByte_Ok in R1. destruct R1 as (Hoff & -> & b & Hb & ->).
  assert (Hnum : u8 b mod 32 <> 31 -> tagNumber = u8 b mod 32).
  { intros Hne. unfold readTagNumber in R2. rewrite band_31_byte in R2.
    apply Z.eqb_neq in Hne. rewrite Hne in R2. unfold ret in R2. congruence. }
  cbv zeta in H. rewrite band_32_byte in H.
  destruct (Z.testbit (u8 b) 5) eqn:E.
  - destruct H as (value & _ & ->). exists b. cbn [Node.offset Node.tag Node.value
      Tag.hex Tag.class Tag.constructed Tag.number isArray].
    rewrite getTagClass_byte. repeat split; auto; lia.
  - destruct H as (valueBytes & _ & ->). exists b. cbn [Node.offset Node.tag Node.value
      Tag.hex Tag.class Tag.constructed Tag.number isArray].
    rewrite getTagClass_byte. repeat split; auto; lia.
Qed.

Lemma slice_within {A} (l : list A) a b :
  0 <= a <= b -> b <= len l ->
  slice l a b = firstn (Z.to_nat (b - a)) (skipn (Z.to_nat a) l)
  /\ len (slice l a b) = b - a.
Proof.
  intros Hab Hb. unfold slice, clampIndex. to_len.
  replace (a <? 0) with false by (symmetry; apply Z.ltb_ge; lia).
  replace (b <? 0) with false by (symmetry; apply Z.ltb_ge; lia).
  rewrite !Z.min_l by lia. split; [reflexivity|].
  unfold len in *. rewrite length_firstn, length_skipn. lia.
Qed.

(** X4.  In every node the decoder returns, at any depth, a primitive node
    has a non-negative [length.value], lies within the buffer, and its hex
    dumps are those of the buffer: [fullHex] of the bytes from its offset to
    its end, [rawHex] of the last [length.value] of them; [rawHex] has two
    hex digits per content byte. *)
Theorem primitive_hex_dumps_are_faithful
    (buffer : list byte) (fuel : nat) (off : Z)
    (node : ASN1StructuredNode) (off' : Z) :
  parseElement buffer fuel off = Ok node off' ->
  everyNode (faithfulLeaf buffer) node.
Proof.
  apply parseElement_every. clear. intros rec fuel off node off' H Hrec.
  pose proof (parseElementBody_advances buffer rec fuel Hrec _ _ _ H) as Hadv.
  apply parseElementBody_Ok in H.
  destruct H as (tagByte & o1 & tagNumber & o2 & lengthValue & o3 & R1 & R2 & R3 & _ & H).
  apply readByte_Ok in R1. destruct R1 as (Hoff & -> & _).
  apply readTagNumber_Ok in R2; [|lia]. apply readLength_Ok in R3.
  cbv zeta in H. destruct (negb (JS.band tagByte 32 =? 0)).
  - destruct H as (value & _ & ->). exact I.
  - destruct H as (valueBytes & R4 & ->).
    apply readBytes_Ok in R4. destruct R4 as (Hn & _ & -> & Hend & ->).
    unfold faithfulLeaf. cbn [Node.value Node.offset Node.length Node.fullHex Length.value].
    cbv zeta.
    assert (Hspan : span (mkNode (Tag.mk tagNumber (hexByte tagByte) (getTagClass tagByte)
                                    false (tagToType tagNumber))
                            (Length.mk lengthValue (bytesToHex (slice buffer o2 o3)))
                            (LeafValue (decodeLeaf tagNumber
                               (firstn (Z.to_nat lengthValue) (skipn (Z.to_nat o3) buffer))))
                            off (bytesToHex (slice buffer off (o3 + lengthValue))))
                    = o3 + lengthValue - off).
    { unfold span. cbn [Node.fullHex]. rewrite bytesToHex_length.
      destruct (slice_within buffer off (o3 + lengthValue)) as [_ ->];
        [lia | unfold byteLength in *; unfold len; lia |].
      rewrite Z.mul_comm, Z.div_mul by lia. reflexivity. }
    rewrite Hspan.
    replace (off + (o3 + lengthValue - off)) with (o3 + lengthValue) by lia.
    replace (o3 + lengthValue - lengthValue) with o3 by lia.
    split; [lia|]. split; [lia|]. split; [lia|]. split; [reflexivity|].
    cbn [decodeLeaf Leaf.rawHex].
    destruct (slice_within buffer o3 (o3 + lengthValue)) as [Hs Hl];
      [lia | unfold byteLength in *; unfold len; lia |].
    replace (o3 + lengthValue - o3) with lengthValue in Hs, Hl by lia.
    rewrite <- Hs. split; [reflexivity|].
    unfold stringLength. rewrite bytesToHex_length, Hl. reflexivity.
Qed.

(** *** Length fields the decoder refuses *)

Lemma parseElement_length_throws buffer fuel off tagByte o1 tagNumber o2 e o3 :
  readByte buffer off = Ok tagByte o1 ->
  readTagNumber buffer tagByte o1 = Ok tagNumber o2 ->
  readLength buffer o2 = Throw e o3 ->
  parseElement buffer (S fuel) off = Throw e o3.
Proof.
  intros R1 R2 R3. rewrite parseElement_S.
  unfold parseElementBody, bind, position. rewrite R1, R2, R3. reflexivity.
Qed.

(** X5.  After a well-formed tag, a length byte [0x80] (the indefinite
    form) or above [0x84] (more than four length bytes) makes the element
    fail with "Invalid length encoding", the message naming the offset of
    that length byte; a long form of one to four length bytes that the
    buffer does not hold in full makes it fail with "Length extends beyond
    buffer", the message naming the offset after the length byte.  In both
    cases the cursor is left after the length byte. *)
Theorem unsupported_length_forms_are_refused
    (pre tagBytes : list byte) (b : byte) (rest : list byte)
    (constructed : bool) (fuel : nat) :
  validTag constructed tagBytes = true ->
  let buffer := (pre ++ tagBytes ++ b :: rest)%list in
  let at_ := len pre + len tagBytes in
  (u8 b = 128 \/ 133 <= u8 b ->
   parseElement buffer (S fuel) (len pre)
   = Throw (Error ("Invalid length encoding at offset " ++ JS.intToString 10 at_))
       (at_ + 1))
  /\ (129 <= u8 b <= 132 -> len rest < u8 b - 128 ->
      parseElement buffer (S fuel) (len pre)
      = Throw (Error ("Length extends beyond buffer at offset "
                      ++ JS.intToString 10 (at_ + 1)))
          (at_ + 1)).
Proof.
  intros Htag buffer at_.
  destruct (readTag_at pre constructed tagBytes (b :: rest) Htag)
    as (t & tail & tagNumber & Etag & R1 & Hc & R2).
  pose proof (readByte_at (pre ++ tagBytes) b rest) as Rb.
  rewrite <- app_assoc, len_app in Rb. fold buffer in Rb, R1, R2.
  pose proof (u8_range b) as Hb.
  pose proof (len_nonneg pre). pose proof (len_nonneg tagBytes).
  pose proof (len_nonneg rest).
  assert (Hlen : byteLength buffer = len pre + len tagBytes + 1 + len rest).
  { unfold buffer. to_len. rewrite !len_app, len_cons. lia. }
  split.
  - intros Hform. apply (parseElement_length_throws _ _ _ _ _ _ _ _ _ R1 R2).
    unfold readLength, bind. rewrite Rb.
    rewrite band_128_byte, band_127_byte.
    replace (u8 b <? 128) with false by (symmetry; apply Z.ltb_ge; lia).
    unfold position.
    replace ((u8 b mod 128 =? 0) || (4 <? u8 b mod 128)) with true.
    + unfold throw. do 3 f_equal. fold at_. f_equal. lia.
    + symmetry. apply orb_true_iff.
      assert (Hm : u8 b mod 128 = u8 b - 128)
        by (symmetry; apply (Z.mod_unique_pos _ _ 1); lia).
      rewrite Hm. destruct Hform; [left; apply Z.eqb_eq | right; apply Z.ltb_lt]; lia.
  - intros Hform Hshort. apply (parseElement_length_throws _ _ _ _ _ _ _ _ _ R1 R2).
    unfold readLength, bind. rewrite Rb.
    rewrite band_128_byte, band_127_byte.
    replace (u8 b <? 128) with false by (symmetry; apply Z.ltb_ge; lia).
    unfold position.
    assert (Hm : u8 b mod 128 = u8 b - 128)
      by (symmetry; apply (Z.mod_unique_pos _ _ 1); lia).
    rewrite Hm.
    replace ((u8 b - 128 =? 0) || (4 <? u8 b - 128)) with false
      by (symmetry; apply orb_false_iff; split; [apply Z.eqb_neq | apply Z.ltb_ge]; lia).
    rewrite Hlen.
    replace (len pre + len tagBytes + 1 + len rest
             <? len pre + len tagBytes + 1 + (u8 b - 128)) with true
      by (symmetry; apply Z.ltb_lt; lia).
    reflexivity.
Qed.

(** *** Base-128 numbers: tag numbers and the arcs of object identifiers *)

Lemma shift_or_seven acc b :
  0 <= acc -> acc * 128 + u8 b mod 128 < 2 ^ 31 ->
  JS.bor (JS.shl acc 7) (JS.band (u8 b) 127) = acc * 128 + u8 b mod 128.
Proof.
  intros Ha Hlt. rewrite band_127_byte.
  pose proof (Z.mod_pos_bound (u8 b) 128 ltac:(lia)) as Hm.
  set (d := u8 b mod 128) in *.
  unfold JS.bor, JS.shl. replace (7 mod 32) with 7 by reflexivity.
  rewrite (ToInt32_small acc) by lia.
  rewrite Z.shiftl_mul_pow2 by lia. replace (2 ^ 7) with 128 by reflexivity.
  rewrite (ToInt32_small (acc * 128)) by lia.
  rewrite (ToInt32_small (acc * 128)) by lia.
  rewrite (ToInt32_small d) by lia.
  pose proof (Z.add_lor_land (acc * 128) d) as H.
  assert (Hland : Z.land (acc * 128) d = 0).
  { assert (Hd : d = Z.land d (Z.ones 7)).
    { rewrite Z.land_ones by lia. rewrite Z.mod_small; [reflexivity|]. cbn. lia. }
    rewrite Hd. rewrite (Z.land_comm d), Z.land_assoc.
    rewrite Z.land_ones by lia. replace (2 ^ 7) with 128 by reflexivity.
    rewrite Z.mod_mul by lia. reflexivity. }
  rewrite Hland in H. lia.
Qed.

Lemma base128From_le acc bytes : 0 <= acc -> acc <= base128From acc bytes.
Proof.
  revert acc. induction bytes as [|b bytes IH]; intros acc Ha; [cbn; lia|].
  cbn [base128From fold_left].
  pose proof (Z.mod_pos_bound (u8 b) 128 ltac:(lia)).
  pose proof (IH (acc * 128 + u8 b mod 128) ltac:(lia)) as H1.
  unfold base128From in H1. lia.
Qed.

Lemma tagNumberLoop_value rest more acc off :
  continuation rest = true -> 0 <= acc -> base128From acc rest < 2 ^ 31 ->
  tagNumberLoop (rest ++ more) acc off = Ok (base128From acc rest) (off + len rest).
Proof.
  revert acc off. induction rest as [|b rest IH]; intros acc off H Ha Hlt; [discriminate|].
  cbn [app tagNumberLoop]. rewrite band_128_byte. cbv zeta.
  pose proof (Z.mod_pos_bound (u8 b) 128 ltac:(lia)) as Hm.
  cbn [base128From fold_left] in Hlt |- *.
  pose proof (base128From_le (acc * 128 + u8 b mod 128) rest ltac:(lia)) as Hle.
  unfold base128From in Hle.
  rewrite shift_or_seven by lia.
  destruct rest as [|b' rest'].
  - cbn in H. rewrite H. cbn [fold_left]. f_equal.
  - cbn [continuation] in H. apply andb_true_iff in H. destruct H as [H1 H2].
    apply Z.leb_le in H1.
    replace (u8 b <? 128) with false by (symmetry; apply Z.ltb_ge; lia).
    unfold base128From in IH. rewrite IH by (try assumption; lia).
    f_equal. rewrite (len_cons b). lia.
Qed.

(** X6.  A tag whose first byte has its five low bits all 1 carries its
    number in the bytes that follow, base 128, most significant digit first,
    the last of them being the first without the high bit: when that number
    is below 2^31, it is the [tag.number] of the node. *)
Theorem high_tag_number_is_base_128
    (pre : list byte) (t : byte) (digits rest : list byte)
    (fuel : nat) (node : ASN1StructuredNode) (off' : Z) :
  u8 t mod 32 = 31 ->
  continuation digits = true ->
  base128 digits < 2 ^ 31 ->
  parseElement (pre ++ t :: digits ++ rest) fuel (len pre) = Ok node off' ->
  Tag.number (Node.tag node) = base128 digits.
Proof.
  intros Ht Hc Hlt H. destruct fuel as [|fuel]; [discriminate|].
  rewrite parseElement_S in H. apply parseElementBody_Ok in H.
  destruct H as (tagByte & o1 & tagNumber & o2 & lengthValue & o3 & R1 & R2 & _ & _ & H).
  rewrite readByte_at in R1. injection R1 as <- <-.
  assert (E : tagNumber = base128 digits).
  { unfold readTagNumber in R2. rewrite band_31_byte, Ht in R2.
    replace (31 =? 31) with true in R2 by reflexivity.
    replace (pre ++ t :: digits ++ rest)%list
      with ((pre ++ [t]) ++ digits ++ rest)%list in R2
      by (rewrite <- app_assoc; reflexivity).
    replace (len pre + 1) with (len (pre ++ [t])%list) in R2
      by (rewrite len_app; reflexivity).
    rewrite skipn_len_app in R2.
    rewrite (tagNumberLoop_value digits rest 0) in R2 by (try assumption; lia).
    injection R2 as <- _. reflexivity. }
  cbv zeta in H. destruct (negb (JS.band (u8 t) 32 =? 0)).
  - destruct H as (value & _ & ->). exact E.
  - destruct H as (valueBytes & _ & ->). exact E.
Qed.

Lemma decodeOIDArcs_step group rest acc :
  continuation group = true -> 0 <= acc -> base128From acc group < 2 ^ 31 ->
  decodeOIDArcs (group ++ rest) acc = base128From acc group :: decodeOIDArcs rest 0.
Proof.
  revert acc. induction group as [|b group IH]; intros acc H Ha Hlt; [discriminate|].
  cbn [app decodeOIDArcs]. rewrite band_128_byte. cbv zeta.
  pose proof (Z.mod_pos_bound (u8 b) 128 ltac:(lia)) as Hm.
  cbn [base128From fold_left] in Hlt |- *.
  pose proof (base128From_le (acc * 128 + u8 b mod 128) group ltac:(lia)) as Hle.
  unfold base128From in Hle.
  rewrite shift_or_seven by lia.
  destruct group as [|b' group'].
  - cbn in H. rewrite H. reflexivity.
  - cbn [continuation] in H. apply andb_true_iff in H. destruct H as [H1 H2].
    apply Z.leb_le in H1.
    replace (u8 b <? 128) with false by (symmetry; apply Z.ltb_ge; lia).
    unfold base128From in IH. apply IH; try assumption; lia.
Qed.

(** X7.  [decodeOID] prints the first content byte as the two arcs
    [byte / 40] and [byte % 40], and every arc after it as the number its
    base-128 digits stand for, the arcs joined by dots: for content made of a
    first byte and of well-formed arcs below 2^31, the text is that of these
    numbers.  Empty content gives the empty string. *)
Theorem decodeOID_prints_the_arcs (first : byte) (arcs : list (list byte)) :
  forallb arcBytes arcs = true ->
  decodeOID (first :: List.concat arcs)
  = JS.js (String.concat "."
             (map (JS.intToString 10)
                  (u8 first / 40 :: u8 first mod 40 :: map base128 arcs)))
  /\ decodeOID [] = [].
Proof.
  intros H. split; [|reflexivity].
  assert (Harcs : decodeOIDArcs (List.concat arcs) 0 = map base128 arcs).
  { induction arcs as [|g arcs IH]; [reflexivity|].
    cbn [forallb] in H. apply andb_true_iff in H. destruct H as [Hg H].
    unfold arcBytes in Hg. apply andb_true_iff in Hg. destruct Hg as [Hc Hlt].
    apply Z.ltb_lt in Hlt.
    cbn [List.concat map]. rewrite decodeOIDArcs_step by (try assumption; lia).
    rewrite IH by exact H. reflexivity. }
  unfold decodeOID. rewrite Harcs. reflexivity.
Qed.

(** *** GeneralizedTime *)

Lemma parseInt_four_digits a b c d :
  isDigit a = true -> isDigit b = true -> isDigit c = true -> isDigit d = true ->
  JS.parseInt [a; b; c; d] 10 = JS.Num (digitsValue [a; b; c; d]).
Proof.
  intros Ha Hb Hc Hd.
  assert (Hhead : JS.parseInt [a; b; c; d] 10
                  = match JS.parseDigits 10 None [a; b; c; d] with
                    | None => JS.NaN
                    | Some v => JS.roundDouble v
                    end).
  { apply isDigit_cases in Ha.
    repeat (destruct Ha as [Ha|Ha]); subst a; reflexivity. }
  rewrite Hhead.
  assert (Hv : forall x, isDigit x = true -> JS.digitValue x = Some (x - 48) /\ 0 <= x - 48 < 10).
  { intros x Hx. unfold JS.digitValue. unfold isDigit in Hx. rewrite Hx.
    apply andb_true_iff in Hx. destruct Hx as [H1 H2]. apply Z.leb_le in H1, H2.
    split; [reflexivity | lia]. }
  destruct (Hv a Ha) as [Ea Ra]. destruct (Hv b Hb) as [Eb Rb].
  destruct (Hv c Hc) as [Ec Rc]. destruct (Hv d Hd) as [Ed Rd].
  cbn [JS.parseDigits]. rewrite Ea, Eb, Ec, Ed.
  replace (a - 48 <? 10) with true by (symmetry; apply Z.ltb_lt; lia).
  replace (b - 48 <? 10) with true by (symmetry; apply Z.ltb_lt; lia).
  replace (c - 48 <? 10) with true by (symmetry; apply Z.ltb_lt; lia).
  replace (d - 48 <? 10) with true by (symmetry; apply Z.ltb_lt; lia).
  unfold digitsValue. cbn [fold_left].
  replace (0 * 10 + (a - 48)) with (a - 48) by lia.
  apply roundDouble_exact.
  assert (2 ^ 53 = 9007199254740992) as -> by reflexivity. lia.
Qed.

Lemma isGeneralizedTimeForm_cases s :
  isGeneralizedTimeForm s = true ->
  (exists a b c d e f g h i j k l,
      s = [a; b; c; d; e; f; g; h; i; j; k; l; 90]
      /\ forallb isDigit [a; b; c; d; e; f; g; h; i; j; k; l] = true)
  \/ (exists a b c d e f g h i j k l m n,
      s = [a; b; c; d; e; f; g; h; i; j; k; l; m; n; 90]
      /\ forallb isDigit [a; b; c; d; e; f; g; h; i; j; k; l; m; n] = true).
Proof.
  unfold isGeneralizedTimeForm. intros H. apply andb_true_iff in H. destruct H as [Hlen H].
  do 13 (destruct s as [|? s]; [discriminate Hlen|]).
  destruct s as [|? s].
  { left. cbn [rev app] in H. apply andb_true_iff in H. destruct H as [Hz H].
    apply Z.eqb_eq in Hz. subst.
    do 12 eexists. split; [reflexivity|].
    cbn [forallb] in *. repeat (apply andb_true_iff in H; destruct H as [? H]).
    rewrite_digits. reflexivity. }
  destruct s as [|? s]; [discriminate Hlen|].
  destruct s as [|? s]; [|cbn in Hlen; discriminate Hlen].
  right. cbn [rev app] in H. apply andb_true_iff in H. destruct H as [Hz H].
  apply Z.eqb_eq in Hz. subst.
  do 14 eexists. split; [reflexivity|].
  cbn [forallb] in *. repeat (apply andb_true_iff in H; destruct H as [? H]).
  rewrite_digits. reflexivity.
Qed.

Lemma matchTime_general s :
  isGeneralizedTimeForm s = false -> matchTime 4 s = None.
Proof.
  intros H. unfold matchTime. change (4 + 8)%nat with 12%nat.
  destruct (forallb isDigit (firstn 12 s) && (12 <=? List.length s)%nat) eqn:E;
    [|reflexivity].
  apply andb_true_iff in E. destruct E as [Hd Hl]. apply Nat.leb_le in Hl.
  assert (Hfl : List.length (firstn 12 s) = 12%nat)
    by (rewrite length_firstn; lia).
  rewrite <- (firstn_skipn 12 s) in H.
  destruct (skipn 12 s) as [|x [|y [|z [|w rest]]]]; try reflexivity.
  - destruct (x =? 90) eqn:Ex; [|reflexivity]. exfalso.
    revert H. unfold isGeneralizedTimeForm.
    rewrite length_app, Hfl, rev_app_distr.
    cbn [List.length Nat.add Nat.eqb orb rev app andb].
    rewrite Ex, forallb_rev, Hd. discriminate.
  - destruct ((z =? 90) && isDigit x && isDigit y) eqn:Ex; [|reflexivity]. exfalso.
    apply andb_true_iff in Ex. destruct Ex as [Ex Hy].
    apply andb_true_iff in Ex. destruct Ex as [Ez Hx].
    revert H. unfold isGeneralizedTimeForm.
    rewrite length_app, Hfl, rev_app_distr.
    cbn [List.length Nat.add Nat.eqb orb rev app andb forallb].
    rewrite Ez, forallb_rev, Hd, Hx, Hy. discriminate.
Qed.

(** X8.  [decodeDate] on a GeneralizedTime (tag number 24): a content string
    of the pattern YYYYMMDDhhmm[ss]Z yields the instant [Date.UTC] gives for
    its fields, the seconds being 0 when absent; any other string, so any
    string with a fraction of a second or a time zone offset, is returned
    unchanged.  For a tag number other than 23 and 24 the string is returned
    unchanged.  [Date.UTC] reads a year from 0 to 99 as 1900 plus that
    year. *)
Theorem generalizedTime_decoding :
  (forall bytes,
      isGeneralizedTimeForm (decodeString bytes) = true ->
      decodeDate bytes 24 = DDate (generalizedInstant (decodeString bytes)))
  /\ (forall bytes,
        isGeneralizedTimeForm (decodeString bytes) = false ->
        decodeDate bytes 24 = DString (decodeString bytes))
  /\ (forall bytes tagNumber,
        tagNumber <> 23 -> tagNumber <> 24 ->
        decodeDate bytes tagNumber = DString (decodeString bytes))
  /\ (forall y month day hour minute second,
        0 <= y <= 99 ->
        JS.Date_UTC (JS.Num y) month day hour minute second
        = JS.Date_UTC (JS.Num (1900 + y)) month day hour minute second).
Proof.
  split; [|split; [|split]].
  - intros bytes. unfold decodeDate. generalize (decodeString bytes). intros s H.
    replace (24 =? 23) with false by reflexivity.
    replace (24 =? 24) with true by reflexivity.
    apply isGeneralizedTimeForm_cases in H.
    destruct H as [(a & b & c & d & e & f & g & h & i & j & k & l & -> & H)
                  |(a & b & c & d & e & f & g & h & i & j & k & l & m & n & -> & H)];
      cbn [forallb] in H; repeat (apply andb_true_iff in H; destruct H as [? H]);
      unfold matchTime; cbn [Nat.add firstn skipn forallb List.length Nat.leb];
      replace (90 =? 90) with true by reflexivity;
      rewrite_digits; cbn [andb]; cbv iota beta;
      rewrite parseInt_four_digits by assumption;
      rewrite !parseInt_two_digits by assumption;
      unfold generalizedInstant; cbn [nth List.length Nat.eqb JS.add firstn];
      reflexivity.
  - intros bytes H. unfold decodeDate. rewrite (matchTime_general _ H). reflexivity.
  - intros bytes tagNumber H23 H24. unfold decodeDate.
    apply Z.eqb_neq in H23, H24. rewrite H23, H24. reflexivity.
  - intros y month day hour minute second Hy. unfold JS.Date_UTC.
    destruct month, day, hour, minute, second; try reflexivity.
    replace ((0 <=? y) && (y <=? 99)) with true
      by (symmetry; apply andb_true_iff; split; apply Z.leb_le; lia).
    replace ((0 <=? 1900 + y) && (1900 + y <=? 99)) with false
      by (symmetry; apply andb_false_iff; right; apply Z.leb_gt; lia).
    reflexivity.
Qed.

(* ================================================================= *)
(** ** The mapper: hex strings, names and extension values *)

(** *** Hex strings back to bytes *)

Lemma hexPairs_hexByte b (s : string) :
  hexPairs (list_ascii_of_string (hexByte (u8 b) ++ s))
  = b :: hexPairs (list_ascii_of_string s).
Proof. destruct b; reflexivity. Qed.

Lemma hexPairs_bytesToHex bytes :
  hexPairs (list_ascii_of_string (bytesToHex bytes)) = bytes.
Proof.
  induction bytes as [|b bytes IH]; [reflexivity|].
  rewrite bytesToHex_cons, hexPairs_hexByte, IH. reflexivity.
Qed.

Lemma asciiPairs_hexByte b (s : string) :
  asciiPairs (list_ascii_of_string (hexByte (u8 b) ++ s))
  = match asciiPairs (list_ascii_of_string s) with
    | Some t => Some (u8 b :: t)
    | None => None
    end.
Proof. destruct b; reflexivity. Qed.

Lemma asciiPairs_bytesToHex bytes :
  asciiPairs (list_ascii_of_string (bytesToHex bytes)) = Some (map u8 bytes).
Proof.
  induction bytes as [|b bytes IH]; [reflexivity|].
  rewrite bytesToHex_cons, asciiPairs_hexByte, IH. reflexivity.
Qed.

Lemma bytesToHex_even bytes : Nat.even (String.length (bytesToHex bytes)) = true.
Proof.
  pose proof (bytesToHex_length bytes) as H. unfold len in H.
  apply Nat.even_spec. exists (List.length bytes). lia.
Qed.

Lemma hexToArrayBuffer_bytesToHex bytes :
  hexToArrayBuffer (bytesToHex bytes) = Return bytes.
Proof.
  unfold hexToArrayBuffer. rewrite bytesToHex_even, hexPairs_bytesToHex. reflexivity.
Qed.

(** X9.  The hex strings the TLV decoder writes are read back exactly by
    the mapper: [hexToArrayBuffer] returns the bytes [bytesToHex] was given,
    and [hexToAsciiSafe] their character codes, one character per byte. *)
Theorem hex_dump_round_trip (bytes : list byte) :
  hexToArrayBuffer (bytesToHex bytes) = Return bytes
  /\ hexToAsciiSafe (bytesToHex bytes) = map u8 bytes.
Proof.
  split.
  - unfold hexToArrayBuffer. rewrite bytesToHex_even, hexPairs_bytesToHex. reflexivity.
  - unfold hexToAsciiSafe. rewrite bytesToHex_even, asciiPairs_bytesToHex. reflexivity.
Qed.

Lemma hexPairs_length (l : list ascii) :
  List.length (hexPairs l) = Nat.div2 (List.length l).
Proof.
  revert l. fix IH 1. intros [|c1 [|c2 rest]]; [reflexivity | reflexivity |].
  cbn [hexPairs List.length Nat.div2]. rewrite IH. reflexivity.
Qed.

(** X10.  [hexToArrayBuffer] throws "Invalid hex string" exactly when the
    string has an odd number of characters; otherwise it returns one byte for
    every two characters, whatever the characters are (a pair that is not a
    hexadecimal number gives the byte 0). *)
Theorem hexToArrayBuffer_fails_on_odd_length_only (hex : string) :
  (Nat.even (String.length hex) = false ->
   hexToArrayBuffer hex = Raise (Error "Invalid hex string"))
  /\ (Nat.even (String.length hex) = true ->
      exists bytes,
        hexToArrayBuffer hex = Return bytes
        /\ (2 * List.length bytes = String.length hex)%nat)
  /\ hexToArrayBuffer "zz" = Return [x00].
Proof.
  split; [|split].
  - intros H. unfold hexToArrayBuffer. rewrite H. reflexivity.
  - intros H. unfold hexToArrayBuffer. rewrite H. eexists. split; [reflexivity|].
    rewrite hexPairs_length, list_ascii_length.
    apply Nat.even_spec in H. destruct H as [k ->].
    rewrite Nat.div2_double. reflexivity.
  - reflexivity.
Qed.

(** *** Re-decoding the value of an extension *)


Lemma bytesToHex_nonempty b rest : bytesToHex (b :: rest) <> "".
Proof.
  rewrite bytesToHex_cons. intros H.
  apply (f_equal String.length) in H.
  rewrite string_length_append, hexByte_length in H. discriminate.
Qed.


(** *** Calls that return, calls that throw *)

Lemma parseASN1_all_returns buffer :
  exists nodes errors,
    parseASN1 buffer (Some true) None = Return (mkParsed (Nodes nodes) errors).
Proof.
  unfold parseASN1, parse.
  destruct (parseLoop_all buffer false (S (List.length buffer)) [] 0)
    as (nodes & stop & _ & H).
  - constructor.
  - pose proof (byteLength_nonneg buffer). lia.
  - unfold byteLength. lia.
  - destruct H as [[_ H]|(_ & e & at_ & _ & H)]; rewrite H; cbn; eauto.
Qed.

Lemma parseAllNodes_returns buffer : exists nodes, parseAllNodes buffer = Return nodes.
Proof.
  unfold parseAllNodes. destruct (parseASN1_all_returns buffer) as (nodes & errors & ->).
  cbn. eauto.
Qed.

Lemma throws_mapM {A B} (f : A -> completion B) (l : list A) (x : A) :
  (forall a, halts (f a)) -> In x l -> throws (f x) -> throws (mapM f l).
Proof.
  intros Hf Hin Hx. induction l as [|a l IH]; [destruct Hin|].
  cbn [mapM]. destruct (f a) as [b|e|] eqn:E.
  - cbn [andThen]. destruct Hin as [->|Hin].
    + destruct Hx as [e He]. congruence.
    + destruct (IH Hin) as [e He]. rewrite He. exists e. reflexivity.
  - exists e. reflexivity.
  - exfalso. exact (Hf a E).
Qed.

(** X12.  A subjectAltName that holds a registeredID (a context-specific
    name of number 8) cannot be decoded: [parseRegisteredID] hands to
    [getDecoded] the array of nodes that [parseASN1] returned, and reading
    [value.decoded] of it throws, so that [decodeGeneralName] throws for
    every such name and [parseSubjectAltName] for every value that holds
    one. *)
Theorem registeredID_name_always_throws :
  (forall name, throws (parseRegisteredID name))
  /\ (forall name, Tag.number (Node.tag name) = 8 -> throws (decodeGeneralName name))
  /\ (forall node names name,
        parseASN1FromRawHex node = Return names ->
        In name names -> isContextSpecific name = true ->
        Tag.number (Node.tag name) = 8 ->
        throws (parseSubjectAltName node)).
Proof.
  assert (H1 : forall name, throws (parseRegisteredID name)).
  { intros name. unfold parseRegisteredID.
    destruct (hexToArrayBuffer (Node.fullHex name)) as [buffer|e|] eqn:E.
    - cbn [andThen]. destruct (parseASN1_all_returns buffer) as (nodes & errors & ->).
      cbn. exists TypeError. reflexivity.
    - exists e. reflexivity.
    - exfalso. exact (hexToArrayBuffer_halts _ E). }
  assert (H2 : forall name, Tag.number (Node.tag name) = 8 -> throws (decodeGeneralName name)).
  { intros name H8. unfold decodeGeneralName. rewrite H8. cbn [Z.eqb Pos.eqb].
    destruct (H1 name) as [e ->]. exists e. reflexivity. }
  split; [exact H1|]. split; [exact H2|].
  intros node names name Hnames Hin Hctx H8.
  unfold parseSubjectAltName. rewrite Hnames. cbn [andThen].
  apply (throws_mapM _ _ name).
  - apply decodeGeneralName_halts.
  - apply filter_In. split; assumption.
  - apply H2. exact H8.
Qed.

(** *** The table of object identifiers *)

Lemma jsstring_eqb_eq a b : JS.jsstring_eqb a b = true <-> a = b.
Proof.
  unfold JS.jsstring_eqb. destruct (list_eq_dec Z.eq_dec a b); split; congruence.
Qed.

Lemma lookup_none key table :
  (forall k v, In (k, v) table -> key <> JS.js k) -> lookup key table = None.
Proof.
  induction table as [|[k v] rest IH]; intros H; [reflexivity|].
  cbn [lookup]. destruct (JS.jsstring_eqb key (JS.js k)) eqn:E.
  - apply jsstring_eqb_eq in E. exfalso. apply (H k v); [left; reflexivity | exact E].
  - apply IH. intros k' v' Hin. apply (H k' v'). right. exact Hin.
Qed.

(** X13.  [getOIDLabel] on the table [OID_MAP]: the keys of the table are
    pairwise distinct, and every key is given the label written beside it;
    the nine object identifiers [parseKnownExtension] dispatches on are keys
    of the table; a string that is no key of the table, and no name of a
    property inherited from [Object.prototype], is given the text
    "Unknown OID (...)" made from it, as is a value that is not a string. *)
Theorem getOIDLabel_reads_the_table :
  NoDup (map fst OID_MAP)
  /\ (forall k v, In (k, v) OID_MAP -> getOIDLabel (DString (JS.js k)) = LabelText v)
  /\ (forall k, In k knownExtensionOIDs -> In k (map fst OID_MAP))
  /\ (forall s,
        (forall k v, In (k, v) OID_MAP -> s <> JS.js k) ->
        (forall k, In k objectPrototypeKeys -> s <> JS.js k) ->
        getOIDLabel (DString s) = UnknownOID (DString s))
  /\ (forall d, (forall s, d <> DString s) -> getOIDLabel d = UnknownOID d).
Proof.
  split; [|split; [|split; [|split]]].
  - assert (H : nodup string_dec (map fst OID_MAP) = map fst OID_MAP)
      by (vm_compute; reflexivity).
    rewrite <- H. apply NoDup_nodup.
  - assert (H : forallb (fun kv => match lookup (JS.js (fst kv)) OID_MAP with
                                   | Some l => String.eqb l (snd kv)
                                   | None => false
                                   end) OID_MAP = true)
      by (vm_compute; reflexivity).
    rewrite forallb_forall in H. intros k v Hin. specialize (H _ Hin).
    cbn [fst snd] in H. unfold getOIDLabel.
    destruct (lookup (JS.js k) OID_MAP) as [l|]; [|discriminate].
    apply String.eqb_eq in H. subst. reflexivity.
  - assert (H : forallb (fun k => if in_dec string_dec k (map fst OID_MAP) then true else false)
                  knownExtensionOIDs = true)
      by (vm_compute; reflexivity).
    rewrite forallb_forall in H. intros k Hin. specialize (H _ Hin).
    destruct (in_dec string_dec k (map fst OID_MAP)); [assumption | discriminate].
  - intros s Htable Hproto. unfold getOIDLabel.
    rewrite (lookup_none s OID_MAP Htable).
    destruct (find (fun k => JS.jsstring_eqb s (JS.js k)) objectPrototypeKeys) as [k|] eqn:E;
      [|reflexivity].
    apply find_some in E. destruct E as [Hin E]. apply jsstring_eqb_eq in E.
    exfalso. exact (Hproto k Hin E).
  - intros d Hd. destruct d; try reflexivity. exfalso. exact (Hd s eq_refl).
Qed.

(** *** Names *)




(** *** Extension decoders that do not throw *)

Lemma topSequence_returns node :
  Nat.even (String.length (rawHexOrEmpty node)) = true ->
  exists r, topSequence node = Return r.
Proof.
  unfold rawHexOrEmpty, topSequence.
  destruct (getRawHex node) as [hex|]; [|eauto].
  intros Heven. destruct hex as [|c hex]; [eauto|].
  unfold hexToArrayBuffer. rewrite Heven. cbn [andThen].
  destruct (parseAllNodes_returns (hexPairs (list_ascii_of_string (String c hex))))
    as (nodes & ->).
  cbn [andThen]. destruct (findSequence nodes) as [topSeq|]; [|eauto].
  destruct (Node.value topSeq); eauto.
Qed.

(** X15.  On a value node whose raw hex has an even number of characters,
    as every raw hex the TLV decoder writes has, and on [undefined], the
    decoders of extendedKeyUsage, authorityKeyIdentifier and qcStatements
    return: whatever the bytes are, they throw nothing.  [parseKeyUsage]
    returns on every node. *)
Theorem decoders_that_never_throw (node : maybeNode) :
  Nat.even (String.length (rawHexOrEmpty node)) = true ->
  (exists v, parseKnownExtension (DString (JS.js "2.5.29.37")) node
             = Return (ExtendedKeyUsage v))
  /\ (exists v, parseKnownExtension (DString (JS.js "2.5.29.35")) node
                = Return (AuthorityKeyIdentifierValue v))
  /\ (exists v, parseKnownExtension (DString (JS.js "1.3.6.1.5.5.7.1.3")) node
                = Return (QCStatements v))
  /\ (exists v, parseKnownExtension (DString (JS.js "2.5.29.15")) node
                = Return (KeyUsage v)).
Proof.
  intros Heven. destruct (topSequence_returns node Heven) as [r Hr].
  split; [|split; [|split]].
  - eexists. unfold parseKnownExtension.
    change (isString (DString (JS.js "2.5.29.37")) "2.5.29.17") with false.
    change (isString (DString (JS.js "2.5.29.37")) "2.5.29.15") with false.
    change (isString (DString (JS.js "2.5.29.37")) "2.5.29.19") with false.
    change (isString (DString (JS.js "2.5.29.37")) "2.5.29.31") with false.
    change (isString (DString (JS.js "2.5.29.37")) "2.5.29.32") with false.
    change (isString (DString (JS.js "2.5.29.37")) "2.5.29.35") with false.
    change (isString (DString (JS.js "2.5.29.37")) "2.5.29.37") with true.
    cbv iota. unfold parseExtendedKeyUsage. rewrite Hr. reflexivity.
  - eexists. unfold parseKnownExtension.
    change (isString (DString (JS.js "2.5.29.35")) "2.5.29.17") with false.
    change (isString (DString (JS.js "2.5.29.35")) "2.5.29.15") with false.
    change (isString (DString (JS.js "2.5.29.35")) "2.5.29.19") with false.
    change (isString (DString (JS.js "2.5.29.35")) "2.5.29.31") with false.
    change (isString (DString (JS.js "2.5.29.35")) "2.5.29.32") with false.
    change (isString (DString (JS.js "2.5.29.35")) "2.5.29.35") with true.
    cbv iota. unfold parseAuthorityKeyIdentifier. rewrite Hr. reflexivity.
  - eexists. unfold parseKnownExtension.
    change (isString (DString (JS.js "1.3.6.1.5.5.7.1.3")) "2.5.29.17") with false.
    change (isString (DString (JS.js "1.3.6.1.5.5.7.1.3")) "2.5.29.15") with false.
    change (isString (DString (JS.js "1.3.6.1.5.5.7.1.3")) "2.5.29.19") with false.
    change (isString (DString (JS.js "1.3.6.1.5.5.7.1.3")) "2.5.29.31") with false.
    change (isString (DString (JS.js "1.3.6.1.5.5.7.1.3")) "2.5.29.32") with false.
    change (isString (DString (JS.js "1.3.6.1.5.5.7.1.3")) "2.5.29.35") with false.
    change (isString (DString (JS.js "1.3.6.1.5.5.7.1.3")) "2.5.29.37") with false.
    change (isString (DString (JS.js "1.3.6.1.5.5.7.1.3")) "1.3.6.1.5.5.7.1.1") with false.
    change (isString (DString (JS.js "1.3.6.1.5.5.7.1.3")) "1.3.6.1.5.5.7.1.3") with true.
    cbv iota. unfold parseQCStatements. rewrite Hr. reflexivity.
  - eexists. reflexivity.
Qed.

(** *** General names *)

Lemma nonEmptyRawHex_bytes node leaf b rest :
  Node.value node = LeafValue leaf ->
  Leaf.rawHex leaf = bytesToHex (b :: rest) ->
  nonEmptyRawHex node = Some (bytesToHex (b :: rest)).
Proof.
  intros Hv Hr. unfold nonEmptyRawHex. rewrite Hv, Hr.
  destruct (bytesToHex (b :: rest)) eqn:E; [|reflexivity].
  exfalso. exact (bytesToHex_nonempty _ _ E).
Qed.

Lemma decodeContextString_bytes node leaf content :
  Node.value node = LeafValue leaf ->
  Leaf.rawHex leaf = bytesToHex content ->
  decodeContextString (Some node) = Return (map u8 content).
Proof.
  intros Hv Hr. unfold decodeContextString.
  destruct content as [|b rest].
  - unfold nonEmptyRawHex. rewrite Hv, Hr. reflexivity.
  - rewrite (nonEmptyRawHex_bytes node leaf b rest Hv Hr).
    unfold hexToAsciiSafe. rewrite bytesToHex_even, asciiPairs_bytesToHex. reflexivity.
Qed.

(** X16.  [decodeGeneralName] on a primitive name whose raw hex is that of
    its content bytes: for the numbers 1, 2 and 6 it returns the type email,
    DNS or URI with the content read one character per byte; for a number
    that is none of 0, 1, 2, 4, 6, 7, 8 it returns the type Unknown(number)
    with the content read the same way. *)
Theorem general_name_text_is_the_content
    (name : ASN1StructuredNode) (leaf : Leaf.t) (content : list byte) :
  Node.value name = LeafValue leaf ->
  Leaf.rawHex leaf = bytesToHex content ->
  let number := Tag.number (Node.tag name) in
  let text := GNText (map u8 content) in
  (number = 1 -> decodeGeneralName name = Return (mkGeneralName GN_email text))
  /\ (number = 2 -> decodeGeneralName name = Return (mkGeneralName GN_DNS text))
  /\ (number = 6 -> decodeGeneralName name = Return (mkGeneralName GN_URI text))
  /\ (~ In number [0; 1; 2; 4; 6; 7; 8] ->
      decodeGeneralName name = Return (mkGeneralName (GN_Unknown number) text)).
Proof.
  intros Hv Hr number text.
  pose proof (decodeContextString_bytes name leaf content Hv Hr) as Hs.
  unfold decodeGeneralName. fold number. rewrite Hs. cbn [andThen].
  split; [|split; [|split]].
  - intros ->. reflexivity.
  - intros ->. reflexivity.
  - intros ->. reflexivity.
  - intros Hn. cbn [In] in Hn.
    replace (number =? 1) with false by (symmetry; apply Z.eqb_neq; intuition lia).
    replace (number =? 2) with false by (symmetry; apply Z.eqb_neq; intuition lia).
    replace (number =? 6) with false by (symmetry; apply Z.eqb_neq; intuition lia).
    replace (number =? 7) with false by (symmetry; apply Z.eqb_neq; intuition lia).
    replace (number =? 4) with false by (symmetry; apply Z.eqb_neq; intuition lia).
    replace (number =? 8) with false by (symmetry; apply Z.eqb_neq; intuition lia).
    replace (number =? 0) with false by (symmetry; apply Z.eqb_neq; intuition lia).
    reflexivity.
Qed.

Lemma sliceString_at (a b c : string) i j :
  i = stringLength a -> j = stringLength a + stringLength b ->
  sliceString (a ++ b ++ c) i j = b.
Proof. intros -> ->. apply sliceString_middle. Qed.

Lemma hexByte_stringLength b : stringLength (hexByte (u8 b)) = 2.
Proof. unfold stringLength. rewrite hexByte_length. reflexivity. Qed.

Lemma stringLength_append a b : stringLength (a ++ b) = stringLength a + stringLength b.
Proof. unfold stringLength. rewrite string_length_append. lia. Qed.

Lemma numberToString_parseInt_hexByte b :
  JS.numberToString 10 (JS.parseInt (JS.js (hexByte (u8 b))) 16) = JS.intToString 10 (u8 b).
Proof. rewrite parseInt_hexByte. reflexivity. Qed.

(** X17.  [decodeIPAddress] on a primitive name whose raw hex is that of its
    content bytes: four bytes are printed in decimal, joined by dots; any
    other number of bytes than four and sixteen gives the empty string. *)
Theorem ip_address_of_four_bytes
    (name : ASN1StructuredNode) (leaf : Leaf.t) (content : list byte) :
  Node.value name = LeafValue leaf ->
  Leaf.rawHex leaf = bytesToHex content ->
  (forall a b c d,
      content = [a; b; c; d] ->
      decodeIPAddress name
      = JS.js (JS.intToString 10 (u8 a) ++ "." ++ JS.intToString 10 (u8 b) ++ "."
               ++ JS.intToString 10 (u8 c) ++ "." ++ JS.intToString 10 (u8 d)))
  /\ (List.length content <> 4%nat -> List.length content <> 16%nat ->
      decodeIPAddress name = []).
Proof.
  intros Hv Hr. split.
  - intros a b c d ->. unfold decodeIPAddress.
    rewrite (nonEmptyRawHex_bytes name leaf a [b; c; d] Hv Hr).
    replace (stringLength (bytesToHex [a; b; c; d]) =? 8) with true
      by (unfold stringLength; rewrite bytesToHex_length; reflexivity).
    rewrite !bytesToHex_cons. change (bytesToHex []) with "".
    set (A := hexByte (u8 a)). set (B := hexByte (u8 b)).
    set (C := hexByte (u8 c)). set (D := hexByte (u8 d)).
    cbn [map Z.mul Z.add Pos.mul Pos.add Pos.add_carry Pos.succ].
    assert (S0 : sliceString (A ++ B ++ C ++ D ++ "") 0 2 = A).
    { apply (sliceString_at "" A (B ++ C ++ D ++ "")); unfold A;
        rewrite ?hexByte_stringLength; reflexivity. }
    assert (S1 : sliceString (A ++ B ++ C ++ D ++ "") 2 4 = B).
    { apply (sliceString_at A B (C ++ D ++ "")); unfold A, B;
        rewrite ?hexByte_stringLength; reflexivity. }
    assert (S2 : sliceString (A ++ B ++ C ++ D ++ "") 4 6 = C).
    { rewrite <- (string_app_assoc A B). apply (sliceString_at (A ++ B) C (D ++ ""));
        unfold A, B, C; rewrite ?stringLength_append, ?hexByte_stringLength; reflexivity. }
    assert (S3 : sliceString (A ++ B ++ C ++ D ++ "") 6 8 = D).
    { rewrite <- (string_app_assoc A B), <- (string_app_assoc (A ++ B) C).
      apply (sliceString_at ((A ++ B) ++ C) D "");
        unfold A, B, C, D; rewrite ?stringLength_append, ?hexByte_stringLength; reflexivity. }
    rewrite S0, S1, S2, S3. unfold A, B, C, D.
    rewrite !numberToString_parseInt_hexByte. reflexivity.
  - intros H4 H16. unfold decodeIPAddress, nonEmptyRawHex. rewrite Hv, Hr.
    destruct (bytesToHex content) eqn:E; [reflexivity|]. rewrite <- E.
    replace (stringLength (bytesToHex content) =? 8) with false
      by (symmetry; apply Z.eqb_neq; unfold stringLength;
          rewrite bytesToHex_length; unfold len; lia).
    replace (stringLength (bytesToHex content) =? 32) with false
      by (symmetry; apply Z.eqb_neq; unfold stringLength;
          rewrite bytesToHex_length; unfold len; lia).
    reflexivity.
Qed.

(** *** Strings the TLV decoder leaves undecoded *)

Lemma tagToType_not_time n :
  n <> 23 -> n <> 24 ->
  String.eqb (tagToType n) "UTCTime" || String.eqb (tagToType n) "GeneralizedTime" = false.
Proof.
  intros H23 H24. unfold tagToType.
  repeat match goal with
         | |- context [if ?n =? ?k then _ else _] =>
             destruct (Z.eqb_spec n k); [try reflexivity; lia|]
         end.
  reflexivity.
Qed.

(** X18.  A primitive node as the TLV decoder builds it, of a tag number
    for which that decoder has no decoder of its own (so IA5String,
    NumericString, VisibleString, BMPString, OCTET STRING, ...):
    [getDecoded] returns [null], and [getDecodedOrForceString] returns the
    content read one character per byte in windows-1252 (which is the byte
    itself below [0x80]), or [null] when the content is empty.  For the
    numbers 12 and 19 (UTF8String, PrintableString) both return the content
    decoded as UTF-8. *)
Theorem undecoded_strings_are_forced
    (tag : Tag.t) (length : Length.t) (content : list byte)
    (offset : Z) (fullHex : string) :
  Tag.type tag = tagToType (Tag.number tag) ->
  let node := mkNode tag length (LeafValue (decodeLeaf (Tag.number tag) content))
                offset fullHex in
  (~ In (Tag.number tag) [1; 2; 3; 6; 9; 10; 12; 19; 23; 24] ->
   getDecoded (Some node) = None
   /\ getDecodedOrForceString (Some node)
      = match content with
        | [] => None
        | _ => Some (DString (decodeAscii content))
        end)
  /\ (Tag.number tag = 12 \/ Tag.number tag = 19 ->
      getDecoded (Some node) = Some (DString (decodeString content))
      /\ getDecodedOrForceString (Some node) = Some (DString (decodeString content)))
  /\ (forallb (fun b => u8 b <? 128) content = true ->
      decodeAscii content = map u8 content).
Proof.
  intros Htype node. split; [|split].
  - intros Hn. cbn [In] in Hn.
    assert (Hdec : Leaf.decoded (decodeLeaf (Tag.number tag) content) = None).
    { unfold decodeLeaf. cbn [Leaf.decoded].
      repeat match goal with
             | |- context [?n =? ?k] =>
                 replace (n =? k) with false by (symmetry; apply Z.eqb_neq; intuition lia)
             end.
      reflexivity. }
    assert (Htime : isTimeType node = false).
    { unfold isTimeType, node. cbn [Node.tag]. rewrite Htype.
      apply tagToType_not_time; intuition lia. }
    split.
    + unfold getDecoded, node. cbn [Node.value]. rewrite Hdec. reflexivity.
    + unfold getDecodedOrForceString, node. cbn [Node.value]. rewrite Hdec.
      fold node. unfold decodeIA5String, node at 2. cbn [Node.value].
      change (Leaf.rawHex (decodeLeaf (Tag.number tag) content)) with (bytesToHex content).
      rewrite hexPairs_bytesToHex.
      unfold stringLength. rewrite bytesToHex_length.
      destruct content as [|b rest]; [reflexivity|].
      replace (0 <? 2 * len (b :: rest)) with true
        by (symmetry; apply Z.ltb_lt; rewrite len_cons; pose proof (len_nonneg rest); lia).
      unfold reparseTime. rewrite Htime. reflexivity.
  - intros Hn.
    assert (Hdec : Leaf.decoded (decodeLeaf (Tag.number tag) content)
                   = Some (DString (decodeString content)))
      by (destruct Hn as [-> | ->]; reflexivity).
    assert (Htime : isTimeType node = false).
    { unfold isTimeType, node. cbn [Node.tag]. rewrite Htype.
      destruct Hn as [-> | ->]; reflexivity. }
    unfold getDecoded, getDecodedOrForceString, node. cbn [Node.value].
    rewrite Hdec. fold node. unfold reparseTime. rewrite Htime. split; reflexivity.
  - intros H. unfold decodeAscii. apply map_ext_in. intros b Hin.
    rewrite forallb_forall in H. specialize (H b Hin). apply Z.ltb_lt in H.
    unfold windows1252.
    replace ((128 <=? u8 b) && (u8 b <=? 159)) with false
      by (symmetry; apply andb_false_iff; left; apply Z.leb_gt; lia).
    reflexivity.
Qed.

(** *** Time strings read by position *)

Lemma slice_at {A} (pre mid suf : list A) i j :
  i = len pre -> j = len pre + len mid -> slice (pre ++ mid ++ suf) i j = mid.
Proof. intros -> ->. apply slice_middle. Qed.

(** X19.  [parseASN1Date] on a string of fifteen characters or more that
    ends in Z, which is how [getDecoded] reads a GeneralizedTime that
    [decodeDate] left as a string: when the first fourteen characters are
    digits, the result is the instant [Date.UTC] gives for them read as
    YYYYMMDDhhmmss, whatever stands between them and the final Z; a fraction
    of a second is dropped. *)
Theorem parseASN1Date_reads_fourteen_digits
    (a b c d e f g h i j k l m n : Z) (extra : JS.jsstring) :
  forallb isDigit [a; b; c; d; e; f; g; h; i; j; k; l; m; n] = true ->
  parseASN1Date ([a; b; c; d; e; f; g; h; i; j; k; l; m; n] ++ extra ++ [90])%list
  = DDate (JS.Date_UTC
             (JS.Num (digitsValue [a; b; c; d]))
             (JS.Num (twoDigits e f - 1))
             (JS.Num (twoDigits g h))
             (JS.Num (twoDigits i j))
             (JS.Num (twoDigits k l))
             (JS.Num (twoDigits m n))).
Proof.
  intros H. cbn [forallb] in H.
  repeat (apply andb_true_iff in H; destruct H as [? H]).
  unfold parseASN1Date. cbv zeta.
  set (rest := (extra ++ [90])%list).
  assert (Hlen : Z.of_nat (List.length ([a; b; c; d; e; f; g; h; i; j; k; l; m; n] ++ rest))
                 = 15 + len extra).
  { unfold rest. rewrite !length_app. unfold len. cbn [List.length]. lia. }
  rewrite Hlen. pose proof (len_nonneg extra).
  replace (15 + len extra =? 13) with false by (symmetry; apply Z.eqb_neq; lia).
  replace (15 <=? 15 + len extra) with true by (symmetry; apply Z.leb_le; lia).
  assert (Hrev : rev ([a; b; c; d; e; f; g; h; i; j; k; l; m; n] ++ rest)
                 = 90 :: rev extra ++ rev [a; b; c; d; e; f; g; h; i; j; k; l; m; n]).
  { unfold rest. rewrite !rev_app_distr. reflexivity. }
  rewrite Hrev. replace (90 =? 90) with true by reflexivity. cbn [andb].
  change ([a; b; c; d; e; f; g; h; i; j; k; l; m; n] ++ rest)%list
    with ([] ++ [a; b; c; d] ++ (e :: f :: g :: h :: i :: j :: k :: l :: m :: n :: rest))%list
    at 1.
  rewrite (slice_at [] [a; b; c; d]) by reflexivity.
  change ([a; b; c; d; e; f; g; h; i; j; k; l; m; n] ++ rest)%list
    with ([a; b; c; d] ++ [e; f] ++ (g :: h :: i :: j :: k :: l :: m :: n :: rest))%list
    at 1.
  rewrite (slice_at [a; b; c; d] [e; f]) by reflexivity.
  change ([a; b; c; d; e; f; g; h; i; j; k; l; m; n] ++ rest)%list
    with ([a; b; c; d; e; f] ++ [g; h] ++ (i :: j :: k :: l :: m :: n :: rest))%list
    at 1.
  rewrite (slice_at [a; b; c; d; e; f] [g; h]) by reflexivity.
  change ([a; b; c; d; e; f; g; h; i; j; k; l; m; n] ++ rest)%list
    with ([a; b; c; d; e; f; g; h] ++ [i; j] ++ (k :: l :: m :: n :: rest))%list
    at 1.
  rewrite (slice_at [a; b; c; d; e; f; g; h] [i; j]) by reflexivity.
  change ([a; b; c; d; e; f; g; h; i; j; k; l; m; n] ++ rest)%list
    with ([a; b; c; d; e; f; g; h; i; j] ++ [k; l] ++ (m :: n :: rest))%list
    at 1.
  rewrite (slice_at [a; b; c; d; e; f; g; h; i; j] [k; l]) by reflexivity.
  change ([a; b; c; d; e; f; g; h; i; j; k; l; m; n] ++ rest)%list
    with ([a; b; c; d; e; f; g; h; i; j; k; l] ++ [m; n] ++ rest)%list.
  rewrite (slice_at [a; b; c; d; e; f; g; h; i; j; k; l] [m; n]) by reflexivity.
  rewrite parseInt_four_digits by assumption.
  rewrite !parseInt_two_digits by assumption.
  reflexivity.
Qed.

(* ================================================================= *)
(** ** The loader: base64, the PEM armour and the root *)

(** *** base64 *)

Lemma code64_facts v :
  0 <= v < 64 ->
  base64Value (code64 v) = Some v
  /\ isAsciiWhitespace (code64 v) = false
  /\ JS.isWhiteSpace (code64 v) = false
  /\ (code64 v =? 61) = false
  /\ (code64 v =? 45) = false
  /\ 0 <= code64 v < 128.
Proof.
  intros Hv.
  assert (H : forallb (fun n =>
                let v := Z.of_nat n in
                match base64Value (code64 v) with Some w => w =? v | None => false end
                && negb (isAsciiWhitespace (code64 v))
                && negb (JS.isWhiteSpace (code64 v))
                && negb (code64 v =? 61) && negb (code64 v =? 45)
                && (0 <=? code64 v) && (code64 v <? 128))
              (seq 0 64) = true) by (vm_compute; reflexivity).
  rewrite forallb_forall in H. specialize (H (Z.to_nat v)).
  rewrite Z2Nat.id in H by lia.
  assert (Hin : In (Z.to_nat v) (seq 0 64)) by (apply in_seq; lia).
  specialize (H Hin). cbv zeta in H.
  repeat (apply andb_true_iff in H; destruct H as [H ?]).
  destruct (base64Value (code64 v)) as [w|]; [|discriminate].
  apply Z.eqb_eq in H. subst w.
  repeat match goal with
         | Hx : negb _ = true |- _ => apply negb_true_iff in Hx
         end.
  repeat split; try assumption; [apply Z.leb_le | apply Z.ltb_lt]; assumption.
Qed.

Lemma padding_step a b c (rest : list byte) : padding (a :: b :: c :: rest) = padding rest.
Proof.
  unfold padding. cbn [List.length].
  replace (S (S (S (List.length rest)))) with (List.length rest + 1 * 3)%nat by lia.
  rewrite Nat.Div0.mod_add. reflexivity.
Qed.

Lemma btoa_sextets : forall bytes,
  JS.js (btoa bytes) = (map code64 (sextets bytes) ++ padding bytes)%list.
Proof.
  fix IH 1. intros [|a [|b [|c rest]]]; try reflexivity.
  rewrite padding_step. cbn [btoa sextets map app]. cbv zeta.
  unfold JS.js in *. cbn [list_ascii_of_string map]. rewrite IH. reflexivity.
Qed.

Lemma div_mul_add q k r : 0 <= r < k -> (q * k + r) / k = q.
Proof.
  intros H. rewrite Z.add_comm, Z.div_add by lia. rewrite Z.div_small by lia. lia.
Qed.

Lemma mod_mul_add q k r : 0 <= r < k -> (q * k + r) mod k = r.
Proof.
  intros H. rewrite Z.add_comm, Z.mod_add by lia. apply Z.mod_small. lia.
Qed.

Lemma base64Bytes_sextets : forall bytes, base64Bytes (sextets bytes) = map u8 bytes.
Proof.
  fix IH 1. intros [|a [|b [|c rest]]]; [reflexivity | | |].
  - cbn [sextets base64Bytes map]. cbv zeta. pose proof (u8_range a).
    pose proof (Z.mod_pos_bound (u8 a) 4 ltac:(lia)).
    f_equal.
    replace (u8 a mod 4 * 16) with (u8 a mod 4 * 16 + 0) by lia.
    rewrite div_mul_add by lia.
    pose proof (Z.div_mod (u8 a) 4 ltac:(lia)). lia.
  - cbn [sextets base64Bytes map]. cbv zeta.
    pose proof (u8_range a). pose proof (u8_range b).
    pose proof (Z.mod_pos_bound (u8 a) 4 ltac:(lia)).
    pose proof (Z.mod_pos_bound (u8 b) 16 ltac:(lia)).
    assert (0 <= u8 b / 16 < 16)
      by (split; [apply Z.div_pos | apply Z.div_lt_upper_bound]; lia).
    rewrite div_mul_add, mod_mul_add by lia.
    replace (u8 b mod 16 * 4) with (u8 b mod 16 * 4 + 0) by lia.
    rewrite div_mul_add by lia.
    pose proof (Z.div_mod (u8 a) 4 ltac:(lia)).
    pose proof (Z.div_mod (u8 b) 16 ltac:(lia)).
    f_equal; [lia|]. f_equal. lia.
  - cbn [sextets base64Bytes map]. cbv zeta. rewrite IH.
    pose proof (u8_range a). pose proof (u8_range b). pose proof (u8_range c).
    pose proof (Z.mod_pos_bound (u8 a) 4 ltac:(lia)).
    pose proof (Z.mod_pos_bound (u8 b) 16 ltac:(lia)).
    pose proof (Z.mod_pos_bound (u8 c) 64 ltac:(lia)).
    assert (0 <= u8 b / 16 < 16)
      by (split; [apply Z.div_pos | apply Z.div_lt_upper_bound]; lia).
    assert (0 <= u8 c / 64 < 4)
      by (split; [apply Z.div_pos | apply Z.div_lt_upper_bound]; lia).
    rewrite !div_mul_add, !mod_mul_add by lia.
    pose proof (Z.div_mod (u8 a) 4 ltac:(lia)).
    pose proof (Z.div_mod (u8 b) 16 ltac:(lia)).
    pose proof (Z.div_mod (u8 c) 64 ltac:(lia)).
    f_equal; [lia|]. f_equal; [lia|]. f_equal. lia.
Qed.

Lemma sextets_range : forall bytes, Forall (fun v => 0 <= v < 64) (sextets bytes).
Proof.
  fix IH 1. intros [|a [|b [|c rest]]]; [constructor | | |];
    cbn [sextets]; cbv zeta;
    pose proof (u8_range a);
    pose proof (Z.mod_pos_bound (u8 a) 4 ltac:(lia));
    assert (0 <= u8 a / 4 < 64)
      by (split; [apply Z.div_pos | apply Z.div_lt_upper_bound]; lia).
  - repeat constructor; lia.
  - pose proof (u8_range b).
    pose proof (Z.mod_pos_bound (u8 b) 16 ltac:(lia)).
    assert (0 <= u8 b / 16 < 16)
      by (split; [apply Z.div_pos | apply Z.div_lt_upper_bound]; lia).
    repeat constructor; lia.
  - pose proof (u8_range b). pose proof (u8_range c).
    pose proof (Z.mod_pos_bound (u8 b) 16 ltac:(lia)).
    pose proof (Z.mod_pos_bound (u8 c) 64 ltac:(lia)).
    assert (0 <= u8 b / 16 < 16)
      by (split; [apply Z.div_pos | apply Z.div_lt_upper_bound]; lia).
    assert (0 <= u8 c / 64 < 4)
      by (split; [apply Z.div_pos | apply Z.div_lt_upper_bound]; lia).
    repeat (constructor; [lia|]). apply IH.
Qed.

Lemma base64Values_codes vs :
  Forall (fun v => 0 <= v < 64) vs -> base64Values (map code64 vs) = Some vs.
Proof.
  induction 1 as [|v vs Hv _ IH]; [reflexivity|].
  cbn [map base64Values]. destruct (code64_facts v Hv) as (-> & _). rewrite IH. reflexivity.
Qed.

Lemma filter_codes (p : Z -> bool) vs :
  Forall (fun v => p (code64 v) = true) vs -> filter p (map code64 vs) = map code64 vs.
Proof.
  induction 1 as [|v vs Hv _ IH]; [reflexivity|].
  cbn [map filter]. rewrite Hv, IH. reflexivity.
Qed.

(** The shape of what [btoa] writes: four characters for every three
    bytes, the last group padded. *)
Lemma sextets_shape : forall bytes,
  exists k,
    (List.length (sextets bytes) + List.length (padding bytes) = 4 * k)%nat
    /\ (padding bytes = [] \/
        exists v vs, sextets bytes = (vs ++ [v])%list
                     /\ (padding bytes = [61] \/ padding bytes = [61; 61])).
Proof.
  fix IH 1. intros [|a [|b [|c rest]]].
  - exists 0%nat. split; [reflexivity | left; reflexivity].
  - exists 1%nat. split; [reflexivity|]. right.
    exists (u8 a mod 4 * 16), [u8 a / 4]. split; [reflexivity | right; reflexivity].
  - exists 1%nat. split; [reflexivity|]. right.
    exists (u8 b mod 16 * 4), [u8 a / 4; u8 a mod 4 * 16 + u8 b / 16].
    split; [reflexivity | left; reflexivity].
  - destruct (IH rest) as (k & Hk & Hp). exists (S k).
    rewrite padding_step. cbn [sextets List.length]. cbv zeta. split; [lia|].
    destruct Hp as [Hp|(v & vs & Hs & Hp)]; [left; exact Hp|].
    right. exists v. eexists. rewrite Hs. split; [|exact Hp].
    rewrite !app_comm_cons. reflexivity.
Qed.

Lemma stripPadding_codes vs :
  Forall (fun v => 0 <= v < 64) vs -> stripPadding (map code64 vs) = map code64 vs.
Proof.
  intros Hr. unfold stripPadding. rewrite <- map_rev.
  destruct (rev vs) as [|v r] eqn:E; [reflexivity|].
  cbn [map].
  assert (Hv : 0 <= v < 64).
  { rewrite Forall_forall in Hr. apply Hr. apply in_rev. rewrite E. left. reflexivity. }
  destruct (code64_facts v Hv) as (_ & _ & _ & -> & _). reflexivity.
Qed.

Lemma stripPadding_one vs v :
  0 <= v < 64 ->
  stripPadding (map code64 (vs ++ [v]) ++ [61])%list = map code64 (vs ++ [v]).
Proof.
  intros Hv. unfold stripPadding.
  rewrite rev_app_distr, map_app, rev_app_distr. cbn [rev map app].
  destruct (code64_facts v Hv) as (_ & _ & _ & -> & _).
  cbn [rev]. rewrite rev_involutive. reflexivity.
Qed.

Lemma stripPadding_two l : stripPadding (l ++ [61; 61])%list = l.
Proof.
  unfold stripPadding. rewrite rev_app_distr. cbn [rev app Z.eqb Pos.eqb].
  apply rev_involutive.
Qed.

(** [atob] reads back what [btoa] wrote. *)
Lemma atob_btoa bytes : atob (JS.js (btoa bytes)) = Some (map u8 bytes).
Proof.
  rewrite btoa_sextets. unfold atob.
  pose proof (sextets_range bytes) as Hr.
  destruct (sextets_shape bytes) as (k & Hk & Hp).
  assert (Hf : filter (fun c => negb (isAsciiWhitespace c))
                 (map code64 (sextets bytes) ++ padding bytes)%list
               = (map code64 (sextets bytes) ++ padding bytes)%list).
  { rewrite filter_app, filter_codes.
    - f_equal. unfold padding. destruct (List.length bytes mod 3)%nat as [|[|[|n]]]; reflexivity.
    - eapply Forall_impl; [|exact Hr]. intros v Hv.
      destruct (code64_facts v Hv) as (_ & -> & _). reflexivity. }
  rewrite Hf. cbv zeta.
  assert (Hlen : Z.of_nat (List.length (map code64 (sextets bytes) ++ padding bytes)%list) mod 4 = 0).
  { rewrite length_app, length_map, Hk, Nat2Z.inj_mul, Z.mul_comm.
    apply Z.mod_mul. lia. }
  rewrite Hlen. cbn [Z.eqb].
  assert (Hstrip : stripPadding (map code64 (sextets bytes) ++ padding bytes)%list
                   = map code64 (sextets bytes)).
  { destruct Hp as [Hp|(v & vs & Hs & [Hp|Hp])]; rewrite Hp.
    - rewrite app_nil_r. apply stripPadding_codes. exact Hr.
    - rewrite Hs. apply stripPadding_one.
      rewrite Hs in Hr. apply Forall_app in Hr. destruct Hr as [_ Hr].
      inversion Hr; assumption.
    - apply stripPadding_two. }
  rewrite Hstrip, length_map.
  assert (Hmod : (Z.of_nat (List.length (sextets bytes)) mod 4 =? 1) = false).
  { apply Z.eqb_neq. intros Hm.
    pose proof (Z.div_mod (Z.of_nat (List.length (sextets bytes))) 4 ltac:(lia)) as Hd.
    rewrite Hm in Hd.
    assert (Hpad : (List.length (padding bytes) <= 2)%nat).
    { unfold padding. destruct (List.length bytes mod 3)%nat as [|[|[|n]]]; cbn; lia. }
    lia. }
  rewrite Hmod, (base64Values_codes _ Hr), base64Bytes_sextets. reflexivity.
Qed.

Lemma toUint8_u8 b : toUint8 (JS.Num (u8 b)) = b.
Proof. destruct b; reflexivity. Qed.

(** *** The PEM armour *)

Lemma startsWith_app m s : startsWith m (m ++ s)%list = true.
Proof.
  induction m as [|x m IH]; [reflexivity|].
  cbn [app startsWith]. rewrite Z.eqb_refl, IH. reflexivity.
Qed.

Lemma includes_prefix m s : includes m (m ++ s)%list = true.
Proof.
  destruct (m ++ s)%list eqn:E; cbn [includes]; rewrite <- E, startsWith_app; reflexivity.
Qed.

Lemma lazyUntil_run body rest :
  body <> [] -> Forall (fun c => c <> 45) body ->
  lazyUntil endMarker (body ++ endMarker ++ rest)%list = Some body.
Proof.
  induction body as [|c body IH]; intros Hne Hd; [congruence|].
  cbn [app lazyUntil]. inversion Hd as [|? ? _ Hd']; subst.
  destruct body as [|c' body'].
  - cbn [app]. rewrite startsWith_app. reflexivity.
  - assert (Hs : startsWith endMarker ((c' :: body') ++ endMarker ++ rest)%list = false).
    { inversion Hd' as [|? ? Hc' _]; subst. cbn [app].
      change endMarker with (45 :: tl endMarker). cbn [startsWith].
      replace (45 =? c') with false by (symmetry; apply Z.eqb_neq; congruence).
      reflexivity. }
    rewrite Hs, IH by (try assumption; discriminate). reflexivity.
Qed.

Lemma matchPEM_unfold s :
  matchPEM s
  = match (if startsWith beginMarker s
           then lazyUntil endMarker (skipn (List.length beginMarker) s)
           else None) with
    | Some run => Some run
    | None => match s with [] => None | _ :: rest => matchPEM rest end
    end.
Proof. destruct s; reflexivity. Qed.

Lemma matchPEM_run body rest :
  body <> [] -> Forall (fun c => c <> 45) body ->
  matchPEM (beginMarker ++ body ++ endMarker ++ rest)%list = Some body.
Proof.
  intros Hne Hd. rewrite matchPEM_unfold, startsWith_app.
  rewrite skipn_app, skipn_all, Nat.sub_diag. cbn [skipn app].
  rewrite lazyUntil_run by assumption. reflexivity.
Qed.

(** *** The loader *)

Lemma parseLoop_prefix buffer options fuel acc off nodes errors :
  parseLoop buffer options fuel acc off = Some (nodes, errors) ->
  exists more, nodes = (acc ++ more)%list.
Proof.
  revert acc off. induction fuel as [|fuel IH]; intros acc off; cbn [parseLoop];
    destruct (off <? byteLength buffer);
    try discriminate;
    try (intros H; injection H as <- _; exists []; symmetry; apply app_nil_r).
  destruct (parseElement buffer (S (List.length buffer)) off) as [node off'|e off'|];
    [| intros H; injection H as <- _; exists []; symmetry; apply app_nil_r | discriminate].
  destruct (negb (parseAll options)).
  - intros H; injection H as <- _. eauto.
  - intros H. apply IH in H. destruct H as [more ->].
    exists (node :: more). rewrite <- app_assoc. reflexivity.
Qed.

Lemma parseAllNodes_first (b : byte) (rest : list byte) :
  match element (b :: rest) 0 with
  | Ok root _ => exists more, parseAllNodes (b :: rest) = Return (root :: more)
  | Throw _ _ => parseAllNodes (b :: rest) = Return []
  | OutOfFuel => False
  end.
Proof.
  set (buffer := b :: rest).
  assert (Hlen : 0 < byteLength buffer) by (unfold byteLength, buffer; cbn [List.length]; lia).
  pose proof (element_never_exhausted buffer 0 ltac:(lia)) as Hfuel.
  unfold parseAllNodes, parseASN1, parse. cbn [parseAll simplify].
  change (parseLoop buffer (mkOptions true false) (S (List.length buffer)) [] 0)
    with (if 0 <? byteLength buffer then
            match element buffer 0 with
            | Ok node off' =>
                parseLoop buffer (mkOptions true false) (List.length buffer) [node] off'
            | Throw e off' => Some ([], [mkParseError off' e])
            | OutOfFuel => None
            end
          else Some ([], [])).
  replace (0 <? byteLength buffer) with true by (symmetry; apply Z.ltb_lt; lia).
  destruct (element buffer 0) as [root off'|e off'|] eqn:E; [| reflexivity | congruence].
  pose proof (parseElement_advances buffer _ _ _ _ E) as Hadv.
  destruct (parseLoop_all buffer false (List.length buffer) [root] off')
    as (nodes & stop & _ & H).
  - apply (run_cons buffer 0 root off' [] off'); [lia | exact E | constructor].
  - lia.
  - unfold byteLength in *. lia.
  - assert (Hsome : exists nodes errors,
               parseLoop buffer (mkOptions true false) (List.length buffer) [root] off'
               = Some (nodes, errors))
      by (destruct H as [[_ H]|(_ & e & at_ & _ & H)]; eauto).
    destruct Hsome as (nodes' & errors & Hsome).
    destruct (parseLoop_prefix _ _ _ _ _ _ _ Hsome) as [more ->].
    rewrite Hsome. cbn. eauto.
Qed.

(** X20.  [loadX509FromBufferSync] on DER input.  The empty buffer is
    refused with "Input buffer is empty".  For a buffer whose text does not
    hold the PEM marker, only the first element counts: when it fails to
    decode the error is "Parsed ASN.1 array is empty"; when its type name is
    not SEQUENCE the error names the type found; otherwise the result is
    that of [parseX509Certificate] on it.  What follows the first element,
    and any error met there, is ignored. *)
Theorem loadX509_reads_the_first_element (input : list byte) :
  loadX509FromBufferSync [] = LoadThrow (Error "Input buffer is empty")
  /\ (input <> [] ->
      includes beginMarker (bufferToUtf8 input) = false ->
      loadX509FromBufferSync input
      = match element input 0 with
        | Ok root _ =>
            if String.eqb (Tag.type (Node.tag root)) "SEQUENCE"
            then ofCompletion (parseX509Certificate root)
            else LoadThrow (Error ("Expected ASN.1 SEQUENCE at root, got: "
                                   ++ Tag.type (Node.tag root)))
        | Throw _ _ => LoadThrow (Error "Parsed ASN.1 array is empty")
        | OutOfFuel => LoadExhausted
        end)
  /\ element input 0 <> OutOfFuel.
Proof.
  split; [reflexivity|]. split.
  - intros Hne Hinc. destruct input as [|b rest]; [congruence|].
    unfold loadX509FromBufferSync. rewrite Hinc. unfold loadRoot.
    pose proof (parseAllNodes_first b rest) as H.
    destruct (element (b :: rest) 0) as [root off'|e off'|].
    + destruct H as [more ->]. reflexivity.
    + rewrite H. reflexivity.
    + destruct H.
  - apply element_never_exhausted. unfold byteLength. lia.
Qed.

(** X21.  [loadX509FromBufferSync] on PEM input.  When the text of the
    buffer begins with the marker "-----BEGIN CERTIFICATE-----", followed by
    a body without any hyphen, the marker "-----END CERTIFICATE-----" and
    anything after it, and the body, its white space removed, is the base64
    text of some bytes, the certificate is loaded from these bytes as it is
    from a DER buffer that holds them. *)
Theorem loadX509_removes_the_PEM_armour
    (input : list byte) (body rest : JS.jsstring) (der : list byte) :
  input <> [] ->
  bufferToUtf8 input = (beginMarker ++ body ++ endMarker ++ rest)%list ->
  body <> [] ->
  Forall (fun c => c <> 45) body ->
  filter (fun c => negb (JS.isWhiteSpace c)) body = JS.js (btoa der) ->
  loadX509FromBufferSync input = loadRoot der.
Proof.
  intros Hne Htext Hbody Hhyphen Hb64.
  destruct input as [|b input']; [congruence|].
  unfold loadX509FromBufferSync. rewrite Htext, includes_prefix.
  unfold decodePEMtoDER. rewrite matchPEM_run by assumption.
  destruct body as [|c body']; [congruence|].
  rewrite Hb64, atob_btoa, map_map.
  assert (Hmap : map (fun x => toUint8 (JS.Num (u8 x))) der = der).
  { clear. induction der as [|x der IH]; [reflexivity|].
    cbn [map]. rewrite toUint8_u8, IH. reflexivity. }
  rewrite Hmap. reflexivity.
Qed.



(* ================================================================= *)
(** ** The TLV decoder: values by tag number, and elements cut short *)

(** *** Primitive values *)

(** X23.  In every node the decoder returns, at any depth, the value object
    of a primitive node is a function of the tag number and of the content
    bytes alone: the class of the tag plays no part, so that a
    context-specific element of number 2 carries the [decoded] value of an
    INTEGER, one of number 4 the [base64] text of an OCTET STRING, and so
    on. *)
Theorem primitive_value_is_decoded_by_tag_number
    (buffer : list byte) (fuel : nat) (off : Z)
    (node : ASN1StructuredNode) (off' : Z) :
  parseElement buffer fuel off = Ok node off' ->
  everyNode (decodedByNumber buffer) node.
Proof.
  apply parseElement_every. clear. intros rec fuel off node off' H Hrec.
  pose proof (parseElementBody_advances buffer rec fuel Hrec _ _ _ H) as Hadv.
  apply parseElementBody_Ok in H.
  destruct H as (tagByte & o1 & tagNumber & o2 & lengthValue & o3 & R1 & R2 & R3 & _ & H).
  apply readByte_Ok in R1. destruct R1 as (Hoff & -> & _).
  apply readTagNumber_Ok in R2; [|lia]. apply readLength_Ok in R3.
  cbv zeta in H. destruct (negb (JS.band tagByte 32 =? 0)).
  - destruct H as (value & _ & ->). exact I.
  - destruct H as (valueBytes & R4 & ->).
    apply readBytes_Ok in R4. destruct R4 as (Hn & _ & -> & Hend & ->).
    unfold decodedByNumber.
    cbn [Node.value Node.offset Node.length Node.tag Tag.number Length.value].
    cbv zeta. unfold span. cbn [Node.fullHex]. rewrite bytesToHex_length.
    destruct (slice_within buffer off (o3 + lengthValue)) as [_ ->];
      [lia | unfold byteLength in *; unfold len; lia |].
    rewrite Z.mul_comm, Z.div_mul by lia.
    replace (off + (o3 + lengthValue - off)) with (o3 + lengthValue) by lia.
    replace (o3 + lengthValue - lengthValue) with o3 by lia.
    destruct (slice_within buffer o3 (o3 + lengthValue)) as [Hs _];
      [lia | unfold byteLength in *; unfold len; lia |].
    replace (o3 + lengthValue - o3) with lengthValue in Hs by lia.
    rewrite Hs. reflexivity.
Qed.

(** *** Elements cut short *)

Lemma readByte_end pre : readByte pre (len pre) = Throw RangeError (len pre).
Proof.
  unfold readByte. to_len.
  replace (len pre <? len pre) with false by (symmetry; apply Z.ltb_ge; lia).
  rewrite andb_false_r. reflexivity.
Qed.

Lemma tagNumberLoop_cut kept lost tagNumber off :
  continuation (kept ++ lost) = true -> lost <> [] ->
  tagNumberLoop kept tagNumber off = Throw RangeError (off + len kept).
Proof.
  revert tagNumber off. induction kept as [|b kept IH]; intros tagNumber off H Hlost.
  - cbn [tagNumberLoop]. f_equal. change (len (@nil byte)) with 0. lia.
  - cbn [app continuation] in H.
    destruct (kept ++ lost)%list as [|b' rest'] eqn:E.
    + destruct kept; [cbn in E; congruence | discriminate].
    + apply andb_true_iff in H. destruct H as [H1 H2]. apply Z.leb_le in H1.
      cbn [tagNumberLoop]. rewrite band_128_byte. cbv zeta.
      replace (u8 b <? 128) with false by (symmetry; apply Z.ltb_ge; lia).
      rewrite IH by assumption. f_equal. rewrite (len_cons b). lia.
Qed.

(** The element is cut inside its tag bytes. *)
Lemma tag_cut pre constructed kept lost fuel :
  validTag constructed (kept ++ lost) = true -> lost <> [] ->
  parseElement (pre ++ kept) (S fuel) (len pre)
  = Throw RangeError (len pre + len kept).
Proof.
  intros Htag Hlost. rewrite parseElement_S.
  destruct kept as [|t kept'].
  - rewrite app_nil_r. unfold parseElementBody, bind, position.
    rewrite readByte_end. f_equal. change (len (@nil byte)) with 0. lia.
  - cbn [app validTag] in Htag. apply andb_true_iff in Htag. destruct Htag as [_ H2].
    assert (Hne : (kept' ++ lost)%list <> [])
      by (destruct kept'; [cbn; assumption | discriminate]).
    destruct (u8 t mod 32 =? 31) eqn:E;
      [|destruct (kept' ++ lost)%list; [congruence | discriminate]].
    unfold parseElementBody, bind, position.
    rewrite readByte_at.
    unfold readTagNumber. rewrite band_31_byte, E.
    replace (pre ++ t :: kept')%list with ((pre ++ [t]) ++ kept')%list
      by (rewrite <- app_assoc; reflexivity).
    replace (len pre + 1) with (len (pre ++ [t])%list)
      by (rewrite len_app; reflexivity).
    rewrite skipn_len_app.
    rewrite (tagNumberLoop_cut kept' lost 0 _ H2 Hlost).
    f_equal. rewrite len_app, !len_cons. unfold len; cbn [List.length]; lia.
Qed.

(** The element is cut inside its length bytes. *)
Lemma length_cut pre constructed tagBytes kept lost n fuel :
  validTag constructed tagBytes = true ->
  validLength (kept ++ lost) n = true -> lost <> [] ->
  exists e off,
    parseElement (pre ++ tagBytes ++ kept) (S fuel) (len pre) = Throw e off.
Proof.
  intros Htag Hlen Hlost.
  destruct (readTag_at pre constructed tagBytes kept Htag)
    as (t & tail & tagNumber & Etag & R1 & Hc & R2).
  pose proof (len_nonneg pre). pose proof (len_nonneg tagBytes).
  destruct kept as [|l kept'].
  - exists RangeError, (len pre + len tagBytes).
    apply (parseElement_length_throws _ _ _ _ _ _ _ _ _ R1 R2).
    unfold readLength, bind. rewrite app_nil_r, <- len_app, readByte_end. reflexivity.
  - cbn [app validLength] in Hlen.
    assert (Hne : (kept' ++ lost)%list <> [])
      by (destruct kept'; [cbn; assumption | discriminate]).
    pose proof (u8_range l) as Hl.
    destruct (u8 l <? 128) eqn:E;
      [destruct (kept' ++ lost)%list; [congruence | discriminate]|].
    apply Z.ltb_ge in E.
    repeat (apply andb_true_iff in Hlen; destruct Hlen as [Hlen ?]).
    apply Z.eqb_eq in Hlen.
    match goal with H : (1 <=? _) = true |- _ => apply Z.leb_le in H end.
    match goal with H : (_ <=? 4) = true |- _ => apply Z.leb_le in H end.
    rewrite len_app in *.
    assert (Hlost' : 1 <= len lost)
      by (destruct lost; [congruence | rewrite len_cons; pose proof (len_nonneg lost); lia]).
    pose proof (len_nonneg kept').
    eexists _, _.
    apply (parseElement_length_throws _ _ _ _ _ _ _ _ _ R1 R2).
    pose proof (readByte_at (pre ++ tagBytes) l kept') as Rb.
    rewrite <- app_assoc, len_app in Rb.
    unfold readLength, bind. rewrite Rb.
    rewrite band_128_byte, band_127_byte.
    replace (u8 l <? 128) with false by (symmetry; apply Z.ltb_ge; lia).
    unfold position.
    assert (Hm : u8 l mod 128 = u8 l - 128)
      by (symmetry; apply (Z.mod_unique_pos _ _ 1); lia).
    rewrite Hm.
    replace ((u8 l - 128 =? 0) || (4 <? u8 l - 128)) with false
      by (symmetry; apply orb_false_iff; split; [apply Z.eqb_neq | apply Z.ltb_ge]; lia).
    to_len. rewrite !len_app, len_cons.
    replace (len pre + (len tagBytes + (1 + len kept'))
             <? len pre + len tagBytes + 1 + (u8 l - 128)) with true
      by (symmetry; apply Z.ltb_lt; lia).
    reflexivity.
Qed.

Lemma truncated_refused pre constructed tagBytes lengthBytes content kept lost fuel :
  validTag constructed tagBytes = true ->
  validLength lengthBytes (len content) = true ->
  (tagBytes ++ lengthBytes ++ content = kept ++ lost)%list -> lost <> [] ->
  exists e off,
    parseElement (pre ++ kept) (S fuel) (len pre) = Throw e off
    /\ (len tagBytes + len lengthBytes <= len kept ->
        e = declaredLengthError (len pre)
        /\ off = len pre + len tagBytes + len lengthBytes).
Proof.
  intros Htag Hlen Hsplit Hlost.
  pose proof (validTag_len _ _ Htag) as Ht1.
  pose proof (validLength_len _ _ Hlen) as Hl1.
  apply app_eq_app in Hsplit. destruct Hsplit as [l [[E1 E2]|[E1 E2]]].
  - (* the cut is inside the tag bytes, or right after them *)
    destruct l as [|x l'].
    + rewrite app_nil_r in E1. subst kept.
      destruct (length_cut pre constructed tagBytes [] lengthBytes (len content) fuel)
        as (e & off & H); try assumption.
      { intros ->. discriminate. }
      rewrite app_nil_r in H. exists e, off. split; [exact H|]. lia.
    + subst tagBytes. exists RangeError, (len pre + len kept).
      split; [apply (tag_cut pre constructed kept (x :: l') fuel Htag); discriminate|].
      rewrite len_app, len_cons in *. pose proof (len_nonneg l'). lia.
  - subst kept. symmetry in E2. apply app_eq_app in E2.
    destruct E2 as [l2 [[E3 E4]|[E3 E4]]].
    + (* the cut is after the length bytes *)
      subst l content.
      assert (Hshort : len l2 < len (l2 ++ lost)%list).
      { rewrite len_app. destruct lost; [congruence|].
        rewrite len_cons. pose proof (len_nonneg lost). lia. }
      exists (declaredLengthError (len pre)), (len pre + len tagBytes + len lengthBytes).
      split; [|intros _; split; reflexivity].
      exact (declared_length_checked pre tagBytes lengthBytes l2 constructed _ fuel
               Htag Hlen Hshort).
    + destruct l2 as [|x l2'].
      * rewrite app_nil_r in E3. subst l. cbn [app] in E4. subst lost.
        assert (Hshort : len (@nil byte) < len content).
        { destruct content; [congruence|].
          rewrite len_cons. pose proof (len_nonneg content).
          change (len (@nil byte)) with 0. lia. }
        exists (declaredLengthError (len pre)), (len pre + len tagBytes + len lengthBytes).
        split; [|intros _; split; reflexivity].
        pose proof (declared_length_checked pre tagBytes lengthBytes [] constructed _ fuel
                      Htag Hlen Hshort) as H.
        rewrite app_nil_r in H. exact H.
      * (* the cut is inside the length bytes *)
        subst lengthBytes.
        destruct (length_cut pre constructed tagBytes l (x :: l2') (len content) fuel)
          as (e & off & H); try assumption; [discriminate|].
        exists e, off. split; [exact H|].
        rewrite !len_app, len_cons in *. pose proof (len_nonneg l2'). lia.
Qed.

(** X24.  A well-formed element that is cut short does not decode: whatever
    proper prefix of its bytes the buffer ends with, [parseElement] throws.
    When the tag and length bytes are there in full, the error is "Declared
    length extends beyond buffer", naming the offset of the element, and the
    cursor is left after the length bytes. *)
Theorem truncated_element_is_refused
    (pre : list byte) (t : TLV) (kept lost : list byte) (fuel : nat) :
  valid t = true ->
  encode t = (kept ++ lost)%list ->
  lost <> [] ->
  exists e off,
    parseElement (pre ++ kept) (S fuel) (len pre) = Throw e off
    /\ (headerLength t <= len kept ->
        e = declaredLengthError (len pre) /\ off = len pre + headerLength t).
Proof.
  intros Hvalid Hsplit Hlost.
  destruct t as [tagBytes lengthBytes content | tagBytes lengthBytes children];
    cbn [valid encode headerLength] in *.
  - apply andb_true_iff in Hvalid. destruct Hvalid as [Htag Hlen].
    destruct (truncated_refused pre false tagBytes lengthBytes content kept lost fuel
                Htag Hlen Hsplit Hlost) as (e & off & H & Hh).
    exists e, off. split; [exact H|]. intros Hk. destruct (Hh Hk) as [-> ->].
    split; [reflexivity | lia].
  - apply andb_true_iff in Hvalid. destruct Hvalid as [Hvalid _].
    apply andb_true_iff in Hvalid. destruct Hvalid as [Htag Hlen].
    destruct (truncated_refused pre true tagBytes lengthBytes (flat_map encode children)
                kept lost fuel Htag Hlen Hsplit Hlost) as (e & off & H & Hh).
    exists e, off. split; [exact H|]. intros Hk. destruct (Hh Hk) as [-> ->].
    split; [reflexivity | lia].
Qed.

(* ================================================================= *)
(** ** The loader of every certificate of a buffer *)

(** *** The loader of every certificate *)

Lemma decodePEMtoDER_run body rest der :
  body <> [] ->
  Forall (fun c => c <> 45) body ->
  filter (fun c => negb (JS.isWhiteSpace c)) body = JS.js (btoa der) ->
  decodePEMtoDER (beginMarker ++ body ++ endMarker ++ rest)%list = LoadReturn der.
Proof.
  intros Hbody Hhyphen Hb64.
  unfold decodePEMtoDER. rewrite matchPEM_run by assumption.
  destruct body as [|c body']; [congruence|].
  rewrite Hb64, atob_btoa, map_map.
  assert (Hmap : map (fun x => toUint8 (JS.Num (u8 x))) der = der).
  { clear. induction der as [|x der IH]; [reflexivity|].
    cbn [map]. rewrite toUint8_u8, IH. reflexivity. }
  rewrite Hmap. reflexivity.
Qed.

Lemma startsWith_beginMarker_other c s :
  c <> 45 -> startsWith beginMarker (c :: s) = false.
Proof.
  intros Hc. change beginMarker with (45 :: tl beginMarker). cbn [startsWith].
  replace (45 =? c) with false by (symmetry; apply Z.eqb_neq; congruence).
  reflexivity.
Qed.

Lemma includes_app m lead s : includes m (lead ++ m ++ s)%list = true.
Proof.
  induction lead as [|c lead IH]; [cbn [app]; apply includes_prefix|].
  cbn [app includes]. rewrite IH. apply orb_true_r.
Qed.

Lemma matchAllPEM_lead lead s :
  Forall (fun c => c <> 45) lead ->
  matchAllPEM 0 (lead ++ s)%list = matchAllPEM 0 s.
Proof.
  induction 1 as [|c lead Hc _ IH]; [reflexivity|].
  cbn [app matchAllPEM]. rewrite startsWith_beginMarker_other by assumption.
  exact IH.
Qed.

Lemma matchAllPEM_skip passed s :
  matchAllPEM (List.length passed) (passed ++ s)%list = matchAllPEM 0 s.
Proof.
  induction passed as [|c passed IH]; [reflexivity|].
  cbn [app List.length matchAllPEM]. exact IH.
Qed.

Lemma matchAllPEM_block body rest :
  body <> [] -> Forall (fun c => c <> 45) body ->
  matchAllPEM 0 (beginMarker ++ body ++ endMarker ++ rest)%list
  = (beginMarker ++ body ++ endMarker)%list :: matchAllPEM 0 rest.
Proof.
  intros Hne Hd.
  assert (Hrun : (if startsWith beginMarker (beginMarker ++ body ++ endMarker ++ rest)%list
                  then lazyUntil endMarker
                         (skipn (List.length beginMarker)
                            (beginMarker ++ body ++ endMarker ++ rest)%list)
                  else None) = Some body).
  { rewrite startsWith_app, skipn_app, skipn_all, Nat.sub_diag. cbn [skipn app].
    apply lazyUntil_run; assumption. }
  change (beginMarker ++ body ++ endMarker ++ rest)%list
    with (45 :: (tl beginMarker ++ body ++ endMarker ++ rest))%list in *.
  cbn [matchAllPEM]. rewrite Hrun. f_equal.
  replace (tl beginMarker ++ body ++ endMarker ++ rest)%list
    with ((tl beginMarker ++ body ++ endMarker) ++ rest)%list
    by (rewrite <- !app_assoc; reflexivity).
  replace (List.length beginMarker + List.length body + List.length endMarker - 1)%nat
    with (List.length (tl beginMarker ++ body ++ endMarker)%list)
    by (rewrite !length_app; cbn; lia).
  apply matchAllPEM_skip.
Qed.

Lemma matchAllPEM_blocks blocks ders :
  Forall2 armours blocks ders ->
  matchAllPEM 0 (pemText blocks)
  = map (fun '(body, _) => (beginMarker ++ body ++ endMarker)%list) blocks.
Proof.
  induction 1 as [|[body separator] der blocks ders (Hne & Hbody & Hsep & _) _ IH];
    [reflexivity|].
  cbn [pemText flat_map map]. rewrite <- !app_assoc.
  rewrite matchAllPEM_block by assumption. f_equal.
  rewrite matchAllPEM_lead by assumption. exact IH.
Qed.

Lemma pushEach_blocks (f : list byte -> Loaded X509Certificate) blocks ders :
  Forall2 armours blocks ders ->
  pushEach (fun pem => loadThen (decodePEMtoDER pem) f)
    (map (fun '(body, _) => (beginMarker ++ body ++ endMarker)%list) blocks)
  = pushEach f ders.
Proof.
  induction 1 as [|[body separator] der blocks ders (Hne & Hbody & _ & Hb64) _ IH];
    [reflexivity|].
  cbn [map pushEach].
  pose proof (decodePEMtoDER_run body [] der Hne Hbody Hb64) as Hder.
  rewrite app_nil_r in Hder. rewrite Hder, IH. reflexivity.
Qed.

Lemma pushEach_length {A B} (f : A -> Loaded B) xs bs :
  pushEach f xs = LoadReturn bs -> List.length bs = List.length xs.
Proof.
  revert bs. induction xs as [|x xs IH]; intros bs H; cbn [pushEach] in H.
  - injection H as <-. reflexivity.
  - destruct (f x) as [b| | |]; cbn [loadThen] in H; try discriminate.
    destruct (pushEach f xs) as [bs'| | |]; cbn [loadThen] in H; try discriminate.
    injection H as <-. cbn [List.length]. rewrite (IH bs' eq_refl). reflexivity.
Qed.

(** X25.  [loadX509AllFromBufferSync] on a PEM file.  When the text of the
    buffer is made of blocks, each the marker "-----BEGIN CERTIFICATE-----",
    a body, the marker "-----END CERTIFICATE-----" and a separator, after a
    lead, and neither the lead, the bodies nor the separators hold a hyphen,
    and every body, its white space removed, is the base64 text of some
    bytes, the certificates are loaded from these bytes one block after the
    other, in the order of the file: the result holds one certificate per
    block, and the first block that fails makes the whole call throw. *)
Theorem loadX509All_reads_every_block
    (input : list byte) (lead : JS.jsstring)
    (blocks : list (JS.jsstring * JS.jsstring)) (ders : list (list byte)) :
  bufferToUtf8 input = (lead ++ pemText blocks)%list ->
  blocks <> [] ->
  Forall (fun c => c <> 45) lead ->
  Forall2 armours blocks ders ->
  loadX509AllFromBufferSync input
  = pushEach (loadRootOfAll "Invalid ASN.1 root node in one of the certificates") ders
  /\ (forall certificates,
        loadX509AllFromBufferSync input = LoadReturn certificates ->
        List.length certificates = List.length blocks).
Proof.
  intros Htext Hblocks Hlead Harm.
  assert (Hinput : input <> []).
  { intros ->. destruct blocks as [|[body separator] blocks]; [congruence|].
    destruct lead; discriminate. }
  assert (Hload : loadX509AllFromBufferSync input
                  = pushEach (loadRootOfAll
                                "Invalid ASN.1 root node in one of the certificates") ders).
  { destruct input as [|b input']; [congruence|].
    unfold loadX509AllFromBufferSync. rewrite Htext.
    destruct blocks as [|[body separator] blocks]; [congruence|].
    assert (Hinc : includes beginMarker (lead ++ pemText ((body, separator) :: blocks))%list
                   = true).
    { cbn [pemText flat_map]. rewrite <- !app_assoc. apply includes_app. }
    rewrite Hinc, matchAllPEM_lead, (matchAllPEM_blocks _ _ Harm) by assumption.
    cbn [map].
    change ((beginMarker ++ body ++ endMarker)%list
            :: map (fun '(body0, _) => (beginMarker ++ body0 ++ endMarker)%list) blocks)
      with (map (fun '(body0, _) => (beginMarker ++ body0 ++ endMarker)%list)
              ((body, separator) :: blocks)).
    rewrite (pushEach_blocks _ _ _ Harm).
    destruct (pushEach _ ders) as [certificates| | |] eqn:E; try reflexivity.
    cbn [loadThen]. apply pushEach_length in E.
    inversion Harm; subst. destruct certificates; [discriminate | reflexivity]. }
  split; [exact Hload|].
  intros certificates H. rewrite Hload in H. apply pushEach_length in H.
  rewrite H. symmetry. eapply Forall2_length. exact Harm.
Qed.

Lemma loadRootOfAll_first message (b : byte) (rest : list byte) :
  loadRootOfAll message (b :: rest)
  = match element (b :: rest) 0 with
    | Ok root _ =>
        if String.eqb (Tag.type (Node.tag root)) "SEQUENCE"
        then ofCompletion (parseX509Certificate root)
        else LoadThrow (Error message)
    | Throw _ _ => LoadThrow (Error message)
    | OutOfFuel => LoadExhausted
    end.
Proof.
  unfold loadRootOfAll. pose proof (parseAllNodes_first b rest) as H.
  destruct (element (b :: rest) 0) as [root off'|e off'|].
  - destruct H as [more ->]. reflexivity.
  - rewrite H. reflexivity.
  - destruct H.
Qed.

(** X26.  [loadX509AllFromBufferSync] on DER input.  The empty buffer is
    refused with "Input buffer is empty".  For a buffer whose text does not
    hold the PEM marker, the call returns exactly when
    [loadX509FromBufferSync] does, and then the list of the one certificate
    that call returns; when the first element fails to decode or is not a
    SEQUENCE the error is "Invalid ASN.1 root node", and otherwise what
    [parseX509Certificate] throws. *)
Theorem loadX509All_on_DER_agrees_with_single (input : list byte) :
  loadX509AllFromBufferSync [] = LoadThrow (Error "Input buffer is empty")
  /\ (input <> [] ->
      includes beginMarker (bufferToUtf8 input) = false ->
      (forall certificate,
          loadX509FromBufferSync input = LoadReturn certificate
          <-> loadX509AllFromBufferSync input = LoadReturn [certificate])
      /\ (forall certificates,
            loadX509AllFromBufferSync input = LoadReturn certificates ->
            List.length certificates = 1%nat)
      /\ loadX509AllFromBufferSync input
         = match element input 0 with
           | Ok root _ =>
               if String.eqb (Tag.type (Node.tag root)) "SEQUENCE"
               then match parseX509Certificate root with
                    | Return certificate => LoadReturn [certificate]
                    | Raise e => LoadThrow e
                    | Exhausted => LoadExhausted
                    end
               else LoadThrow (Error "Invalid ASN.1 root node")
           | Throw _ _ => LoadThrow (Error "Invalid ASN.1 root node")
           | OutOfFuel => LoadExhausted
           end).
Proof.
  split; [reflexivity|]. intros Hne Hinc.
  destruct input as [|b rest]; [congruence|].
  assert (Hall : loadX509AllFromBufferSync (b :: rest)
                 = match element (b :: rest) 0 with
                   | Ok root _ =>
                       if String.eqb (Tag.type (Node.tag root)) "SEQUENCE"
                       then match parseX509Certificate root with
                            | Return certificate => LoadReturn [certificate]
                            | Raise e => LoadThrow e
                            | Exhausted => LoadExhausted
                            end
                       else LoadThrow (Error "Invalid ASN.1 root node")
                   | Throw _ _ => LoadThrow (Error "Invalid ASN.1 root node")
                   | OutOfFuel => LoadExhausted
                   end).
  { unfold loadX509AllFromBufferSync. rewrite Hinc, loadRootOfAll_first.
    destruct (element (b :: rest) 0) as [root off'|e off'|]; try reflexivity.
    destruct (String.eqb (Tag.type (Node.tag root)) "SEQUENCE"); [|reflexivity].
    destruct (parseX509Certificate root); reflexivity. }
  assert (Hone : loadX509FromBufferSync (b :: rest)
                 = match element (b :: rest) 0 with
                   | Ok root _ =>
                       if String.eqb (Tag.type (Node.tag root)) "SEQUENCE"
                       then ofCompletion (parseX509Certificate root)
                       else LoadThrow (Error ("Expected ASN.1 SEQUENCE at root, got: "
                                              ++ Tag.type (Node.tag root)))
                   | Throw _ _ => LoadThrow (Error "Parsed ASN.1 array is empty")
                   | OutOfFuel => LoadExhausted
                   end).
  { unfold loadX509FromBufferSync. rewrite Hinc. unfold loadRoot.
    pose proof (parseAllNodes_first b rest) as H.
    destruct (element (b :: rest) 0) as [root off'|e off'|].
    - destruct H as [more ->]. reflexivity.
    - rewrite H. reflexivity.
    - destruct H. }
  split; [|split; [|exact Hall]].
  - intros certificate. rewrite Hall, Hone.
    destruct (element (b :: rest) 0) as [root off'|e off'|];
      [|split; discriminate | split; discriminate].
    destruct (String.eqb (Tag.type (Node.tag root)) "SEQUENCE"); [|split; discriminate].
    destruct (parseX509Certificate root); cbn [ofCompletion];
      split; intros H; try discriminate; injection H as <-; reflexivity.
  - intros certificates. rewrite Hall.
    destruct (element (b :: rest) 0) as [root off'|e off'|]; try discriminate.
    destruct (String.eqb (Tag.type (Node.tag root)) "SEQUENCE"); [|discriminate].
    destruct (parseX509Certificate root); try discriminate.
    intros H. injection H as <-. reflexivity.
Qed.

(* ================================================================= *)
(** ** Well-formed elements: the decoded tree, and the extension values decoded from it *)

(** *** The decoded tree mirrors the element *)

Lemma mirrors_children tagBytes lengthBytes children off node :
  mirrors (Constructed tagBytes lengthBytes children) off node
  <-> Node.offset node = off
      /\ tagOf tagBytes (Node.tag node)
      /\ Length.value (Node.length node) = len (flat_map encode children)
      /\ Node.fullHex node = bytesToHex (tagBytes ++ lengthBytes ++ flat_map encode children)
      /\ exists nodes,
           Node.value node = Children nodes
           /\ mirrorsAll children (off + len tagBytes + len lengthBytes) nodes.
Proof.
  cbn [mirrors tagBytesOf contentOf encode].
  assert (Hall : forall ts o ns,
    (fix all (ts : list TLV) (o : Z) (ns : list ASN1StructuredNode) : Prop :=
       match ts, ns with
       | [], [] => True
       | t' :: ts', n :: ns' => mirrors t' o n /\ all ts' (o + len (encode t')) ns'
       | _, _ => False
       end) ts o ns <-> mirrorsAll ts o ns).
  { induction ts as [|t' ts IH]; intros o [|n ns]; cbn [mirrorsAll]; tauto. }
  split; intros (H1 & H2 & H3 & H4 & nodes & H5 & H6);
    (repeat (split; [assumption|])); exists nodes; (split; [assumption|]);
    apply Hall; exact H6.
Qed.

(** The header of a well-formed element, read from the buffer: the node it
    gives, with the tag record spelled out. *)
Lemma parseElementBody_explicit pre tagBytes lengthBytes rest constructed n rec fuel :
  validTag constructed tagBytes = true ->
  validLength lengthBytes n = true ->
  n <= len rest ->
  exists tag encodedHex,
    tagOf tagBytes tag
    /\ parseElementBody (pre ++ tagBytes ++ lengthBytes ++ rest) rec fuel (len pre) =
       let buffer := (pre ++ tagBytes ++ lengthBytes ++ rest)%list in
       let o3 := len pre + len tagBytes + len lengthBytes in
       let length := Length.mk n encodedHex in
       if constructed then
         match parseChildren rec fuel (o3 + n) [] o3 with
         | Ok value o4 =>
             Ok (mkNode tag length (Children value) (len pre)
                   (bytesToHex (slice buffer (len pre) (o3 + n)))) o4
         | Throw e o4 => Throw e o4
         | OutOfFuel => OutOfFuel
         end
       else
         match readBytes buffer n o3 with
         | Ok valueBytes o4 =>
             Ok (mkNode tag length
                   (LeafValue (decodeLeaf (Tag.number tag) valueBytes)) (len pre)
                   (bytesToHex (slice buffer (len pre) o4))) o4
         | Throw e o4 => Throw e o4
         | OutOfFuel => OutOfFuel
         end.
Proof.
  intros Htag Hlen Hn.
  destruct (readTag_at pre constructed tagBytes (lengthBytes ++ rest) Htag)
    as (t & tail & tagNumber & Etag & R1 & Hc & R2).
  pose proof (readLength_at (pre ++ tagBytes) lengthBytes n rest Hlen) as R3.
  rewrite <- app_assoc in R3. rewrite len_app in R3.
  exists (Tag.mk tagNumber (hexByte (u8 t)) (getTagClass (u8 t)) constructed
            (tagToType tagNumber)).
  eexists. split.
  - subst tagBytes. cbn [tagOf Tag.hex Tag.class Tag.constructed Tag.type Tag.number].
    split; [reflexivity|]. split; [apply getTagClass_byte|].
    split; [rewrite <- Hc; apply band_32_byte|]. split; [reflexivity|].
    intros Hne. unfold readTagNumber in R2. rewrite band_31_byte in R2.
    apply Z.eqb_neq in Hne. rewrite Hne in R2. unfold ret in R2. congruence.
  - rewrite (parseElementBody_header _ _ _ _ _ _ _ _ _ _ R1 R2 R3).
    to_len. rewrite !len_app.
    pose proof (len_nonneg pre). pose proof (len_nonneg tagBytes).
    pose proof (len_nonneg lengthBytes).
    replace (len pre + (len tagBytes + (len lengthBytes + len rest))
             <? len pre + len tagBytes + len lengthBytes + n) with false
      by (symmetry; apply Z.ltb_ge; lia).
    cbv zeta. rewrite Hc. cbn [Tag.number]. destruct constructed; reflexivity.
Qed.


Lemma parseChildren_mirrors cs :
  Forall (fun t => valid t = true -> decodesToMirror t) cs ->
  forallb valid cs = true ->
  forall fuel k pre suf acc value stop,
    parseChildren (parseElement (pre ++ flat_map encode cs ++ suf) fuel) k
      (len pre + len (flat_map encode cs)) acc (len pre) = Ok value stop ->
    exists nodes,
      value = (acc ++ nodes)%list
      /\ mirrorsAll cs (len pre) nodes
      /\ stop = len pre + len (flat_map encode cs).
Proof.
  induction 1 as [|t ts Ht Hts IH]; intros Hvalid fuel k pre suf acc value stop H.
  - exists []. cbn [flat_map] in *. change (len (@nil byte)) with 0 in *.
    rewrite Z.add_0_r in *.
    assert (Hk : parseChildren (parseElement (pre ++ [] ++ suf) fuel) k (len pre) acc (len pre)
                 = Ok acc (len pre))
      by (destruct k; cbn [parseChildren]; rewrite Z.ltb_irrefl; reflexivity).
    rewrite Hk in H. injection H as <- <-.
    rewrite app_nil_r. split; [reflexivity|]. split; [exact I | reflexivity].
  - cbn [forallb] in Hvalid. apply andb_true_iff in Hvalid.
    destruct Hvalid as [Hv Hvs].
    cbn [flat_map] in *. rewrite len_app in *.
    pose proof (valid_header t Hv) as Hh.
    pose proof (encode_len t) as He.
    pose proof (len_nonneg (contentOf t)).
    pose proof (len_nonneg (flat_map encode ts)).
    destruct k as [|k].
    + cbn [parseChildren] in H.
      replace (len pre <? len pre + (len (encode t) + len (flat_map encode ts)))
        with true in H by (symmetry; apply Z.ltb_lt; lia).
      discriminate.
    + cbn [parseChildren] in H.
      replace (len pre <? len pre + (len (encode t) + len (flat_map encode ts)))
        with true in H by (symmetry; apply Z.ltb_lt; lia).
      unfold bind in H. rewrite <- (app_assoc (encode t)) in H.
      destruct (parseElement (pre ++ encode t ++ flat_map encode ts ++ suf) fuel (len pre))
        as [child o|e o|] eqn:R; try discriminate.
      destruct (Ht Hv fuel pre (flat_map encode ts ++ suf)%list child o R) as [Hchild ->].
      replace (pre ++ encode t ++ flat_map encode ts ++ suf)%list
        with ((pre ++ encode t) ++ flat_map encode ts ++ suf)%list in H
        by (rewrite <- !app_assoc; reflexivity).
      replace (len pre + (len (encode t) + len (flat_map encode ts)))
        with (len (pre ++ encode t)%list + len (flat_map encode ts)) in H
        by (rewrite len_app; lia).
      replace (len pre + len (encode t)) with (len (pre ++ encode t)%list) in H
        by (rewrite len_app; lia).
      destruct (IH Hvs fuel k (pre ++ encode t)%list suf (acc ++ [child])%list value stop H)
        as (nodes & -> & Hnodes & ->).
      exists (child :: nodes). rewrite <- app_assoc. split; [reflexivity|].
      rewrite len_app in *. split; [|lia].
      cbn [mirrorsAll]. split; assumption.
Qed.

Lemma decoded_mirrors t : valid t = true -> decodesToMirror t.
Proof.
  induction t as [tb lb c|tb lb cs IH] using TLV_ind';
    intros Hvalid fuel pre suf node stop H.
  - (* primitive *)
    cbn [valid] in Hvalid. apply andb_true_iff in Hvalid. destruct Hvalid as [Htag Hlen].
    destruct fuel as [|fuel]; [discriminate|]. rewrite parseElement_S in H.
    cbn [encode] in *. rewrite <- !app_assoc in H.
    destruct (parseElementBody_explicit pre tb lb (c ++ suf) false (len c)
                (parseElement (pre ++ tb ++ lb ++ c ++ suf) fuel) fuel Htag Hlen)
      as (tag & encodedHex & Htagof & R).
    { rewrite len_app. pose proof (len_nonneg suf). lia. }
    rewrite R in H. cbv zeta in H.
    replace (len pre + len tb + len lb) with (len (pre ++ tb ++ lb)%list) in H
      by (rewrite !len_app; lia).
    replace (pre ++ tb ++ lb ++ c ++ suf)%list with ((pre ++ tb ++ lb) ++ c ++ suf)%list in H
      by (rewrite <- !app_assoc; reflexivity).
    rewrite readBytes_at in H.
    replace ((pre ++ tb ++ lb) ++ c ++ suf)%list with (pre ++ (tb ++ lb ++ c) ++ suf)%list in H
      by (rewrite <- !app_assoc; reflexivity).
    replace (len (pre ++ tb ++ lb)%list + len c) with (len pre + len (tb ++ lb ++ c)%list) in H
      by (rewrite !len_app; lia).
    rewrite slice_middle in H. injection H as <- <-.
    split; [|reflexivity].
    cbn [mirrors tagBytesOf contentOf encode Node.offset Node.tag Node.length Node.fullHex
         Node.value Length.value].
    repeat split; try reflexivity; exact Htagof.
  - (* constructed *)
    cbn [valid] in Hvalid. apply andb_true_iff in Hvalid. destruct Hvalid as [Hvalid Hcs].
    apply andb_true_iff in Hvalid. destruct Hvalid as [Htag Hlen].
    destruct fuel as [|fuel]; [discriminate|]. rewrite parseElement_S in H.
    cbn [encode] in *. rewrite <- !app_assoc in H.
    set (content := flat_map encode cs) in *.
    destruct (parseElementBody_explicit pre tb lb (content ++ suf) true (len content)
                (parseElement (pre ++ tb ++ lb ++ content ++ suf) fuel) fuel Htag Hlen)
      as (tag & encodedHex & Htagof & R).
    { rewrite len_app. pose proof (len_nonneg suf). lia. }
    rewrite R in H. cbv zeta in H.
    replace (len pre + len tb + len lb) with (len (pre ++ tb ++ lb)%list) in H
      by (rewrite !len_app; lia).
    replace (pre ++ tb ++ lb ++ content ++ suf)%list
      with ((pre ++ tb ++ lb) ++ content ++ suf)%list in H
      by (rewrite <- !app_assoc; reflexivity).
    destruct (parseChildren (parseElement ((pre ++ tb ++ lb) ++ content ++ suf) fuel) fuel
                (len (pre ++ tb ++ lb)%list + len content) [] (len (pre ++ tb ++ lb)%list))
      as [value o4|e o4|] eqn:Rc; try discriminate.
    destruct (parseChildren_mirrors cs IH Hcs fuel fuel (pre ++ tb ++ lb)%list suf []
                value o4 Rc) as (nodes & -> & Hnodes & ->).
    cbn [app] in H.
    replace ((pre ++ tb ++ lb) ++ content ++ suf)%list
      with (pre ++ (tb ++ lb ++ content) ++ suf)%list in H
      by (rewrite <- !app_assoc; reflexivity).
    replace (len (pre ++ tb ++ lb)%list + len content)
      with (len pre + len (tb ++ lb ++ content)%list) in H
      by (rewrite !len_app; lia).
    rewrite slice_middle in H. injection H as <- <-.
    split; [|rewrite !len_app; unfold content; lia].
    apply mirrors_children.
    cbn [Node.offset Node.tag Node.length Node.fullHex Node.value Length.value].
    fold content.
    split; [reflexivity|]. split; [exact Htagof|]. split; [reflexivity|].
    split; [reflexivity|].
    exists nodes. split; [reflexivity|].
    rewrite !len_app in Hnodes.
    replace (len pre + len tb + len lb) with (len pre + (len tb + len lb)) by lia.
    exact Hnodes.
Qed.

Lemma mirrorsAll_length ts off nodes :
  mirrorsAll ts off nodes -> List.length nodes = List.length ts.
Proof.
  revert off nodes. induction ts as [|t ts IH]; intros off [|n ns] H;
    cbn [mirrorsAll] in H; try contradiction; [reflexivity|].
  destruct H as [_ H]. cbn [List.length]. rewrite (IH _ _ H). reflexivity.
Qed.

Lemma accounted_mirrors ts :
  forallb valid ts = true ->
  forall pre nodes,
    accounted (pre ++ flat_map encode ts) ts (len pre) nodes ->
    mirrorsAll ts (len pre) nodes.
Proof.
  intros Hvalid.
  induction ts as [|t ts IH]; intros pre nodes Hacc.
  - destruct nodes; [exact I | destruct Hacc].
  - cbn [forallb] in Hvalid. apply andb_true_iff in Hvalid.
    destruct Hvalid as [Hv Hvs].
    destruct nodes as [|node nodes]; [destruct Hacc|].
    cbn [accounted flat_map] in Hacc. destruct Hacc as (R & _ & Hrest).
    unfold element in R.
    destruct (decoded_mirrors t Hv _ pre (flat_map encode ts) node _ R) as [Hm _].
    cbn [mirrorsAll]. split; [exact Hm|].
    specialize (IH Hvs (pre ++ encode t)%list nodes).
    rewrite len_app in IH. rewrite <- app_assoc in IH.
    apply IH.
    replace (len pre + len (encode t))
      with (len pre + headerLength t + len (contentOf t))
      by (rewrite encode_len; lia).
    exact Hrest.
Qed.

(** A buffer that holds well-formed elements is decoded to their trees. *)
Lemma parseAllNodes_mirrors ts :
  forallb valid ts = true ->
  exists nodes,
    parseAllNodes (flat_map encode ts) = Return nodes /\ mirrorsAll ts 0 nodes.
Proof.
  intros Hvalid.
  destruct (parseLoop_valid ts Hvalid false
              (S (List.length (flat_map encode ts))) [] [])
    as (nodes & R & _ & Hacc).
  { pose proof (flat_map_encode_length ts Hvalid). unfold len in *. lia. }
  cbn [app] in R, Hacc. change (len (@nil byte)) with 0 in *.
  exists nodes. split.
  - unfold parseAllNodes, parseASN1, parse. rewrite R. reflexivity.
  - exact (accounted_mirrors ts Hvalid [] nodes Hacc).
Qed.


(** *** Extension values that are well-formed *)

Lemma mirrors_value_constructed tagBytes lengthBytes children off node :
  mirrors (Constructed tagBytes lengthBytes children) off node ->
  exists nodes,
    Node.value node = Children nodes
    /\ mirrorsAll children (off + len tagBytes + len lengthBytes) nodes.
Proof.
  intros H. apply mirrors_children in H.
  destruct H as (_ & _ & _ & _ & H). exact H.
Qed.

Lemma mirrors_single t off nodes :
  mirrorsAll [t] off nodes -> exists node, nodes = [node] /\ mirrors t off node.
Proof.
  destruct nodes as [|node [|other rest]]; cbn [mirrorsAll]; try tauto.
  intros [H _]. eauto.
Qed.

(** The raw hex of a value node that holds one well-formed SEQUENCE: the
    decoders that decode it again work on the trees of its elements. *)
Lemma topSequence_mirrors node lengthBytes children :
  valid (Constructed [x30] lengthBytes children) = true ->
  getRawHex node = Some (bytesToHex (encode (Constructed [x30] lengthBytes children))) ->
  exists nodes,
    topSequence node = Return (Some nodes)
    /\ mirrorsAll children (1 + len lengthBytes) nodes.
Proof.
  intros Hvalid Hraw.
  set (t := Constructed [x30] lengthBytes children) in *.
  destruct (parseAllNodes_mirrors [t]) as (roots & Hparse & Hroots).
  { cbn [forallb]. rewrite Hvalid. reflexivity. }
  cbn [flat_map] in Hparse. rewrite app_nil_r in Hparse.
  destruct (mirrors_single _ _ _ Hroots) as (root & -> & Hroot).
  pose proof Hroot as Hshape. apply mirrors_children in Hshape.
  destruct Hshape as (_ & Htag & _ & _ & nodes & Hvalue & Hnodes).
  cbn [tagOf] in Htag. destruct Htag as (_ & _ & _ & Htype & Hnumber).
  rewrite (Hnumber ltac:(vm_compute; discriminate)) in Htype.
  exists nodes. split; [|exact Hnodes].
  unfold topSequence. rewrite Hraw.
  destruct (bytesToHex (encode t)) as [|c hex] eqn:Ehex.
  { exfalso. unfold t in Ehex. cbn [encode app] in Ehex.
    exact (bytesToHex_nonempty _ _ Ehex). }
  rewrite <- Ehex, hexToArrayBuffer_bytesToHex. cbn [andThen].
  rewrite Hparse. cbn [andThen].
  unfold findSequence. cbn [find]. rewrite Htype.
  replace (String.eqb (tagToType (u8 x30 mod 32)) "SEQUENCE") with true by reflexivity.
  rewrite Hvalue. reflexivity.
Qed.

Lemma getDecoded_oid lengthBytes content off node :
  mirrors (Primitive [x06] lengthBytes content) off node ->
  getDecoded (Some node) = Some (DString (decodeOID content)).
Proof.
  cbn [mirrors tagBytesOf tagOf]. intros (_ & (_ & _ & _ & Htype & Hnumber) & _ & _ & Hvalue).
  rewrite (Hnumber ltac:(vm_compute; discriminate)) in Htype, Hvalue.
  unfold getDecoded. rewrite Hvalue.
  replace (u8 x06 mod 32) with 6 in * by reflexivity.
  cbn [decodeLeaf Leaf.decoded Z.eqb Pos.eqb]. unfold reparseTime, isTimeType.
  rewrite Htype. reflexivity.
Qed.

(** X28.  [parseExtendedKeyUsage] on a well-formed value, a SEQUENCE of
    OBJECT IDENTIFIER elements: the usages are the identifiers as [decodeOID]
    prints them, in the order of the value, each with the label
    [getOIDLabel] gives it. *)
Theorem extendedKeyUsage_lists_the_purposes
    (node : maybeNode) (lengthBytes : list byte) (items : list (list byte * list byte)) :
  valid (Constructed [x30] lengthBytes (map oidElement items)) = true ->
  getRawHex node
  = Some (bytesToHex (encode (Constructed [x30] lengthBytes (map oidElement items)))) ->
  parseKnownExtension (DString (JS.js "2.5.29.37")) node
  = Return (ExtendedKeyUsage
              (map (fun item => oidLabel (DString (decodeOID (snd item)))) items)).
Proof.
  intros Hvalid Hraw.
  destruct (topSequence_mirrors node lengthBytes _ Hvalid Hraw) as (nodes & Htop & Hnodes).
  assert (Hmap : forall items off nodes,
             mirrorsAll (map oidElement items) off nodes ->
             map (fun usageNode => oidLabel (orUnknown (getDecoded (Some usageNode)))) nodes
             = map (fun item => oidLabel (DString (decodeOID (snd item)))) items).
  { clear. induction items as [|[lb content] items IH]; intros off [|n ns] H;
      cbn [map mirrorsAll] in H; try contradiction; [reflexivity|].
    destruct H as [Hn Hns]. cbn [map snd].
    unfold oidElement in Hn. cbn [fst snd] in Hn.
    rewrite (getDecoded_oid _ _ _ _ Hn). cbn [orUnknown].
    f_equal. exact (IH _ _ Hns). }
  unfold parseKnownExtension.
  replace (isString (DString (JS.js "2.5.29.37")) "2.5.29.17") with false by reflexivity.
  replace (isString (DString (JS.js "2.5.29.37")) "2.5.29.15") with false by reflexivity.
  replace (isString (DString (JS.js "2.5.29.37")) "2.5.29.19") with false by reflexivity.
  replace (isString (DString (JS.js "2.5.29.37")) "2.5.29.31") with false by reflexivity.
  replace (isString (DString (JS.js "2.5.29.37")) "2.5.29.32") with false by reflexivity.
  replace (isString (DString (JS.js "2.5.29.37")) "2.5.29.35") with false by reflexivity.
  replace (isString (DString (JS.js "2.5.29.37")) "2.5.29.37") with true by reflexivity.
  unfold parseExtendedKeyUsage. rewrite Htop. cbn [andThen].
  rewrite (Hmap _ _ _ Hnodes). reflexivity.
Qed.

Lemma decodeGeneralName_text kind lengthBytes content off node :
  mirrors (textNameElement (kind, lengthBytes, content)) off node ->
  isContextSpecific node = true
  /\ decodeGeneralName node
     = Return (mkGeneralName (textNameType kind) (GNText (map u8 content))).
Proof.
  unfold textNameElement. cbn [fst snd mirrors tagBytesOf tagOf].
  intros (_ & (_ & Hclass & _ & _ & Hnumber) & _ & _ & Hvalue).
  assert (Hraw : Leaf.rawHex (decodeLeaf (Tag.number (Node.tag node)) content)
                 = bytesToHex content) by reflexivity.
  pose proof (decodeContextString_bytes node _ content Hvalue Hraw) as Htext.
  unfold isContextSpecific, decodeGeneralName. rewrite Hclass. cbv zeta. rewrite Htext.
  destruct kind; rewrite (Hnumber ltac:(vm_compute; discriminate));
    split; reflexivity.
Qed.

(** X29.  [parseSubjectAltName] on a well-formed value, a SEQUENCE of
    primitive general names of the kinds rfc822Name, dNSName and
    uniformResourceIdentifier (the tags [81], [82] and [86]): the names are
    returned in the order of the value, each with its type (email, DNS, URI)
    and its content read one character per byte. *)
Theorem subjectAltName_lists_the_names
    (node : maybeNode) (lengthBytes : list byte)
    (items : list (TextName * list byte * list byte)) :
  valid (Constructed [x30] lengthBytes (map textNameElement items)) = true ->
  getRawHex node
  = Some (bytesToHex (encode (Constructed [x30] lengthBytes (map textNameElement items)))) ->
  parseKnownExtension (DString (JS.js "2.5.29.17")) node
  = Return (SubjectAltName
              (map (fun item => mkGeneralName (textNameType (fst (fst item)))
                                  (GNText (map u8 (snd item))))
                 items)).
Proof.
  intros Hvalid Hraw.
  destruct (topSequence_mirrors node lengthBytes _ Hvalid Hraw) as (nodes & Htop & Hnodes).
  assert (Hmap : forall items off nodes,
             mirrorsAll (map textNameElement items) off nodes ->
             mapM decodeGeneralName (filter isContextSpecific nodes)
             = Return (map (fun item => mkGeneralName (textNameType (fst (fst item)))
                                          (GNText (map u8 (snd item)))) items)).
  { clear. induction items as [|[[kind lb] content] items IH]; intros off [|n ns] H;
      cbn [map mirrorsAll] in H; try contradiction; [reflexivity|].
    destruct H as [Hn Hns]. cbn [fst snd].
    destruct (decodeGeneralName_text kind lb content off n Hn) as [Hc Hd].
    cbn [filter]. rewrite Hc. cbn [mapM]. rewrite Hd. cbn [andThen].
    rewrite (IH _ _ Hns). reflexivity. }
  unfold parseKnownExtension.
  replace (isString (DString (JS.js "2.5.29.17")) "2.5.29.17") with true by reflexivity.
  unfold parseSubjectAltName, parseASN1FromRawHex. rewrite Htop. cbn [andThen].
  rewrite (Hmap _ _ _ Hnodes). reflexivity.
Qed.

Lemma getDecoded_constructed rdns off nodes i :
  forallb isConstructed rdns = true ->
  mirrorsAll rdns off nodes ->
  getDecoded (at_ nodes i) = None.
Proof.
  revert off nodes i. induction rdns as [|rdn rdns IH]; intros off [|n ns] i Hc H;
    cbn [mirrorsAll] in H; try contradiction.
  - destruct i; reflexivity.
  - cbn [forallb] in Hc. apply andb_true_iff in Hc. destruct Hc as [Hrdn Hc].
    destruct H as [Hn Hns]. destruct i as [|i].
    + destruct rdn as [|tb lb cs]; [discriminate|].
      destruct (mirrors_value_constructed _ _ _ _ _ Hn) as (children & Hv & _).
      cbn [at_ nth_error getDecoded]. rewrite Hv. reflexivity.
    + exact (IH _ _ i Hc Hns).
Qed.

(** X30.  [parseDirectoryName] does not read the name it is given: it
    decodes the whole element again, so that what it takes for the relative
    distinguished names is the element itself, and what it takes for the
    type and the value of an attribute are the first two relative
    distinguished names.  For every well-formed directoryName, an element
    that holds a SEQUENCE of constructed elements (the SETs), the result is
    the single part "Unknown=Unknown", whatever the name is. *)
Theorem directoryName_is_always_Unknown
    (name : ASN1StructuredNode)
    (tagBytes lengthBytes nameTag nameLength : list byte) (rdns : list TLV) :
  valid (Constructed tagBytes lengthBytes [Constructed nameTag nameLength rdns]) = true ->
  forallb isConstructed rdns = true ->
  Node.fullHex name
  = bytesToHex (encode (Constructed tagBytes lengthBytes
                          [Constructed nameTag nameLength rdns])) ->
  parseDirectoryName name = Return (GNDirectoryName [unknownPart])
  /\ (Tag.number (Node.tag name) = 4 ->
      decodeGeneralName name
      = Return (mkGeneralName GN_directoryName (GNDirectoryName [unknownPart]))).
Proof.
  intros Hvalid Hsets Hfull.
  set (t := Constructed tagBytes lengthBytes [Constructed nameTag nameLength rdns]) in *.
  assert (Hparse : parseDirectoryName name = Return (GNDirectoryName [unknownPart])).
  { destruct (parseAllNodes_mirrors [t]) as (roots & Hparse & Hroots).
    { cbn [forallb]. rewrite Hvalid. reflexivity. }
    cbn [flat_map] in Hparse. rewrite app_nil_r in Hparse.
    destruct (mirrors_single _ _ _ Hroots) as (root & -> & Hroot).
    destruct (mirrors_value_constructed _ _ _ _ _ Hroot) as (inner & Hvalue & Hinner).
    destruct (mirrors_single _ _ _ Hinner) as (nameNode & -> & HnameNode).
    destruct (mirrors_value_constructed _ _ _ _ _ HnameNode) as (sets & Hsetsv & Hmirror).
    unfold parseDirectoryName. rewrite Hfull, hexToArrayBuffer_bytesToHex.
    cbn [andThen]. rewrite Hparse. cbn [andThen map].
    unfold elements. rewrite Hvalue.
    change (at_ [nameNode] 0) with (Some nameNode). cbv beta iota. rewrite Hsetsv.
    rewrite (getDecoded_constructed rdns _ sets 0 Hsets Hmirror).
    rewrite (getDecoded_constructed rdns _ sets 1 Hsets Hmirror).
    reflexivity. }
  split; [exact Hparse|].
  intros Hnumber. unfold decodeGeneralName. rewrite Hnumber, Hparse. reflexivity.
Qed.

(* ================================================================= *)
(** ** These theorems at particular inputs *)

(** The SEQUENCE that opens [sampleBytes] spans its first eight bytes, and
    its two children start inside them. *)
Lemma sampleBytes_nodes_within :
  exists node,
    element sampleBytes 0 = Ok node 8
    /\ Node.offset node = 0
    /\ everyNode (within 0 8) node.
Proof.
  destruct (element sampleBytes 0) as [node off| |] eqn:E;
    try (vm_compute in E; discriminate).
  exists node.
  pose proof (decoded_nodes_lie_within_their_element sampleBytes _ 0 node off E)
    as (_ & _ & Hoff & H).
  assert (off = 8) as -> by (vm_compute in E; congruence).
  split; [reflexivity|]. split; [exact Hoff | exact H].
Defined.

(** The tag records of the nodes of [contextSixteen] are read off the bytes
    [b0] and [05]. *)
Lemma contextSixteen_tag_records :
  exists node,
    element contextSixteen 0 = Ok node 4
    /\ everyNode (tagOfFirstByte contextSixteen) node.
Proof.
  destruct (element contextSixteen 0) as [node off| |] eqn:E;
    try (vm_compute in E; discriminate).
  exists node.
  pose proof (tag_record_is_read_off_first_byte contextSixteen _ 0 node off E) as H.
  assert (off = 4) as -> by (vm_compute in E; congruence).
  split; [reflexivity | exact H].
Defined.

(** The hex dumps of the primitive nodes of [sampleBytes]. *)
Lemma sampleBytes_hex_dumps :
  exists node,
    element sampleBytes 0 = Ok node 8
    /\ everyNode (faithfulLeaf sampleBytes) node.
Proof.
  destruct (element sampleBytes 0) as [node off| |] eqn:E;
    try (vm_compute in E; discriminate).
  exists node.
  pose proof (primitive_hex_dumps_are_faithful sampleBytes _ 0 node off E) as H.
  assert (off = 8) as -> by (vm_compute in E; congruence).
  split; [reflexivity | exact H].
Defined.

(** [30 80] (the indefinite form) and [30 82 01] (two length bytes
    announced, one held) are refused. *)
Lemma length_forms_refused :
  validTag true [x30] = true
  /\ parseElement [x30; x80] 1 0
     = Throw (Error "Invalid length encoding at offset 1") 2
  /\ parseElement [x30; x82; x01] 1 0
     = Throw (Error "Length extends beyond buffer at offset 2") 2.
Proof.
  split; [reflexivity|]. split.
  - apply (proj1 (unsupported_length_forms_are_refused [] [x30] x80 [] true 0 eq_refl)).
    left. reflexivity.
  - apply (proj2 (unsupported_length_forms_are_refused [] [x30] x82 [x01] true 0 eq_refl)).
    + vm_compute. split; discriminate.
    + reflexivity.
Defined.

(** The tag number of [1f 81 00 00] is 128. *)
Lemma highTagElement_number :
  exists node,
    element highTagElement 0 = Ok node 4
    /\ Tag.number (Node.tag node) = base128 [x81; x00]
    /\ base128 [x81; x00] = 128.
Proof.
  destruct (element highTagElement 0) as [node off| |] eqn:E;
    try (vm_compute in E; discriminate).
  exists node.
  assert (H : Tag.number (Node.tag node) = base128 [x81; x00]).
  { apply (high_tag_number_is_base_128 [] x1f [x81; x00] [x00]
             (S (List.length highTagElement)) node off);
      [reflexivity | reflexivity | reflexivity | exact E]. }
  assert (off = 4) as -> by (vm_compute in E; congruence).
  split; [reflexivity|]. split; [exact H | reflexivity].
Defined.

(** [2a 86 48 86 f7 0d] is printed "1.2.840.113549". *)
Lemma decodeOID_rsadsi :
  forallb arcBytes sampleArcs = true
  /\ decodeOID (x2a :: List.concat sampleArcs) = JS.js "1.2.840.113549".
Proof.
  split; [reflexivity|].
  rewrite (proj1 (decodeOID_prints_the_arcs x2a sampleArcs eq_refl)).
  reflexivity.
Defined.

(** "20230101120000Z" is of the pattern, and decoded to the instant of its
    fields. *)
Lemma generalizedTime_sample :
  isGeneralizedTimeForm (decodeString (asciiBytes "20230101120000Z")) = true
  /\ decodeDate (asciiBytes "20230101120000Z") 24
     = DDate (generalizedInstant (decodeString (asciiBytes "20230101120000Z")))
  /\ generalizedInstant (decodeString (asciiBytes "20230101120000Z"))
     = Some 1672574400000.
Proof.
  split; [reflexivity|]. split; [|reflexivity].
  apply (proj1 generalizedTime_decoding). reflexivity.
Defined.

(** "abc" has an odd number of characters. *)
Lemma hexToArrayBuffer_abc :
  Nat.even (String.length "abc") = false
  /\ hexToArrayBuffer "abc" = Raise (Error "Invalid hex string").
Proof.
  split; [reflexivity|].
  apply (proj1 (hexToArrayBuffer_fails_on_odd_length_only "abc")). reflexivity.
Defined.



(** On the value [04 02 05 00], whose raw hex is "0500", the four decoders
    return. *)
Lemma extensionValueNull_decoders_return :
  Nat.even (String.length (rawHexOrEmpty (firstNode extensionValueNull))) = true
  /\ (exists v, parseKnownExtension (DString (JS.js "2.5.29.37"))
                  (firstNode extensionValueNull)
                = Return (ExtendedKeyUsage v))
  /\ (exists v, parseKnownExtension (DString (JS.js "2.5.29.35"))
                  (firstNode extensionValueNull)
                = Return (AuthorityKeyIdentifierValue v))
  /\ (exists v, parseKnownExtension (DString (JS.js "1.3.6.1.5.5.7.1.3"))
                  (firstNode extensionValueNull)
                = Return (QCStatements v))
  /\ (exists v, parseKnownExtension (DString (JS.js "2.5.29.15"))
                  (firstNode extensionValueNull)
                = Return (KeyUsage v)).
Proof.
  split; [reflexivity|].
  apply (decoders_that_never_throw (firstNode extensionValueNull)). reflexivity.
Defined.

(** [82 01 61] is the DNS name "a". *)
Lemma dnsNameA_text :
  exists name leaf,
    firstNode dnsNameA = Some name
    /\ Node.value name = LeafValue leaf
    /\ Leaf.rawHex leaf = bytesToHex [x61]
    /\ Tag.number (Node.tag name) = 2
    /\ decodeGeneralName name = Return (mkGeneralName GN_DNS (GNText (JS.js "a"))).
Proof.
  destruct (firstNode dnsNameA) as [name|] eqn:E; [|vm_compute in E; discriminate].
  destruct (Node.value name) as [nodes|leaf] eqn:Ev;
    [vm_compute in E; injection E as <-; discriminate|].
  assert (Hraw : Leaf.rawHex leaf = bytesToHex [x61])
    by (vm_compute in E; injection E as <-; vm_compute in Ev; injection Ev as <-;
        reflexivity).
  assert (Hnum : Tag.number (Node.tag name) = 2)
    by (vm_compute in E; injection E as <-; reflexivity).
  exists name, leaf. split; [reflexivity|]. split; [exact Ev|].
  split; [exact Hraw|]. split; [exact Hnum|].
  apply (proj1 (proj2 (general_name_text_is_the_content name leaf [x61] Ev Hraw))).
  exact Hnum.
Defined.

(** [87 04 c0 a8 00 01] is the address "192.168.0.1". *)
Lemma ipAddressName_text :
  exists name leaf,
    firstNode ipAddressName = Some name
    /\ Node.value name = LeafValue leaf
    /\ Leaf.rawHex leaf = bytesToHex [xc0; xa8; x00; x01]
    /\ decodeIPAddress name = JS.js "192.168.0.1".
Proof.
  destruct (firstNode ipAddressName) as [name|] eqn:E; [|vm_compute in E; discriminate].
  destruct (Node.value name) as [nodes|leaf] eqn:Ev;
    [vm_compute in E; injection E as <-; discriminate|].
  assert (Hraw : Leaf.rawHex leaf = bytesToHex [xc0; xa8; x00; x01])
    by (vm_compute in E; injection E as <-; vm_compute in Ev; injection Ev as <-;
        reflexivity).
  exists name, leaf. split; [reflexivity|]. split; [exact Ev|].
  split; [exact Hraw|].
  rewrite (proj1 (ip_address_of_four_bytes name leaf _ Ev Hraw) xc0 xa8 x00 x01 eq_refl).
  reflexivity.
Defined.

(** An IA5String of content "ab" has no decoded value, and is forced to
    "ab". *)
Lemma ia5String_forced :
  Tag.type ia5Tag = tagToType (Tag.number ia5Tag)
  /\ getDecoded (Some (mkNode ia5Tag (Length.mk 2 "02")
                         (LeafValue (decodeLeaf 22 (asciiBytes "ab"))) 0 "16026162"))
     = None
  /\ getDecodedOrForceString
       (Some (mkNode ia5Tag (Length.mk 2 "02")
                (LeafValue (decodeLeaf 22 (asciiBytes "ab"))) 0 "16026162"))
     = Some (DString (JS.js "ab")).
Proof.
  split; [reflexivity|].
  destruct (proj1 (undecoded_strings_are_forced ia5Tag (Length.mk 2 "02")
                     (asciiBytes "ab") 0 "16026162" eq_refl)) as [H1 H2].
  - cbn. intros H. repeat (destruct H as [H|H]; [discriminate|]). exact H.
  - split; [exact H1 | exact H2].
Defined.

(** "20230101120000.5Z": the fraction is dropped. *)
Lemma parseASN1Date_fraction :
  forallb isDigit [50; 48; 50; 51; 48; 49; 48; 49; 49; 50; 48; 48; 48; 48] = true
  /\ parseASN1Date (JS.js "20230101120000.5Z") = DDate (Some 1672574400000).
Proof.
  split; [reflexivity|].
  change (JS.js "20230101120000.5Z")
    with ([50; 48; 50; 51; 48; 49; 48; 49; 49; 50; 48; 48; 48; 48] ++ [46; 53] ++ [90])%list.
  rewrite parseASN1Date_reads_fourteen_digits by reflexivity.
  reflexivity.
Defined.

(** The DER bytes [certificateFourChildren] are loaded to a certificate. *)
Lemma certificateFourChildren_loaded :
  certificateFourChildren <> []
  /\ includes beginMarker (bufferToUtf8 certificateFourChildren) = false
  /\ exists certificate,
       loadX509FromBufferSync certificateFourChildren = LoadReturn certificate.
Proof.
  split; [discriminate|]. split; [vm_compute; reflexivity|].
  rewrite (proj1 (proj2 (loadX509_reads_the_first_element certificateFourChildren))
             ltac:(discriminate) ltac:(vm_compute; reflexivity)).
  vm_compute. eexists. reflexivity.
Defined.

(** The PEM file of [certificateFourChildren] is loaded as its bytes are. *)
Lemma armoured_certificate_loaded :
  armoured certificateFourChildren <> []
  /\ bufferToUtf8 (armoured certificateFourChildren)
     = (beginMarker ++ armouredBody certificateFourChildren ++ endMarker ++ [10])%list
  /\ filter (fun c => negb (JS.isWhiteSpace c)) (armouredBody certificateFourChildren)
     = JS.js (btoa certificateFourChildren)
  /\ loadX509FromBufferSync (armoured certificateFourChildren)
     = loadRoot certificateFourChildren.
Proof.
  split; [discriminate|].
  assert (Htext : bufferToUtf8 (armoured certificateFourChildren)
                  = (beginMarker ++ armouredBody certificateFourChildren
                     ++ endMarker ++ [10])%list)
    by (vm_compute; reflexivity).
  assert (Hfilter : filter (fun c => negb (JS.isWhiteSpace c))
                      (armouredBody certificateFourChildren)
                    = JS.js (btoa certificateFourChildren))
    by (vm_compute; reflexivity).
  split; [exact Htext|]. split; [exact Hfilter|].
  apply (loadX509_removes_the_PEM_armour (armoured certificateFourChildren)
           (armouredBody certificateFourChildren) [10] certificateFourChildren);
    [discriminate | exact Htext | discriminate | | exact Hfilter].
  apply Forall_forall. intros c Hc.
  assert (Hall : forallb (fun c => negb (c =? 45))
                   (armouredBody certificateFourChildren) = true)
    by (vm_compute; reflexivity).
  rewrite forallb_forall in Hall. specialize (Hall c Hc).
  intros ->. discriminate.
Defined.

(** A primitive element that declares five content bytes and holds one. *)
Lemma declared_length_five_of_one :
  validTag false [x04] = true
  /\ validLength [x05] 5 = true
  /\ parseElement [x04; x05; x01] 1 0 = Throw (declaredLengthError 0) 2.
Proof.
  split; [reflexivity|]. split; [reflexivity|].
  apply (declared_length_checked [] [x04] [x05] [x01] false 5 0);
    [reflexivity | reflexivity | vm_compute; reflexivity].
Defined.

(** [ff 7f] is -129. *)
Lemma decodeInteger_ff7f :
  (List.length [xff; x7f] <= 3)%nat
  /\ decodeInteger [xff; x7f] = twosComplement [xff; x7f]
  /\ twosComplement [xff; x7f] = -129.
Proof.
  split; [cbn; lia|]. split; [|reflexivity].
  apply (decodeInteger_up_to_three_bytes [xff; x7f]). cbn. lia.
Defined.

(** The key usage [03 02 00 80]: digitalSignature alone. *)
Lemma keyUsageDigitalSignature_bits :
  rawHexOrEmpty (firstNode keyUsageDigitalSignature) = bytesToHex [x03; x02; x00; x80]
  /\ parseKnownExtension (DString (JS.js "2.5.29.15")) (firstNode keyUsageDigitalSignature)
     = Return (KeyUsage
                 (map (fun '(bit, label) => (label, keyUsageBit (u8 x00) [x80] bit))
                    KeyUsageLabels))
  /\ keyUsageBit (u8 x00) [x80] 0 = true
  /\ keyUsageBit (u8 x00) [x80] 1 = false.
Proof.
  split; [reflexivity|]. split; [|split; reflexivity].
  apply (keyUsage_extension_bits (firstNode keyUsageDigitalSignature) x02 x00 [x80]);
    [discriminate | cbn; lia | reflexivity].
Defined.

Lemma no_hyphen_checked (s : JS.jsstring) :
  forallb (fun c => negb (c =? 45)) s = true -> Forall (fun c => c <> 45) s.
Proof.
  intros H. apply Forall_forall. intros c Hc.
  rewrite forallb_forall in H. specialize (H c Hc).
  intros ->. discriminate.
Qed.

(** The context-specific element [82 01 61] carries the [decoded] value of
    an INTEGER, 97. *)
Lemma dnsNameA_decoded_as_integer :
  exists node leaf,
    element dnsNameA 0 = Ok node 3
    /\ Tag.class (Node.tag node) = CONTEXT_SPECIFIC
    /\ Node.value node = LeafValue leaf
    /\ decodedByNumber dnsNameA node
    /\ Leaf.decoded leaf = Some (DInteger 97).
Proof.
  destruct (element dnsNameA 0) as [node off| |] eqn:E;
    try (vm_compute in E; discriminate).
  pose proof (primitive_value_is_decoded_by_tag_number dnsNameA _ 0 node off E) as H.
  assert (off = 3) as -> by (vm_compute in E; congruence).
  destruct (Node.value node) as [nodes|leaf] eqn:Ev;
    [vm_compute in E; injection E as <-; discriminate|].
  exists node, leaf. split; [reflexivity|].
  split; [vm_compute in E; injection E as <-; reflexivity|].
  split; [exact Ev|].
  assert (Hnode : decodedByNumber dnsNameA node)
    by (destruct node; exact (proj1 H)).
  split; [exact Hnode|].
  vm_compute in E. injection E as <-. vm_compute in Ev. injection Ev as <-.
  reflexivity.
Defined.

(** [sampleSequence] with its last byte missing is refused for its declared
    length. *)
Lemma sampleSequenceCut_refused :
  valid sampleSequence = true
  /\ encode sampleSequence = (sampleSequenceCut ++ [xff])%list
  /\ headerLength sampleSequence <= len sampleSequenceCut
  /\ exists off,
       parseElement sampleSequenceCut 1 0 = Throw (declaredLengthError 0) off
       /\ off = 2.
Proof.
  split; [reflexivity|]. split; [reflexivity|]. split; [vm_compute; discriminate|].
  destruct (truncated_element_is_refused [] sampleSequence sampleSequenceCut [xff] 0
              eq_refl eq_refl ltac:(discriminate)) as (e & off & H & Hh).
  destruct (Hh ltac:(vm_compute; discriminate)) as [-> ->].
  exists (len (@nil byte) + headerLength sampleSequence).
  split; [exact H | reflexivity].
Defined.

(** The two certificates of [chain] are loaded in order. *)
Lemma chain_loaded :
  bufferToUtf8 chain = ([] ++ pemText chainBlocks)%list
  /\ Forall2 armours chainBlocks [certificateFourChildren; certificateUnknownExtension]
  /\ loadX509AllFromBufferSync chain
     = pushEach (loadRootOfAll "Invalid ASN.1 root node in one of the certificates")
         [certificateFourChildren; certificateUnknownExtension]
  /\ exists first second,
       loadX509AllFromBufferSync chain = LoadReturn [first; second].
Proof.
  assert (Htext : bufferToUtf8 chain = ([] ++ pemText chainBlocks)%list)
    by (vm_compute; reflexivity).
  assert (Harm : Forall2 armours chainBlocks
                   [certificateFourChildren; certificateUnknownExtension]).
  { apply Forall2_cons; [|apply Forall2_cons; [|apply Forall2_nil]];
      (split; [discriminate|]);
      (split; [apply no_hyphen_checked; vm_compute; reflexivity|]);
      (split; [apply no_hyphen_checked; vm_compute; reflexivity|]);
      vm_compute; reflexivity. }
  pose proof (proj1 (loadX509All_reads_every_block chain [] chainBlocks
                       [certificateFourChildren; certificateUnknownExtension]
                       Htext ltac:(discriminate) ltac:(constructor) Harm)) as H.
  split; [exact Htext|]. split; [exact Harm|]. split; [exact H|].
  rewrite H. vm_compute. do 2 eexists. reflexivity.
Defined.

(** On the DER bytes [certificateFourChildren] the two loaders agree. *)
Lemma certificateFourChildren_loaded_alone :
  certificateFourChildren <> []
  /\ includes beginMarker (bufferToUtf8 certificateFourChildren) = false
  /\ exists certificate,
       loadX509FromBufferSync certificateFourChildren = LoadReturn certificate
       /\ loadX509AllFromBufferSync certificateFourChildren = LoadReturn [certificate].
Proof.
  split; [discriminate|]. split; [vm_compute; reflexivity|].
  destruct (proj2 (loadX509All_on_DER_agrees_with_single certificateFourChildren)
              ltac:(discriminate) ltac:(vm_compute; reflexivity)) as (Hiff & _ & _).
  destruct (loadX509FromBufferSync certificateFourChildren) as [certificate| | |] eqn:E;
    try (vm_compute in E; discriminate).
  exists certificate. split; [reflexivity|]. apply Hiff. reflexivity.
Defined.


(** The extendedKeyUsage value that holds serverAuth. *)
Lemma extendedKeyUsageServerAuth_usages :
  valid (Constructed [x30] [x0a] (map oidElement serverAuthItems)) = true
  /\ getRawHex (firstNode extendedKeyUsageServerAuth)
     = Some (bytesToHex (encode (Constructed [x30] [x0a] (map oidElement serverAuthItems))))
  /\ parseKnownExtension (DString (JS.js "2.5.29.37")) (firstNode extendedKeyUsageServerAuth)
     = Return (ExtendedKeyUsage
                 (map (fun item => oidLabel (DString (decodeOID (snd item))))
                    serverAuthItems))
  /\ map (fun item => decodeOID (snd item)) serverAuthItems = [JS.js "1.3.6.1.5.5.7.3.1"].
Proof.
  split; [reflexivity|]. split; [reflexivity|]. split; [|reflexivity].
  apply (extendedKeyUsage_lists_the_purposes (firstNode extendedKeyUsageServerAuth)
           [x0a] serverAuthItems); reflexivity.
Defined.

(** The subjectAltName value that holds the DNS name "a" and the URI
    "h://". *)
Lemma subjectAltNameTwoNames_names :
  valid (Constructed [x30] [x09] (map textNameElement twoNamesItems)) = true
  /\ getRawHex (firstNode subjectAltNameTwoNames)
     = Some (bytesToHex (encode (Constructed [x30] [x09] (map textNameElement twoNamesItems))))
  /\ parseKnownExtension (DString (JS.js "2.5.29.17")) (firstNode subjectAltNameTwoNames)
     = Return (SubjectAltName
                 [mkGeneralName GN_DNS (GNText (JS.js "a"));
                  mkGeneralName GN_URI (GNText (JS.js "h://"))]).
Proof.
  split; [reflexivity|]. split; [reflexivity|].
  apply (subjectAltName_lists_the_names (firstNode subjectAltNameTwoNames)
           [x09] twoNamesItems); reflexivity.
Defined.

(** The directory name CN=ca is printed "Unknown=Unknown". *)
Lemma directoryNameCA_is_Unknown :
  valid (Constructed [xa4] [x0f] [Constructed [x30] [x0d] rdnsCA]) = true
  /\ forallb isConstructed rdnsCA = true
  /\ exists name,
       firstNode directoryNameCA = Some name
       /\ Node.fullHex name
          = bytesToHex (encode (Constructed [xa4] [x0f] [Constructed [x30] [x0d] rdnsCA]))
       /\ Tag.number (Node.tag name) = 4
       /\ decodeGeneralName name
          = Return (mkGeneralName GN_directoryName (GNDirectoryName [unknownPart])).
Proof.
  split; [reflexivity|]. split; [reflexivity|].
  destruct (firstNode directoryNameCA) as [name|] eqn:E; [|vm_compute in E; discriminate].
  assert (Hfull : Node.fullHex name
                  = bytesToHex (encode (Constructed [xa4] [x0f]
                                          [Constructed [x30] [x0d] rdnsCA])))
    by (vm_compute in E; injection E as <-; reflexivity).
  assert (Hnumber : Tag.number (Node.tag name) = 4)
    by (vm_compute in E; injection E as <-; reflexivity).
  exists name. split; [reflexivity|]. split; [exact Hfull|]. split; [exact Hnumber|].
  apply (proj2 (directoryName_is_always_Unknown name [xa4] [x0f] [x30] [x0d] rdnsCA
                  eq_refl eq_refl Hfull)).
  exact Hnumber.
Defined.

